(** * mdui: visibility controllers of the web components

  A shallow embedding of the lifecycle and animation orchestration of the
  mdui custom elements: the [Dialog] open/close handler, the [Fab] width
  handler, the scroll-driven [BottomAppBar] and the [Select] value
  normalisation on connection.

  Asynchronous handlers are cut at their [await]s: every stretch of code
  between two suspension points is a function on the state, and a
  suspended handler is a continuation kept by the event loop together with
  the locals it captured. *)

From Stdlib Require Import ZArith List String Bool Lia.
From stdpp Require Import base option list gmap.
Import ListNotations.
Local Open Scope string_scope.
Local Open Scope Z_scope.
Local Open Scope list_scope.

(** ** DOM events *)

Module Event.

(** The [CustomEventInit] fields a caller may pass; an absent field takes
    the helper's default. *)
Record Init := { cancelableOpt : option bool }.

Definition noInit : Init := {| cancelableOpt := None |}.
Definition cancelableInit : Init := {| cancelableOpt := Some true |}.

Record CustomEvent := {
  type : string;
  cancelable : bool;
  defaultPrevented : bool;
}.

(** Modelled from the spec: the helper [emit] of
    [@mdui/shared/helpers/event.js] is not among the sources.  It builds
    the event, dispatches it on the widget's own node and returns it.  The
    completed notifications are dispatched without options and are
    informational only, so an event is cancelable only when the caller asks
    for it; [preventDefault] on an event that is not cancelable is ignored
    by the platform.  [listeners name] tells whether some listener
    registered for [name] calls [preventDefault]. *)
Definition emit (listeners : string -> bool) (name : string) (options : Init)
  : CustomEvent :=
  let c := default false (cancelableOpt options) in
  {| type := name; cancelable := c; defaultPrevented := c && listeners name |}.

End Event.

(** ** BottomAppBar: scroll-driven visibility *)

Module BottomAppBar.

Record t := {
  hide : bool;
  fabDetach : bool;
  listeners : string -> bool;
}.

Definition set_hide (b : bool) (bar : t) : t :=
  {| hide := b; fabDetach := fabDetach bar; listeners := listeners bar |}.

(** [runScrollThreshold]: two consecutive [if]s, the second one reading
    [this.hide] again.  The result carries the events dispatched, oldest
    first. *)
Definition runScrollThreshold (isScrollingUp : bool) (bar : t)
  : t * list Event.CustomEvent :=
  let '(bar1, out1) :=
    if negb isScrollingUp && negb (hide bar) then
      let requestHide := Event.emit (listeners bar) "hide" Event.noInit in
      if negb (Event.defaultPrevented requestHide)
      then (set_hide true bar, [requestHide])
      else (bar, [requestHide])
    else (bar, []) in
  if isScrollingUp && hide bar1 then
    let requestShow := Event.emit (listeners bar1) "show" Event.noInit in
    if negb (Event.defaultPrevented requestShow)
    then (set_hide false bar1, out1 ++ [requestShow])
    else (bar1, out1 ++ [requestShow])
  else (bar1, out1).

End BottomAppBar.

(** ** Select: value normalisation on connection *)

Module Select.

(** [value: string | string[]] *)
Inductive Value :=
| VString (s : string)
| VArray (l : list string).

Record t := {
  multiple : bool;
  value : Value;
  defaultValue : Value;
}.

(** Modelled from the spec: [isString] of [@mdui/jq/shared/helper.js] is
    not among the sources; on a value that is a string or an array of
    strings it tells the two apart. *)
Definition isString (v : Value) : bool :=
  match v with VString _ => true | VArray _ => false end.

(** JavaScript truthiness: only the empty string is falsy here. *)
Definition truthy (v : Value) : bool :=
  match v with
  | VString s => negb (String.eqb s EmptyString)
  | VArray _ => true
  end.

(** [[this.value]] for a string value. *)
Definition singleton (v : Value) : Value :=
  match v with
  | VString s => VArray [s]
  | VArray l => VArray l
  end.

(** [connectedCallback]: the two assignments.  The deferred
    [requestUpdate] touches neither field. *)
Definition connectedCallback (s : t) : t :=
  let v :=
    if multiple s && isString (value s)
    then (if truthy (value s) then singleton (value s) else VArray [])
    else value s in
  {| multiple := multiple s;
     value := v;
     defaultValue := if multiple s then VArray [] else VString EmptyString |}.

(** The type of a value agrees with the [multiple] flag. *)
Definition agrees (m : bool) (v : Value) : bool :=
  match v with
  | VArray _ => m
  | VString _ => negb m
  end.

End Select.

(** ** Fab: width handler *)

Module Fab.

(** [style.width] is [''] ([None]) or a pixel length; [transitionProperty]
    is the inline style the handler writes. *)
Record t := {
  extended : bool;
  hasUpdated : bool;
  scrollWidth : N;
  width : option N;
  transitionProperty : option string;
}.

Inductive Write :=
| WriteWidth (v : option N)
| WriteTransitionProperty (v : string).

Definition set_width (v : option N) (f : t) : t :=
  {| extended := extended f; hasUpdated := hasUpdated f;
     scrollWidth := scrollWidth f; width := v;
     transitionProperty := transitionProperty f |}.

Definition set_transitionProperty (v : string) (f : t) : t :=
  {| extended := extended f; hasUpdated := hasUpdated f;
     scrollWidth := scrollWidth f; width := width f;
     transitionProperty := Some v |}.

(** What the renderer does between two stretches of the handler: the
    first render completes and the measured width may change. *)
Definition rendered (measured : N) (f : t) : t :=
  {| extended := extended f; hasUpdated := true;
     scrollWidth := measured; width := width f;
     transitionProperty := transitionProperty f |}.

(** Suspension points of [onExtendedChange], with the captured
    [hasUpdated]: [await this.updateComplete] and the two [await delay()]. *)
Inductive Cont :=
| AwaitUpdateComplete (hasUpdated : bool)
| AwaitDelayWidth (hasUpdated : bool)
| AwaitDelayTransition.

(** Up to [await this.updateComplete]. *)
Definition onExtendedChange (f : t) : t * list Write * option Cont :=
  let hasUpdated := hasUpdated f in
  let v := if negb (extended f) then None else Some (scrollWidth f) in
  (set_width v f, [WriteWidth v], Some (AwaitUpdateComplete hasUpdated)).

Definition transitionCheck (hasUpdated : bool) (f : t)
  : t * list Write * option Cont :=
  if negb hasUpdated then (f, [], Some AwaitDelayTransition)
  else (f, [], None).

Definition resume (k : Cont) (f : t) : t * list Write * option Cont :=
  match k with
  | AwaitUpdateComplete hasUpdated =>
      if extended f && negb hasUpdated
      then (f, [], Some (AwaitDelayWidth hasUpdated))
      else transitionCheck hasUpdated f
  | AwaitDelayWidth hasUpdated =>
      let v := Some (scrollWidth f) in
      let '(f', ws, k') := transitionCheck hasUpdated (set_width v f) in
      (f', WriteWidth v :: ws, k')
  | AwaitDelayTransition =>
      let v := "box-shadow, width, bottom, transform" in
      (set_transitionProperty v f, [WriteTransitionProperty v], None)
  end.

(** Runs the handler to its end; [measure] is the width the element has
    at each later stretch. *)
Fixpoint drive (fuel : nat) (measure : N) (k : option Cont) (f : t)
  : option (t * list Write) :=
  match k with
  | None => Some (f, [])
  | Some c =>
      match fuel with
      | O => None
      | S fuel' =>
          let '(f', ws, k') := resume c (rendered measure f) in
          match drive fuel' measure k' f' with
          | Some (f'', ws') => Some (f'', ws ++ ws')
          | None => None
          end
      end
  end.

Definition runToEnd (measure : N) (f : t) : option (t * list Write) :=
  let '(f', ws, k) := onExtendedChange f in
  match drive 3 measure k f' with
  | Some (f'', ws') => Some (f'', ws ++ ws')
  | None => None
  end.

End Fab.

(** ** The document: nodes, effects, shared resources *)

Module Dom.

(** The nodes the handlers touch.  [w] is the index of the widget
    instance; [Outside] is any other node of the page, with whether it
    exposes a [focus] function. *)
Inductive Node :=
| Host (w : nat)
| Overlay (w : nat)
| Panel (w : nat)
| Body (w : nat)
| Inner (w : nat) (k : nat)
| Outside (id : nat) (focusable : bool).

Definition node_eqb (a b : Node) : bool :=
  match a, b with
  | Host x, Host y => Nat.eqb x y
  | Overlay x, Overlay y => Nat.eqb x y
  | Panel x, Panel y => Nat.eqb x y
  | Body x, Body y => Nat.eqb x y
  | Inner x i, Inner y j => Nat.eqb x y && Nat.eqb i j
  | Outside x f, Outside y g => Nat.eqb x y && Bool.eqb f g
  | _, _ => false
  end.

(** [typeof trigger?.focus === 'function'] *)
Definition hasFocusFunction (trigger : option Node) : bool :=
  match trigger with
  | None => false
  | Some (Outside _ focusable) => focusable
  | Some _ => true
  end.

Record Keyframe := {
  property : string;
  value : string;
  offset : option string;
}.

Inductive Status := Running | Finished | Canceled.

(** One keyframe effect started by [animateTo]; [owner] is the Animation
    Run (one [Promise.all] of [animateTo] calls) it belongs to. *)
Record Effect := {
  target : Node;
  keyframes : list Keyframe;
  duration : Z;
  easing : string;
  owner : nat;
  status : Status;
}.

Definition isRunning (e : Effect) : bool :=
  match status e with Running => true | _ => false end.

Definition set_status (st : Status) (e : Effect) : Effect :=
  {| target := target e; keyframes := keyframes e; duration := duration e;
     easing := easing e; owner := owner e; status := st |}.

(** Callbacks handed to [requestAnimationFrame] and [setTimeout]. *)
Inductive Callback :=
| FocusInitial (w : nat)
| FocusNode (n : Node).

(** Everything observable, in the order it happens.  The [Modal] helper
    is not among the sources: its two calls are recorded as such. *)
Inductive Action :=
| Dispatched (w : nat) (e : Event.CustomEvent)
| StyleDisplay (w : nat) (v : string)
| StyleMarginTop (w : nat) (v : string)
| ScrollTargetSet (w : nat) (n : Node)
| ModalActivated (w : nat)
| ModalDeactivated (w : nat)
| ScreenLocked (w : nat)
| ScreenUnlocked (w : nat)
| AnimationsStopped (n : Node)
| AnimationStarted (n : Node) (run : nat) (duration : Z)
| FrameRequested (cb : Callback)
| TimeoutSet (cb : Callback)
| Focused (n : Node).

Record World := {
  lockCount : Z;
  activeElement : option Node;
  effects : list Effect;
  nextRun : nat;
  frames : list Callback;
  timers : list Callback;
  log : list Action;
}.

Definition set_lockCount (v : Z) (W : World) : World :=
  {| lockCount := v; activeElement := activeElement W; effects := effects W;
     nextRun := nextRun W; frames := frames W; timers := timers W;
     log := log W |}.

Definition set_activeElement (v : option Node) (W : World) : World :=
  {| lockCount := lockCount W; activeElement := v; effects := effects W;
     nextRun := nextRun W; frames := frames W; timers := timers W;
     log := log W |}.

Definition set_effects (v : list Effect) (W : World) : World :=
  {| lockCount := lockCount W; activeElement := activeElement W; effects := v;
     nextRun := nextRun W; frames := frames W; timers := timers W;
     log := log W |}.

Definition set_nextRun (v : nat) (W : World) : World :=
  {| lockCount := lockCount W; activeElement := activeElement W;
     effects := effects W; nextRun := v; frames := frames W;
     timers := timers W; log := log W |}.

Definition set_frames (v : list Callback) (W : World) : World :=
  {| lockCount := lockCount W; activeElement := activeElement W;
     effects := effects W; nextRun := nextRun W; frames := v;
     timers := timers W; log := log W |}.

Definition set_timers (v : list Callback) (W : World) : World :=
  {| lockCount := lockCount W; activeElement := activeElement W;
     effects := effects W; nextRun := nextRun W; frames := frames W;
     timers := v; log := log W |}.

Definition record (a : Action) (W : World) : World :=
  {| lockCount := lockCount W; activeElement := activeElement W;
     effects := effects W; nextRun := nextRun W; frames := frames W;
     timers := timers W; log := log W ++ [a] |}.

(** Modelled from the spec: [lockScreen] and [unlockScreen] of
    [@mdui/shared/helpers/scroll.js] are not among the sources.  A global
    scroll-lock counter is incremented on open and decremented on close;
    scrolling stays locked while the count is positive. *)
Definition lockScreen (w : nat) (W : World) : World :=
  record (ScreenLocked w) (set_lockCount (lockCount W + 1) W).

Definition unlockScreen (w : nat) (W : World) : World :=
  record (ScreenUnlocked w) (set_lockCount (lockCount W - 1) W).

Definition scrollLocked (W : World) : bool := 0 <? lockCount W.

(** Modelled from the spec: [animateTo] and [stopAnimations] of
    [@mdui/shared/helpers/animate.js] are not among the sources.
    [animateTo] starts one keyframe effect on a node; its completion
    signal fires once the effect has finished or has been canceled.
    [stopAnimations] halts at once every effect running on a node. *)
Definition animateTo (run : nat) (n : Node) (kfs : list Keyframe)
    (d : Z) (ease : string) (W : World) : World :=
  record (AnimationStarted n run d)
    (set_effects
       (effects W ++
        [{| target := n; keyframes := kfs; duration := d; easing := ease;
            owner := run; status := Running |}]) W).

Definition cancelOn (n : Node) (e : Effect) : Effect :=
  if node_eqb (target e) n && isRunning e then set_status Canceled e else e.

Definition stopAnimations (n : Node) (W : World) : World :=
  record (AnimationsStopped n) (set_effects (map (cancelOn n) (effects W)) W).

(** The completion signal of a whole run: no effect of the run is still
    running. *)
Definition settled (run : nat) (W : World) : bool :=
  forallb (fun e => negb (Nat.eqb (owner e) run && isRunning e)) (effects W).

(** The platform brings every running effect of a run to its end. *)
Definition finishOf (run : nat) (e : Effect) : Effect :=
  if Nat.eqb (owner e) run && isRunning e then set_status Finished e else e.

Definition finishRun (run : nat) (W : World) : World :=
  set_effects (map (finishOf run) (effects W)) W.

Definition focus (n : Node) (W : World) : World :=
  record (Focused n) (set_activeElement (Some n) W).

Definition requestAnimationFrame (cb : Callback) (W : World) : World :=
  record (FrameRequested cb) (set_frames (frames W ++ [cb]) W).

Definition setTimeout (cb : Callback) (W : World) : World :=
  record (TimeoutSet cb) (set_timers (timers W ++ [cb]) W).

(** Two effects of different runs are running on one node. *)
Definition clash (a b : Effect) : bool :=
  node_eqb (target a) (target b) && negb (Nat.eqb (owner a) (owner b))
  && isRunning a && isRunning b.

Definition overlapping (W : World) : bool :=
  existsb (fun a => existsb (clash a) (effects W)) (effects W).

End Dom.

(** ** Dialog *)

Module Dialog.
Import Dom.

(** One [<mdui-dialog>].  [children] is what
    [querySelectorAll('.header, .body, .actions')] finds in the panel,
    [autofocus] what [querySelector('[autofocus]')] finds, [topAppBarElements]
    the [scrollTarget] of each [<mdui-top-app-bar slot="header">].
    [listeners] says which event types have a listener that calls
    [preventDefault].  The helpers [getDuration] and [getEasing] of
    [@mdui/shared/helpers/motion.js] are not among the sources: the motion
    tokens they read from the element are a table of the instance. *)
Record t := {
  open : bool;
  hasUpdated : bool;
  display : string;
  bodyMarginTop : string;
  originalTrigger : option Node;
  children : list Node;
  autofocus : option Node;
  topAppBarElements : list (option Node);
  listeners : string -> bool;
  getDuration : string -> Z;
  getEasing : string -> string;
}.

Definition set_open (v : bool) (d : t) : t :=
  {| open := v; hasUpdated := hasUpdated d; display := display d;
     bodyMarginTop := bodyMarginTop d; originalTrigger := originalTrigger d;
     children := children d; autofocus := autofocus d;
     topAppBarElements := topAppBarElements d; listeners := listeners d;
     getDuration := getDuration d; getEasing := getEasing d |}.

Definition set_hasUpdated (v : bool) (d : t) : t :=
  {| open := open d; hasUpdated := v; display := display d;
     bodyMarginTop := bodyMarginTop d; originalTrigger := originalTrigger d;
     children := children d; autofocus := autofocus d;
     topAppBarElements := topAppBarElements d; listeners := listeners d;
     getDuration := getDuration d; getEasing := getEasing d |}.

Definition set_display (v : string) (d : t) : t :=
  {| open := open d; hasUpdated := hasUpdated d; display := v;
     bodyMarginTop := bodyMarginTop d; originalTrigger := originalTrigger d;
     children := children d; autofocus := autofocus d;
     topAppBarElements := topAppBarElements d; listeners := listeners d;
     getDuration := getDuration d; getEasing := getEasing d |}.

Definition set_bodyMarginTop (v : string) (d : t) : t :=
  {| open := open d; hasUpdated := hasUpdated d; display := display d;
     bodyMarginTop := v; originalTrigger := originalTrigger d;
     children := children d; autofocus := autofocus d;
     topAppBarElements := topAppBarElements d; listeners := listeners d;
     getDuration := getDuration d; getEasing := getEasing d |}.

Definition set_originalTrigger (v : option Node) (d : t) : t :=
  {| open := open d; hasUpdated := hasUpdated d; display := display d;
     bodyMarginTop := bodyMarginTop d; originalTrigger := v;
     children := children d; autofocus := autofocus d;
     topAppBarElements := topAppBarElements d; listeners := listeners d;
     getDuration := getDuration d; getEasing := getEasing d |}.

Definition set_topAppBarElements (v : list (option Node)) (d : t) : t :=
  {| open := open d; hasUpdated := hasUpdated d; display := display d;
     bodyMarginTop := bodyMarginTop d; originalTrigger := originalTrigger d;
     children := children d; autofocus := autofocus d;
     topAppBarElements := v; listeners := listeners d;
     getDuration := getDuration d; getEasing := getEasing d |}.

(** *** The handler's state monad: the instance and the document *)

Definition M (A : Type) : Type := t * World -> A * (t * World).

Definition ret {A} (a : A) : M A := fun s => (a, s).

Definition bind {A B} (m : M A) (k : A -> M B) : M B :=
  fun s => let '(a, s') := m s in k a s'.

Notation "x <- m ;; k" := (bind m (fun x => k))
  (at level 100, m at next level, right associativity).
Notation "m ;; k" := (bind m (fun _ => k))
  (at level 100, k at level 200, right associativity).

Definition this : M t := fun s => (fst s, s).
Definition document : M World := fun s => (snd s, s).
Definition onThis (f : t -> t) : M unit := fun s => (tt, (f (fst s), snd s)).
Definition onDocument (f : World -> World) : M unit :=
  fun s => (tt, (fst s, f (snd s))).

Fixpoint forEach {A} (l : list A) (f : A -> M unit) : M unit :=
  match l with
  | [] => ret tt
  | x :: l' => f x ;; forEach l' f
  end.

Definition emit (w : nat) (name : string) (options : Event.Init)
  : M Event.CustomEvent :=
  d <- this ;;
  let e := Event.emit (listeners d) name options in
  onDocument (record (Dispatched w e)) ;;
  ret e.

(** Suspended invocations of [onOpenChange], one constructor per [await],
    each with the locals it still needs. *)
Inductive Cont :=
| AwaitDefined (w : nat) (hasUpdated : bool)
| AwaitUpdateComplete (w : nat) (hasUpdated : bool)
| AwaitStopOpen (w : nat) (hasUpdated : bool) (children : list Node)
| AwaitOpenRun (w : nat) (hasUpdated : bool) (run : nat)
| AwaitStopClose (w : nat) (children : list Node)
| AwaitCloseRun (w : nat) (run : nat).

Definition instanceOf (k : Cont) : nat :=
  match k with
  | AwaitDefined w _ | AwaitUpdateComplete w _ | AwaitStopOpen w _ _
  | AwaitOpenRun w _ _ | AwaitStopClose w _ | AwaitCloseRun w _ => w
  end.

(** [stopAnimation]: overlay, panel, then every child. *)
Definition stopAnimation (w : nat) (children : list Node) : M unit :=
  onDocument (stopAnimations (Overlay w)) ;;
  onDocument (stopAnimations (Panel w)) ;;
  forEach children (fun child => onDocument (stopAnimations child)).

Definition kf (p v : string) (o : option string) : Keyframe :=
  {| property := p; value := v; offset := o |}.

Definition overlayIn : list Keyframe :=
  [kf "opacity" "0" None; kf "opacity" "1" (Some "0.3"); kf "opacity" "1" None].
Definition panelTransformIn : list Keyframe :=
  [kf "transform" "translateY(-1.875rem) scaleY(0)" None;
   kf "transform" "translateY(0) scaleY(1)" None].
Definition panelOpacityIn : list Keyframe :=
  [kf "opacity" "0" None; kf "opacity" "1" (Some "0.1"); kf "opacity" "1" None].
Definition childIn : list Keyframe :=
  [kf "opacity" "0" None; kf "opacity" "0" (Some "0.2");
   kf "opacity" "1" (Some "0.8"); kf "opacity" "1" None].
Definition overlayOut : list Keyframe :=
  [kf "opacity" "1" None; kf "opacity" "0" None].
Definition panelTransformOut : list Keyframe :=
  [kf "transform" "translateY(0) scaleY(1)" None;
   kf "transform" "translateY(-1.875rem) scaleY(0.6)" None].
Definition panelOpacityOut : list Keyframe :=
  [kf "opacity" "1" None; kf "opacity" "1" (Some "0.75"); kf "opacity" "0" None].
Definition childOut : list Keyframe :=
  [kf "opacity" "1" None; kf "opacity" "0" (Some "0.75"); kf "opacity" "0" None].

Definition newRun : M nat :=
  W <- document ;;
  onDocument (set_nextRun (S (nextRun W))) ;;
  ret (nextRun W).

(** [onOpenChange] up to [await this.definedController.whenDefined()]. *)
Definition onOpenChange (w : nat) : M (option Cont) :=
  d <- this ;;
  let hasUpdated := hasUpdated d in
  if negb (open d) && negb hasUpdated then ret None
  else ret (Some (AwaitDefined w hasUpdated)).

(** The header's top app bar takes over scrolling of the body. *)
Definition adoptTopAppBar (w : nat) : M unit :=
  d <- this ;;
  match topAppBarElements d with
  | [] => ret tt
  | scrollTarget :: others =>
      (match scrollTarget with
       | None =>
           onThis (set_topAppBarElements (Some (Body w) :: others)) ;;
           onDocument (record (ScrollTargetSet w (Body w)))
       | Some _ => ret tt
       end) ;;
      onThis (set_bodyMarginTop "0") ;;
      onDocument (record (StyleMarginTop w "0"))
  end.

(** From the query of the children to the [await stopAnimation()] of the
    branch taken. *)
Definition protocol (w : nat) (hasUpdated : bool) : M (option Cont) :=
  d <- this ;;
  let children := children d in
  if open d then
    requestOpen <-
      (if hasUpdated then
         e <- emit w "open" Event.cancelableInit ;;
         ret (Event.defaultPrevented e)
       else ret false) ;;
    if requestOpen then ret None
    else
      onThis (set_display "flex") ;;
      onDocument (record (StyleDisplay w "flex")) ;;
      adoptTopAppBar w ;;
      W <- document ;;
      onThis (set_originalTrigger (activeElement W)) ;;
      onDocument (record (ModalActivated w)) ;;
      onDocument (lockScreen w) ;;
      stopAnimation w children ;;
      ret (Some (AwaitStopOpen w hasUpdated children))
  else
    requestClose <- emit w "close" Event.cancelableInit ;;
    if Event.defaultPrevented requestClose then ret None
    else
      onDocument (record (ModalDeactivated w)) ;;
      stopAnimation w children ;;
      ret (Some (AwaitStopClose w children)).

Definition afterDefined (w : nat) (hasUpdated : bool) : M (option Cont) :=
  if negb hasUpdated then ret (Some (AwaitUpdateComplete w hasUpdated))
  else protocol w hasUpdated.

(** The entry run: focus request, then the [Promise.all] of effects. *)
Definition startOpenRun (w : nat) (hasUpdated : bool) (children : list Node)
  : M (option Cont) :=
  d <- this ;;
  onDocument (requestAnimationFrame (FocusInitial w)) ;;
  let duration := getDuration d "medium4" in
  let easingLinear := getEasing d "linear" in
  let easingEmphasizedDecelerate := getEasing d "emphasized-decelerate" in
  let used := if hasUpdated then duration else 0 in
  run <- newRun ;;
  onDocument (animateTo run (Overlay w) overlayIn used easingLinear) ;;
  onDocument (animateTo run (Panel w) panelTransformIn used
                easingEmphasizedDecelerate) ;;
  onDocument (animateTo run (Panel w) panelOpacityIn used easingLinear) ;;
  forEach children (fun child =>
    onDocument (animateTo run child childIn used easingLinear)) ;;
  ret (Some (AwaitOpenRun w hasUpdated run)).

Definition finishOpen (w : nat) (hasUpdated : bool) : M (option Cont) :=
  (if hasUpdated then emit w "opened" Event.noInit ;; ret tt else ret tt) ;;
  ret None.

Definition startCloseRun (w : nat) (children : list Node) : M (option Cont) :=
  d <- this ;;
  let duration := getDuration d "short4" in
  let easingLinear := getEasing d "linear" in
  let easingEmphasizedAccelerate := getEasing d "emphasized-accelerate" in
  run <- newRun ;;
  onDocument (animateTo run (Overlay w) overlayOut duration easingLinear) ;;
  onDocument (animateTo run (Panel w) panelTransformOut duration
                easingEmphasizedAccelerate) ;;
  onDocument (animateTo run (Panel w) panelOpacityOut duration easingLinear) ;;
  forEach children (fun child =>
    onDocument (animateTo run child childOut duration easingLinear)) ;;
  ret (Some (AwaitCloseRun w run)).

Definition finishClose (w : nat) : M (option Cont) :=
  onThis (set_display "none") ;;
  onDocument (record (StyleDisplay w "none")) ;;
  onDocument (unlockScreen w) ;;
  d <- this ;;
  let trigger := originalTrigger d in
  (match trigger with
   | Some n =>
       if hasFocusFunction trigger
       then onDocument (setTimeout (FocusNode n))
       else ret tt
   | None => ret tt
   end) ;;
  emit w "closed" Event.noInit ;;
  ret None.

(** What a suspended invocation does when it is resumed. *)
Definition resume (k : Cont) : M (option Cont) :=
  match k with
  | AwaitDefined w hasUpdated => afterDefined w hasUpdated
  | AwaitUpdateComplete w hasUpdated => protocol w hasUpdated
  | AwaitStopOpen w hasUpdated children => startOpenRun w hasUpdated children
  | AwaitOpenRun w hasUpdated _ => finishOpen w hasUpdated
  | AwaitStopClose w children => startCloseRun w children
  | AwaitCloseRun w _ => finishClose w
  end.

(** Whether the awaited signal has fired.  A handler that awaits
    [whenDefined] or [stopAnimation] may be resumed at any later step: the
    model does not say how long these take.  [updateComplete] resolves once
    the first render is done; the [Promise.all] of a run resolves once the
    run has settled. *)
Definition ready (k : Cont) (d : t) (W : World) : bool :=
  match k with
  | AwaitDefined _ _ => true
  | AwaitUpdateComplete _ _ => hasUpdated d
  | AwaitStopOpen _ _ _ => true
  | AwaitOpenRun _ _ run => settled run W
  | AwaitStopClose _ _ => true
  | AwaitCloseRun _ run => settled run W
  end.

Definition disconnectedCallback (w : nat) : M unit :=
  onDocument (unlockScreen w).

(** The callback given to [requestAnimationFrame] in the open branch. *)
Definition focusInitial (w : nat) : M unit :=
  d <- this ;;
  match autofocus d with
  | Some autoFocusTarget => onDocument (focus autoFocusTarget)
  | None => onDocument (focus (Panel w))
  end.

End Dialog.

(** ** The event loop *)

Module Loop.
Import Dom.

(** The page: its dialogs, the document, and the suspended handler
    invocations in the order they were suspended. *)
Record Sys := {
  dialogs : list Dialog.t;
  world : World;
  pending : list Dialog.Cont;
}.

(** What can happen next: the first update of an instance, a write of the
    [open] property followed by the update it causes, the resumption of a
    suspended invocation, the platform finishing a run, an animation
    frame, the oldest timeout, the removal of an instance.

    Modelled from the spec: the [watch] decorator and the update cycle of
    the rendering layer are not among the sources.  The handler of a watched
    property runs in the update that follows a change of the property,
    before the render; the first update runs it with [hasUpdated] still
    [false] and sets the flag once the first render is complete; a write
    that does not change the value causes no call. *)
Inductive Step :=
| FirstUpdate (w : nat)
| SetOpen (w : nat) (v : bool)
| Resume (i : nat)
| FinishRun (run : nat)
| Frame
| RunTimer
| Disconnect (w : nat).

(** Runs a stretch of a handler on instance [w]. *)
Definition runOn {A} (w : nat) (m : Dialog.M A) (s : Sys)
  : option (A * Sys) :=
  match dialogs s !! w with
  | None => None
  | Some d =>
      let '(a, (d', W')) := m (d, world s) in
      Some (a, {| dialogs := <[w := d']> (dialogs s); world := W';
                  pending := pending s |})
  end.

Definition suspend (k : option Dialog.Cont) (s : Sys) : Sys :=
  {| dialogs := dialogs s; world := world s;
     pending := pending s ++ option_list k |}.

Definition invoke (w : nat) (m : Dialog.M (option Dialog.Cont)) (s : Sys)
  : option Sys :=
  match runOn w m s with
  | None => None
  | Some (k, s') => Some (suspend k s')
  end.

Definition callback (cb : Callback) (s : Sys) : option Sys :=
  match cb with
  | FocusInitial w =>
      match runOn w (Dialog.focusInitial w) s with
      | None => None
      | Some (_, s') => Some s'
      end
  | FocusNode n =>
      Some {| dialogs := dialogs s; world := focus n (world s);
              pending := pending s |}
  end.

Fixpoint callbacks (cbs : list Callback) (s : Sys) : option Sys :=
  match cbs with
  | [] => Some s
  | cb :: rest =>
      match callback cb s with
      | None => None
      | Some s' => callbacks rest s'
      end
  end.

Definition exec (st : Step) (s : Sys) : option Sys :=
  match st with
  | FirstUpdate w =>
      match dialogs s !! w with
      | None => None
      | Some d =>
          if Dialog.hasUpdated d then None
          else
            match invoke w (Dialog.onOpenChange w) s with
            | None => None
            | Some s' =>
                match runOn w (Dialog.onThis (Dialog.set_hasUpdated true)) s' with
                | None => None
                | Some (_, s'') => Some s''
                end
            end
      end
  | SetOpen w v =>
      match dialogs s !! w with
      | None => None
      | Some d =>
          if Bool.eqb (Dialog.open d) v then Some s
          else
            let s' := {| dialogs := <[w := Dialog.set_open v d]> (dialogs s);
                         world := world s; pending := pending s |} in
            if Dialog.hasUpdated d then invoke w (Dialog.onOpenChange w) s'
            else Some s'
      end
  | Resume i =>
      match pending s !! i with
      | None => None
      | Some k =>
          match dialogs s !! Dialog.instanceOf k with
          | None => None
          | Some d =>
              if Dialog.ready k d (world s) then
                invoke (Dialog.instanceOf k) (Dialog.resume k)
                  {| dialogs := dialogs s; world := world s;
                     pending := delete i (pending s) |}
              else None
          end
      end
  | FinishRun run =>
      Some {| dialogs := dialogs s; world := finishRun run (world s);
              pending := pending s |}
  | Frame =>
      callbacks (frames (world s))
        {| dialogs := dialogs s; world := set_frames [] (world s);
           pending := pending s |}
  | RunTimer =>
      match timers (world s) with
      | [] => None
      | cb :: rest =>
          callback cb
            {| dialogs := dialogs s; world := set_timers rest (world s);
               pending := pending s |}
      end
  | Disconnect w =>
      match runOn w (Dialog.disconnectedCallback w) s with
      | None => None
      | Some (_, s') => Some s'
      end
  end.

Fixpoint run (sched : list Step) (s : Sys) : option Sys :=
  match sched with
  | [] => Some s
  | st :: rest =>
      match exec st s with
      | None => None
      | Some s' => run rest s'
      end
  end.

(** The events dispatched on instance [w], oldest first. *)
Definition eventsOf (w : nat) (a : Action) : list Event.CustomEvent :=
  match a with
  | Dispatched w' e => if Nat.eqb w' w then [e] else []
  | _ => []
  end.

Definition dispatchedOn (w : nat) (l : list Action)
  : list Event.CustomEvent :=
  flat_map (eventsOf w) l.

(** A document with nothing going on. *)
Definition quiet (count : Z) (active : option Node) : World :=
  {| lockCount := count; activeElement := active; effects := [];
     nextRun := 0; frames := []; timers := []; log := [] |}.

(** The last [n] entries of a log, oldest first. *)
Definition latest (n : nat) (l : list Action) : list Action :=
  rev (firstn n (rev l)).

(** A page with its dialogs and no handler in flight. *)
Definition page (ds : list Dialog.t) (W : World) : Sys :=
  {| dialogs := ds; world := W; pending := [] |}.

End Loop.

(** ** Schedules *)

Module Scenario.
Import Dom Loop.

(** A rendered, closed dialog with two animated children; [veto] is its
    listener policy. *)
Definition rendered (veto : string -> bool) : Dialog.t :=
  {| Dialog.open := false; Dialog.hasUpdated := true; Dialog.display := EmptyString;
     Dialog.bodyMarginTop := EmptyString; Dialog.originalTrigger := None;
     Dialog.children := [Inner 0 0; Inner 0 1]; Dialog.autofocus := None;
     Dialog.topAppBarElements := []; Dialog.listeners := veto;
     Dialog.getDuration :=
       (fun token => if String.eqb token "medium4" then 400 else 200);
     Dialog.getEasing := (fun token => token) |}.

(** The same dialog written as [<mdui-dialog open>], before its first
    update. *)
Definition fresh (veto : string -> bool) : Dialog.t :=
  Dialog.set_hasUpdated false (Dialog.set_open true (rendered veto)).

Definition nobody : string -> bool := fun _ => false.
Definition everybody : string -> bool := fun _ => true.

(** A fab written as [<mdui-fab extended>], before its first update. *)
Definition extendedFab : Fab.t :=
  {| Fab.extended := true; Fab.hasUpdated := false; Fab.scrollWidth := 56;
     Fab.width := None; Fab.transitionProperty := None |}.

(** The button that has the focus before the dialog opens. *)
Definition button : Node := Outside 7 true.

(** First update of a dialog that is already open: the handler, the
    render, and the handler's four resumptions around the entry run. *)
Definition firstRender : list Step :=
  [FirstUpdate 0; Resume 0; Resume 0; Resume 0; FinishRun 0; Resume 0].

(** [open = true] up to the entry run being in flight. *)
Definition toOpening (w : nat) : list Step :=
  [SetOpen w true; Resume 0; Resume 0].

(** The entry run settles and the handler ends. *)
Definition toOpen (run : nat) : list Step :=
  [Frame; FinishRun run; Resume 0].

(** [open = false] up to the exit run being in flight. *)
Definition toClosing (w : nat) : list Step :=
  [SetOpen w false; Resume 0; Resume 0].

(** The exit run settles and the handler ends. *)
Definition toClosed (run : nat) : list Step :=
  [FinishRun run; Resume 0].

(** Open, then closed again while the entry run is in flight.  The close
    handler cancels the entry run at [Resume 1]; after that both handlers
    can be resumed, in either order. *)
Definition rapidToggle (openFirst : bool) : list Step :=
  [SetOpen 0 true; Resume 0; Resume 0; SetOpen 0 false; Resume 1]
  ++ (if openFirst then [Resume 0; Resume 0] else [Resume 1; Resume 0])
  ++ [FinishRun 1; Resume 0].

(** Two writes of [open] while the first handler still awaits
    [whenDefined]; the handlers then proceed in the order they were
    suspended. *)
Definition doubleFlip : list Step :=
  [SetOpen 0 true; SetOpen 0 false; Resume 0; Resume 0; Resume 0; Resume 0].

(** The flag is written twice while the entry run is in flight; the two
    new handlers then proceed in the order they were suspended. *)
Definition flipsInFlight : list Step :=
  toOpening 0
  ++ [SetOpen 0 false; SetOpen 0 true; Resume 1; Resume 1; Resume 1; Resume 1].

End Scenario.

(** ** Closed forms of the handler's stretches

  The handler walks over [children] one call at a time; the functions
  below give the document after such a walk in one piece.  They are shown
  equal to what the handler computes and serve the proofs only. *)

Module Closed.
Import Dom.

Definition recordAll (l : list Action) (W : World) : World :=
  {| lockCount := lockCount W; activeElement := activeElement W;
     effects := effects W; nextRun := nextRun W; frames := frames W;
     timers := timers W; log := log W ++ l |}.

Definition haltOn (ns : list Node) (e : Effect) : Effect :=
  if existsb (node_eqb (target e)) ns && isRunning e
  then set_status Canceled e else e.

(** After [stopAnimations] on every node of [ns]. *)
Definition stopped (ns : list Node) (W : World) : World :=
  recordAll (map AnimationsStopped ns)
    (set_effects (map (haltOn ns) (effects W)) W).

Definition effectOn (run : nat) (kfs : list Keyframe) (d : Z)
    (ease : string) (n : Node) : Effect :=
  {| target := n; keyframes := kfs; duration := d; easing := ease;
     owner := run; status := Running |}.

(** After [animateTo] with the same keyframes on every node of [ns]. *)
Definition started (run : nat) (kfs : list Keyframe) (d : Z)
    (ease : string) (ns : list Node) (W : World) : World :=
  recordAll (map (fun n => AnimationStarted n run d) ns)
    (set_effects (effects W ++ map (effectOn run kfs d ease) ns) W).

(** The nodes a dialog animates. *)
Definition animated (w : nat) (children : list Node) : list Node :=
  Overlay w :: Panel w :: children.

(** Every effect running on one of [ns] belongs to [run]. *)
Definition onlyRun (run : nat) (ns : list Node) (W : World) : bool :=
  forallb (fun e =>
    negb (existsb (node_eqb (target e)) ns && isRunning e)
    || Nat.eqb (owner e) run) (effects W).

(** No effect is running on any of [ns]. *)
Definition idle (ns : list Node) (W : World) : bool :=
  forallb (fun e => negb (existsb (node_eqb (target e)) ns && isRunning e))
    (effects W).

End Closed.

Module ClosedDialog.
Import Dom Closed.

Definition intent (name : string) (prevented : bool) : Event.CustomEvent :=
  {| Event.type := name; Event.cancelable := true;
     Event.defaultPrevented := prevented |}.

Definition completed (name : string) : Event.CustomEvent :=
  {| Event.type := name; Event.cancelable := false;
     Event.defaultPrevented := false |}.

(** The instance and the log entries after [adoptTopAppBar]. *)
Definition adopted (w : nat) (d : Dialog.t) : Dialog.t :=
  match Dialog.topAppBarElements d with
  | [] => d
  | None :: others =>
      Dialog.set_bodyMarginTop "0"
        (Dialog.set_topAppBarElements (Some (Body w) :: others) d)
  | Some _ :: _ => Dialog.set_bodyMarginTop "0" d
  end.

Definition adoptedLog (w : nat) (d : Dialog.t) : list Action :=
  match Dialog.topAppBarElements d with
  | [] => []
  | None :: _ => [ScrollTargetSet w (Body w); StyleMarginTop w "0"]
  | Some _ :: _ => [StyleMarginTop w "0"]
  end.

(** The open branch of [protocol] once the intent has passed. *)
Definition openedDialog (w : nat) (d : Dialog.t) (W : World) : Dialog.t :=
  Dialog.set_originalTrigger (activeElement W)
    (adopted w (Dialog.set_display "flex" d)).

Definition openedWorld (w : nat) (d : Dialog.t) (W : World) : World :=
  stopped (animated w (Dialog.children d))
    (lockScreen w
       (record (ModalActivated w)
          (recordAll (adoptedLog w d) (record (StyleDisplay w "flex") W)))).

(** The close branch of [protocol] once the intent has passed. *)
Definition closingWorld (w : nat) (d : Dialog.t) (W : World) : World :=
  stopped (animated w (Dialog.children d))
    (record (ModalDeactivated w)
       (record (Dispatched w (intent "close" false)) W)).

(** The document once a run has been started on [ns]. *)
Definition entryRun (w : nat) (used : Z) (d : Dialog.t)
    (children : list Node) (W : World) : World :=
  let run := nextRun W in
  let linear := Dialog.getEasing d "linear" in
  started run Dialog.childIn used linear children
    (animateTo run (Panel w) Dialog.panelOpacityIn used linear
       (animateTo run (Panel w) Dialog.panelTransformIn used
          (Dialog.getEasing d "emphasized-decelerate")
          (animateTo run (Overlay w) Dialog.overlayIn used linear
             (set_nextRun (S run)
                (requestAnimationFrame (FocusInitial w) W))))).

Definition exitRun (w : nat) (d : Dialog.t) (children : list Node)
    (W : World) : World :=
  let run := nextRun W in
  let used := Dialog.getDuration d "short4" in
  let linear := Dialog.getEasing d "linear" in
  started run Dialog.childOut used linear children
    (animateTo run (Panel w) Dialog.panelOpacityOut used linear
       (animateTo run (Panel w) Dialog.panelTransformOut used
          (Dialog.getEasing d "emphasized-accelerate")
          (animateTo run (Overlay w) Dialog.overlayOut used linear
             (set_nextRun (S run) W)))).

(** The timeouts [finishClose] sets to give the focus back. *)
Definition focusTimers (trigger : option Node) : list Callback :=
  match trigger with
  | Some n => if hasFocusFunction trigger then [FocusNode n] else []
  | None => []
  end.

(** The document after [finishClose]. *)
Definition closedWorld (w : nat) (d : Dialog.t) (W : World) : World :=
  let W1 := unlockScreen w (record (StyleDisplay w "none") W) in
  let cbs := focusTimers (Dialog.originalTrigger d) in
  record (Dispatched w (completed "closed"))
    (recordAll (map TimeoutSet cbs) (set_timers (timers W1 ++ cbs) W1)).

(** The node the frame callback of the open branch focuses. *)
Definition initialFocus (w : nat) (d : Dialog.t) : Node :=
  match Dialog.autofocus d with
  | Some autoFocusTarget => autoFocusTarget
  | None => Panel w
  end.

(** Whether a step starts an Animation Run: it resumes a handler that
    waits on [stopAnimation]. *)
Definition startsRun (st : Loop.Step) (s : Loop.Sys) : bool :=
  match st with
  | Loop.Resume i =>
      match Loop.pending s !! i with
      | Some (Dialog.AwaitStopOpen _ _ _) => true
      | Some (Dialog.AwaitStopClose _ _) => true
      | _ => false
      end
  | _ => false
  end.

End ClosedDialog.

(** ** A flag cleared while the entry run is in flight *)

Module Toggle.
Import Dom Closed ClosedDialog Loop.

(** The steps in which nothing comes from outside: no write of the flag,
    no first update, no removal. *)
Definition internal (st : Step) : bool :=
  match st with
  | Resume _ | FinishRun _ | Frame | RunTimer => true
  | FirstUpdate _ | SetOpen _ _ | Disconnect _ => false
  end.

(** Where the close handler is: before its intent, between its intent and
    the start of the exit run, waiting for the exit run (with the status of
    the run's effects), at its end. *)
Inductive ClosePhase :=
| CloseDefined
| CloseStop
| CloseRun (exit : Status)
| CloseDone.

(** Whether the superseded open handler has dispatched [opened], and
    where among the events of the close handler. *)
Inductive OpenedAt := NotYet | BeforeClose | BeforeClosed | AfterClosed.

Record Phase := {
  entry : Status;
  opened : OpenedAt;
  closing : ClosePhase;
}.

(** The effects of one run, all with the same status. *)
Definition runOf (run : nat) (st : Status)
    (plan : list (Node * list Keyframe * string)) (d : Z) : list Effect :=
  map (fun '(n, kfs, ease) =>
         {| target := n; keyframes := kfs; duration := d; easing := ease;
            owner := run; status := st |}) plan.

Definition entryPlan (d : Dialog.t) : list (Node * list Keyframe * string) :=
  (Overlay 0, Dialog.overlayIn, Dialog.getEasing d "linear")
  :: (Panel 0, Dialog.panelTransformIn,
      Dialog.getEasing d "emphasized-decelerate")
  :: (Panel 0, Dialog.panelOpacityIn, Dialog.getEasing d "linear")
  :: map (fun n => (n, Dialog.childIn, Dialog.getEasing d "linear"))
       (Dialog.children d).

Definition exitPlan (d : Dialog.t) : list (Node * list Keyframe * string) :=
  (Overlay 0, Dialog.overlayOut, Dialog.getEasing d "linear")
  :: (Panel 0, Dialog.panelTransformOut,
      Dialog.getEasing d "emphasized-accelerate")
  :: (Panel 0, Dialog.panelOpacityOut, Dialog.getEasing d "linear")
  :: map (fun n => (n, Dialog.childOut, Dialog.getEasing d "linear"))
       (Dialog.children d).

Definition closeDone (p : Phase) : bool :=
  match closing p with CloseDone => true | _ => false end.

Definition exitStarted (p : Phase) : bool :=
  match closing p with CloseRun _ | CloseDone => true | _ => false end.

(** The observable state in each phase. *)
Definition instance (d : Dialog.t) (p : Phase) : Dialog.t :=
  if closeDone p then Dialog.set_display "none" d else d.

Definition suspended (d : Dialog.t) (p : Phase) : list Dialog.Cont :=
  match opened p with
  | NotYet => [Dialog.AwaitOpenRun 0 true 0]
  | _ => []
  end
  ++ match closing p with
     | CloseDefined => [Dialog.AwaitDefined 0 true]
     | CloseStop => [Dialog.AwaitStopClose 0 (Dialog.children d)]
     | CloseRun _ => [Dialog.AwaitCloseRun 0 1]
     | CloseDone => []
     end.

Definition effectsOf (d : Dialog.t) (p : Phase) : list Effect :=
  runOf 0 (entry p) (entryPlan d) (Dialog.getDuration d "medium4")
  ++ match closing p with
     | CloseRun st => runOf 1 st (exitPlan d) (Dialog.getDuration d "short4")
     | CloseDone =>
         runOf 1 Finished (exitPlan d) (Dialog.getDuration d "short4")
     | _ => []
     end.

Definition closeEvents (cp : ClosePhase) : list Event.CustomEvent :=
  match cp with
  | CloseDefined => []
  | CloseStop | CloseRun _ => [intent "close" false]
  | CloseDone => [intent "close" false; completed "closed"]
  end.

Definition events (p : Phase) : list Event.CustomEvent :=
  intent "open" false
  :: match opened p with
     | NotYet => closeEvents (closing p)
     | BeforeClose => completed "opened" :: closeEvents (closing p)
     | BeforeClosed =>
         intent "close" false :: completed "opened"
         :: tl (closeEvents (closing p))
     | AfterClosed =>
         [intent "close" false; completed "closed"; completed "opened"]
     end.

(** What the phases exclude: an entry run still running once the close
    handler has passed its intent or once [opened] is out; [opened] before
    [close] after a cancellation; [opened] after an event not yet
    dispatched; a canceled exit run. *)
Definition coherent (p : Phase) : bool :=
  match entry p with
  | Running =>
      match opened p, closing p with
      | NotYet, CloseDefined => true
      | _, _ => false
      end
  | Canceled =>
      match opened p, closing p with
      | _, CloseDefined => false
      | BeforeClose, _ => false
      | _, _ => true
      end
  | Finished => true
  end
  && match opened p, closing p with
     | BeforeClosed, CloseDefined => false
     | AfterClosed, CloseDone => true
     | AfterClosed, _ => false
     | _, _ => true
     end
  && match closing p with
     | CloseRun Canceled => false
     | _ => true
     end.

(** The page is in phase [p]: one dialog [d], opened from a page whose
    scroll-lock counter was [c], its flag cleared since. *)
Definition inPhase (c : Z) (d : Dialog.t) (p : Phase) (s : Sys) : Prop :=
  coherent p = true
  /\ dialogs s = [instance d p]
  /\ pending s = suspended d p
  /\ effects (world s) = effectsOf d p
  /\ nextRun (world s) = (if exitStarted p then 2%nat else 1%nat)
  /\ lockCount (world s) = (if closeDone p then c else c + 1)
  /\ dispatchedOn 0 (log (world s)) = events p.

(** The phase after a step of each kind. *)
Definition openedNow (cp : ClosePhase) : OpenedAt :=
  match cp with
  | CloseDefined => BeforeClose
  | CloseStop | CloseRun _ => BeforeClosed
  | CloseDone => AfterClosed
  end.

Definition closeIndex (o : OpenedAt) : nat :=
  match o with NotYet => 1%nat | _ => 0%nat end.

Definition halted (st : Status) : Status :=
  match st with Running => Canceled | _ => st end.

Definition finishedBy (run r : nat) (st : Status) : Status :=
  match st with
  | Running => if Nat.eqb run r then Finished else Running
  | _ => st
  end.

Definition afterFinishRun (r : nat) (p : Phase) : Phase :=
  {| entry := finishedBy 0 r (entry p);
     opened := opened p;
     closing := match closing p with
                | CloseRun st => CloseRun (finishedBy 1 r st)
                | cp => cp
                end |}.

(** The page when the flag is cleared. *)
Definition inFlight : Phase :=
  {| entry := Running; opened := NotYet; closing := CloseDefined |}.

End Toggle.

(** ** BottomAppBar: a scroll session and the end of the transition *)

Module Scrolling.

(** The signals of a scroll session, fed to [runScrollThreshold] one after
    the other; the events of the whole session, oldest first. *)
Fixpoint scrollAll (signals : list bool) (bar : BottomAppBar.t)
  : BottomAppBar.t * list Event.CustomEvent :=
  match signals with
  | [] => (bar, [])
  | isScrollingUp :: rest =>
      let '(bar1, out1) := BottomAppBar.runScrollThreshold isScrollingUp bar in
      let '(bar2, out2) := scrollAll rest bar1 in
      (bar2, out1 ++ out2)
  end.

(** The [transitionend] listener installed by [firstUpdated];
    [targetIsThis] is [event.target === this]. *)
Definition onTransitionEnd (targetIsThis : bool) (bar : BottomAppBar.t)
  : list Event.CustomEvent :=
  if targetIsThis then
    [Event.emit (BottomAppBar.listeners bar)
       (if BottomAppBar.hide bar then "hidden" else "shown") Event.noInit]
  else [].

(** No two neighbours of a list are equal. *)
Fixpoint alternates (l : list string) : bool :=
  match l with
  | a :: (b :: _) as rest => negb (String.eqb a b) && alternates rest
  | _ => true
  end.

End Scrolling.

(** ** Select: chips, clearing, labels *)

Module SelectMore.
Import Select.

(** A byte [10xxxxxx]: it continues the UTF-8 sequence of a code point. *)
Definition isContinuation (c : Ascii.ascii) : bool :=
  match c with
  | Ascii.Ascii _ _ _ _ _ _ b6 b7 => b7 && negb b6
  end.

(** The iteration of a string: one string per code point.  A string of the
    model is the UTF-8 encoding of the JavaScript string, so a code point is
    a leading byte with the continuation bytes that follow it (a code point
    outside the basic plane, two code units in JavaScript, is one element
    there too). *)
Fixpoint codePoints (s : string) : list string :=
  match s with
  | EmptyString => []
  | String c rest =>
      match rest with
      | String c' _ =>
          if isContinuation c' then
            match codePoints rest with
            | cp :: others => String c cp :: others
            | [] => [String c EmptyString]
            end
          else String c EmptyString :: codePoints rest
      | EmptyString => [String c EmptyString]
      end
  end.

(** [[...this.value]]: the elements of an array, the code points of a
    string. *)
Definition spread (v : Value) : list string :=
  match v with
  | VArray l => l
  | VString s => codePoints s
  end.

Definition includes (l : list string) (x : string) : bool :=
  existsb (String.eqb x) l.

(** [Array.prototype.indexOf]: the first index, [-1] when absent. *)
Fixpoint indexOf (l : list string) (x : string) : Z :=
  match l with
  | [] => -1
  | y :: l' =>
      if String.eqb y x then 0
      else
        let i := indexOf l' x in
        if i <? 0 then -1 else i + 1
  end.

(** [Array.prototype.splice(start, 1)]: a negative [start] counts from the
    end, and a [start] past the end removes nothing. *)
Definition splice1 (start : Z) (l : list string) : list string :=
  let len := Z.of_nat (length l) in
  let from := if start <? 0 then Z.max (len + start) 0 else Z.min start len in
  delete (Z.to_nat from) l.

(** [onDeleteOneValue]: the delete button of one chip. *)
Definition onDeleteOneValue (valueItem : string) (s : t) : t :=
  let value0 := spread (value s) in
  let value1 :=
    if includes value0 valueItem
    then splice1 (indexOf value0 valueItem) value0
    else value0 in
  {| multiple := multiple s; value := VArray value1;
     defaultValue := defaultValue s |}.

(** [onClear]: the clear button. *)
Definition onClear (s : t) : t :=
  {| multiple := multiple s;
     value := if multiple s then VArray [] else VString EmptyString;
     defaultValue := defaultValue s |}.

(** [hasSelection] of [render]:
    [this.multiple ? !!this.value.length : !!this.value]. *)
Definition hasSelection (s : t) : bool :=
  if multiple s then
    match value s with
    | VString str => negb (Nat.eqb (String.length str) 0)
    | VArray l => negb (Nat.eqb (length l) 0)
    end
  else truthy (value s).

(** A slotted [<mdui-menu-item>]: its [value] property and its
    [textContent]. *)
Record MenuItem := {
  itemValue : option string;
  textContent : option string;
}.

(** [item.value === valueItem] *)
Definition hasValue (valueItem : string) (item : MenuItem) : bool :=
  match itemValue item with
  | Some v => String.eqb v valueItem
  | None => false
  end.

(** [getMenuItemLabelByValue]:
    [find(...)?.textContent || valueItem], the value itself when there is
    no item at all. *)
Definition getMenuItemLabelByValue (menuItems : list MenuItem)
    (valueItem : string) : string :=
  if Nat.eqb (length menuItems) 0 then valueItem
  else
    match find (hasValue valueItem) menuItems with
    | Some item =>
        match textContent item with
        | Some text => if String.eqb text EmptyString then valueItem else text
        | None => valueItem
        end
    | None => valueItem
    end.

End SelectMore.

(** ** Checkbox *)

Module Checkbox.

Record t := {
  disabled : bool;
  checked : bool;
  defaultChecked : bool;
  indeterminate : bool;
  required : bool;
  invalid : bool;
  listeners : string -> bool;
}.

Definition set_invalid (v : bool) (c : t) : t :=
  {| disabled := disabled c; checked := checked c;
     defaultChecked := defaultChecked c; indeterminate := indeterminate c;
     required := required c; invalid := v; listeners := listeners c |}.

(** [formResets.get(form)?.has(this)] for the form [getForm()] found.
    [formResets], imported from [@mdui/shared/controllers/form.js], is used
    as a map from forms to sets of controls: the controls whose next change
    comes from a reset of their form.  Forms and controls are named by
    numbers. *)
Definition resetPending (this : nat) (form : option nat)
    (resets : gmap nat (gset nat)) : bool :=
  match form with
  | Some f =>
      match resets !! f with
      | Some marked => bool_decide (this ∈ marked)
      | None => false
      end
  | None => false
  end.

(** [onCheckedChange] after [await this.updateComplete].  [inputValid] is
    what the native input's [checkValidity()] answers. *)
Definition onCheckedChange (this : nat) (form : option nat) (inputValid : bool)
    (c : t) (resets : gmap nat (gset nat)) : t * gmap nat (gset nat) :=
  if resetPending this form resets then
    match form with
    | Some f =>
        (set_invalid false c,
         match resets !! f with
         | Some marked => <[f := marked ∖ {[this]}]> resets
         | None => resets
         end)
    | None => (set_invalid false c, resets)
    end
  else (set_invalid (negb inputValid) c, resets).

(** Calls on the host element. *)
Inductive Call := Blur | Focus.

(** [checkValidity]: [inputValid] is the answer of the native input. *)
Definition checkValidity (inputValid : bool) (c : t)
  : bool * t * list Event.CustomEvent :=
  let valid := inputValid in
  if negb valid
  then (valid, c, [Event.emit (listeners c) "invalid" Event.cancelableInit])
  else (valid, c, []).

(** [reportValidity]: [inputValid] is the answer of the native input's
    [reportValidity]. *)
Definition reportValidity (inputValid : bool) (c : t)
  : bool * t * list Event.CustomEvent * list Call :=
  let c1 := set_invalid (negb inputValid) c in
  if invalid c1 then
    let requestInvalid :=
      Event.emit (listeners c1) "invalid" Event.cancelableInit in
    if Event.defaultPrevented requestInvalid
    then (negb (invalid c1), c1, [requestInvalid], [Blur; Focus])
    else (negb (invalid c1), c1, [requestInvalid], [])
  else (negb (invalid c1), c1, [], []).

(** [onChange]: the native input changed. *)
Definition onChange (inputChecked : bool) (c : t)
  : t * list Event.CustomEvent :=
  ({| disabled := disabled c; checked := inputChecked;
      defaultChecked := defaultChecked c; indeterminate := false;
      required := required c; invalid := invalid c;
      listeners := listeners c |},
   [Event.emit (listeners c) "change" Event.noInit]).

End Checkbox.

(** ** Dialog: what is rendered and what is animated *)

Module DialogView.

(** The properties and slots [render] looks at; [slotted name] is
    [hasSlotController.test(name)]. *)
Record Props := {
  icon : option string;
  headline : option string;
  description : option string;
  slotted : string -> bool;
}.

(** An element of the shadow tree: tag, class list, children. *)
#[warnings="-register-all"]
Inductive Element :=
| El (tag : string) (classes : list string) (kids : list Element).

Definition classesOf (e : Element) : list string :=
  match e with El _ cs _ => cs end.

(** [!!this.icon] *)
Definition given (o : option string) : bool :=
  match o with
  | Some s => negb (String.eqb s EmptyString)
  | None => false
  end.

(** [when(condition, () => template)] *)
Definition when (b : bool) (e : Element) : list Element :=
  if b then [e] else [].

(** [classMap]: the names whose value is true. *)
Definition classMap (l : list (string * bool)) : list string :=
  map fst (List.filter snd l).

Definition renderIcon (p : Props) : Element :=
  El "slot" ["icon"] (when (given (icon p)) (El "mdui-icon" [] [])).

Definition renderHeadline : Element := El "slot" ["headline"] [].

Definition renderDescription : Element := El "slot" ["description"] [].

Definition hasIcon (p : Props) : bool := given (icon p) || slotted p "icon".
Definition hasHeadline (p : Props) : bool :=
  given (headline p) || slotted p "headline".
Definition hasDescription (p : Props) : bool :=
  given (description p) || slotted p "description".
Definition hasHeader (p : Props) : bool :=
  hasIcon p || hasHeadline p || slotted p "header".
Definition hasBody (p : Props) : bool :=
  hasDescription p || slotted p "[default]".

Definition header (p : Props) : Element :=
  El "slot" ["header"]
    (when (hasIcon p) (renderIcon p) ++ when (hasHeadline p) renderHeadline).

Definition body (p : Props) : Element :=
  El "div" ["body"]
    (when (hasDescription p) renderDescription ++ [El "slot" [] []]).

Definition action : Element := El "slot" ["action"] [].

(** The panel of [render]. *)
Definition panel (p : Props) : Element :=
  El "div"
    ("panel" :: classMap [("has-icon", hasIcon p);
                          ("has-description", hasDescription p);
                          ("has-default", slotted p "[default]")])
    (when (hasHeader p) (header p)
     ++ when (hasBody p) (body p)
     ++ when (slotted p "action") action).

(** [render]: the overlay and the panel. *)
Definition render (p : Props) : list Element :=
  [El "div" ["overlay"] []; panel p].

(** The descendants of an element, in document order. *)
Fixpoint descendants (e : Element) : list Element :=
  match e with
  | El _ _ kids => flat_map (fun k => k :: descendants k) kids
  end.

(** [querySelectorAll] for a list of class selectors. *)
Definition querySelectorAll (e : Element) (classNames : list string)
  : list Element :=
  List.filter
    (fun x => existsb (fun c => existsb (String.eqb c) (classesOf x)) classNames)
    (descendants e).

(** [children] of [onOpenChange]:
    [panel.querySelectorAll('.header, .body, .actions')]. *)
Definition children (p : Props) : list Element :=
  querySelectorAll (panel p) ["header"; "body"; "actions"].

End DialogView.

(** ** Dialog: the Escape key and the click on the overlay *)

Module DialogInput.
Import Dom Loop.

(** The two properties of the dialog the listeners read. *)
Record Options := {
  closeOnEsc : bool;
  closeOnOverlayClick : bool;
}.

(** The [keydown] listener installed by [firstUpdated]; the write of
    [open] is followed by the update it causes.  The boolean says whether
    [stopPropagation] was called. *)
Definition onKeydown (o : Options) (w : nat) (key : string) (s : Sys)
  : option (bool * Sys) :=
  match dialogs s !! w with
  | None => None
  | Some d =>
      if Dialog.open d && closeOnEsc o && String.eqb key "Escape" then
        match exec (SetOpen w false) s with
        | Some s' => Some (true, s')
        | None => None
        end
      else Some (false, s)
  end.

(** [onOverlayClick] *)
Definition onOverlayClick (o : Options) (w : nat) (s : Sys) : option Sys :=
  match runOn w (Dialog.emit w "overlay-click" Event.noInit) s with
  | None => None
  | Some (_, s1) =>
      if negb (closeOnOverlayClick o) then Some s1
      else exec (SetOpen w false) s1
  end.

End DialogInput.

(** ** More schedules, and the events a dialog may dispatch *)

Module ScenarioMore.
Import Dom Loop Scenario.

(** An open dialog is closed and, while the exit run is in flight, opened
    again.  The new handler cancels the exit run at [Resume 1]; after that
    both handlers can be resumed, in either order. *)
Definition reopenWhileClosing (closeFirst : bool) : list Step :=
  toOpening 0 ++ toOpen 0 ++ toClosing 0
  ++ [SetOpen 0 true; Resume 1]
  ++ (if closeFirst then [Resume 0; Resume 0] else [Resume 1; Resume 0])
  ++ [FinishRun 2; Resume 0].

(** The four events of [onOpenChange]: the intents cancelable, the
    completed ones not cancelable and never prevented. *)
Definition lifecycleEvent (e : Event.CustomEvent) : bool :=
  (Event.cancelable e
   && (String.eqb (Event.type e) "open" || String.eqb (Event.type e) "close"))
  || (negb (Event.cancelable e) && negb (Event.defaultPrevented e)
      && (String.eqb (Event.type e) "opened"
          || String.eqb (Event.type e) "closed")).

Definition lifecycleAction (a : Action) : bool :=
  match a with
  | Dispatched _ e => lifecycleEvent e
  | _ => true
  end.

(** The log of [W'] is the log of [W] followed by entries that dispatch
    nothing but lifecycle events. *)
Definition extends (W W' : World) : Prop :=
  exists l, log W' = log W ++ l /\ forallb lifecycleAction l = true.

(** An event of type [name] that no listener has prevented. *)
Definition passed (name : string) (e : Event.CustomEvent) : bool :=
  String.eqb (Event.type e) name && negb (Event.defaultPrevented e).

(** How many such events have been dispatched on instance [w]. *)
Definition occurrences (name : string) (w : nat) (W : World) : nat :=
  length (List.filter (passed name) (dispatchedOn w (log W))).

(** A suspended invocation on instance [w] that has dispatched [open] and
    not yet [opened]. *)
Definition opensInFlight (w : nat) (k : Dialog.Cont) : bool :=
  match k with
  | Dialog.AwaitStopOpen w' true _ => Nat.eqb w' w
  | Dialog.AwaitOpenRun w' true _ => Nat.eqb w' w
  | _ => false
  end.

(** A suspended invocation on instance [w] that has dispatched [close] and
    not yet [closed]. *)
Definition closesInFlight (w : nat) (k : Dialog.Cont) : bool :=
  match k with
  | Dialog.AwaitStopClose w' _ => Nat.eqb w' w
  | Dialog.AwaitCloseRun w' _ => Nat.eqb w' w
  | _ => false
  end.

Definition inFlight (p : Dialog.Cont -> bool) (s : Sys) : nat :=
  length (List.filter p (pending s)).

(** Every unprevented intent on [w] is matched by its completed event or
    by a handler still in flight. *)
Definition balanced (w : nat) (s : Sys) : Prop :=
  occurrences "open" w (world s)
  = (occurrences "opened" w (world s) + inFlight (opensInFlight w) s)%nat
  /\ occurrences "close" w (world s)
     = (occurrences "closed" w (world s) + inFlight (closesInFlight w) s)%nat.

End ScenarioMore.

(** * Facts about the model *)

Import Dom Closed ClosedDialog Loop Scenario.

(** ** Nodes and effects *)

Lemma node_eqb_eq a b : node_eqb a b = true <-> a = b.
Proof.
  split.
  - destruct a, b; simpl; try discriminate; intros H;
      repeat match goal with
        | H : _ && _ = true |- _ => apply andb_true_iff in H; destruct H
        | H : Nat.eqb _ _ = true |- _ => apply Nat.eqb_eq in H
        | H : Bool.eqb _ _ = true |- _ => apply Bool.eqb_prop in H
        end; congruence.
  - intros <-. destruct a; simpl;
      rewrite ?Nat.eqb_refl, ?Bool.eqb_reflx; reflexivity.
Qed.

Lemma node_eqb_refl a : node_eqb a a = true.
Proof. apply node_eqb_eq. reflexivity. Qed.

Lemma existsb_node_In n ns : In n ns -> existsb (node_eqb n) ns = true.
Proof.
  intros H. apply existsb_exists. exists n. split; [exact H | apply node_eqb_refl].
Qed.

Lemma haltOn_cons c cs e : haltOn cs (cancelOn c e) = haltOn (c :: cs) e.
Proof.
  unfold haltOn, cancelOn. simpl.
  destruct (node_eqb (target e) c); simpl.
  - destruct (isRunning e) eqn:R; simpl.
    + unfold isRunning. simpl. rewrite andb_false_r. reflexivity.
    + rewrite R, !andb_false_r. reflexivity.
  - destruct (existsb (node_eqb (target e)) cs && isRunning e); reflexivity.
Qed.

(** ** The walks over [children] *)

Lemma forEach_stop cs d W :
  Dialog.forEach cs (fun child => Dialog.onDocument (stopAnimations child)) (d, W)
  = (tt, (d, fold_left (fun W' c => stopAnimations c W') cs W)).
Proof.
  revert W. induction cs as [|c cs IH]; intros W; simpl; [reflexivity|].
  unfold Dialog.bind at 1. simpl. apply IH.
Qed.

Lemma fold_stop cs W :
  fold_left (fun W' c => stopAnimations c W') cs W = stopped cs W.
Proof.
  revert W. induction cs as [|c cs IH]; intros W; simpl.
  - destruct W. unfold stopped, recordAll, set_effects. simpl.
    rewrite app_nil_r. f_equal. rewrite <- (map_id effects0) at 1.
    apply map_ext. intros e. reflexivity.
  - rewrite IH. unfold stopped, recordAll, set_effects, stopAnimations, record.
    simpl. rewrite map_map, <- app_assoc. simpl. f_equal.
    apply map_ext. intros e. apply haltOn_cons.
Qed.

Lemma stopAnimation_closed w cs d W :
  Dialog.stopAnimation w cs (d, W) = (tt, (d, stopped (animated w cs) W)).
Proof.
  unfold Dialog.stopAnimation, Dialog.bind, Dialog.onDocument. simpl.
  rewrite forEach_stop. rewrite <- (fold_stop (animated w cs)). reflexivity.
Qed.

Lemma forEach_animate run kfs dur ease cs d W :
  Dialog.forEach cs
    (fun child => Dialog.onDocument (animateTo run child kfs dur ease)) (d, W)
  = (tt, (d, started run kfs dur ease cs W)).
Proof.
  revert W. induction cs as [|c cs IH]; intros W; simpl.
  - destruct W. unfold started, recordAll, set_effects, Dialog.ret. simpl.
    rewrite !app_nil_r. reflexivity.
  - unfold Dialog.bind at 1. simpl. rewrite IH.
    unfold started, recordAll, set_effects, animateTo, record. simpl.
    rewrite <- !app_assoc. reflexivity.
Qed.

(** ** The stretches of [onOpenChange] in closed form *)

Lemma adoptTopAppBar_closed w d W :
  Dialog.adoptTopAppBar w (d, W)
  = (tt, (adopted w d, recordAll (adoptedLog w d) W)).
Proof.
  unfold Dialog.adoptTopAppBar, adopted, adoptedLog, Dialog.bind, Dialog.this.
  simpl. destruct (Dialog.topAppBarElements d) as [|[n|] others] eqn:E;
    unfold Dialog.onDocument, Dialog.onThis, Dialog.ret, recordAll, record; simpl.
  - destruct W. simpl. rewrite app_nil_r. reflexivity.
  - reflexivity.
  - rewrite <- app_assoc. reflexivity.
Qed.

Lemma protocol_vetoed w d W :
  Dialog.open d = true -> Dialog.listeners d "open" = true ->
  Dialog.protocol w true (d, W)
  = (None, (d, record (Dispatched w (intent "open" true)) W)).
Proof.
  intros Ho Hl. unfold Dialog.protocol, Dialog.bind, Dialog.this, Dialog.emit.
  simpl. rewrite Ho. unfold Dialog.bind, Dialog.this. simpl.
  unfold Event.emit. simpl. rewrite Hl. reflexivity.
Qed.

Lemma protocol_open_first w d W :
  Dialog.open d = true ->
  Dialog.protocol w false (d, W)
  = (Some (Dialog.AwaitStopOpen w false (Dialog.children d)),
     (openedDialog w d W, openedWorld w d W)).
Proof.
  intros Ho. unfold Dialog.protocol, Dialog.bind, Dialog.this.
  simpl. rewrite Ho. simpl. rewrite adoptTopAppBar_closed.
  unfold Dialog.document, Dialog.onThis, Dialog.onDocument. simpl.
  rewrite stopAnimation_closed. reflexivity.
Qed.

Lemma protocol_open_passed w d W :
  Dialog.open d = true -> Dialog.listeners d "open" = false ->
  Dialog.protocol w true (d, W)
  = (Some (Dialog.AwaitStopOpen w true (Dialog.children d)),
     (openedDialog w d W,
      openedWorld w d (record (Dispatched w (intent "open" false)) W))).
Proof.
  intros Ho Hl. unfold Dialog.protocol, Dialog.bind, Dialog.this, Dialog.emit.
  simpl. rewrite Ho. unfold Dialog.bind, Dialog.this. simpl.
  unfold Event.emit. simpl. rewrite Hl. simpl.
  rewrite adoptTopAppBar_closed.
  unfold Dialog.document, Dialog.onThis, Dialog.onDocument. simpl.
  rewrite stopAnimation_closed. reflexivity.
Qed.

Lemma protocol_close_vetoed w hu d W :
  Dialog.open d = false -> Dialog.listeners d "close" = true ->
  Dialog.protocol w hu (d, W)
  = (None, (d, record (Dispatched w (intent "close" true)) W)).
Proof.
  intros Ho Hl. unfold Dialog.protocol, Dialog.bind, Dialog.this, Dialog.emit.
  simpl. rewrite Ho. unfold Dialog.bind, Dialog.this. simpl.
  unfold Event.emit. simpl. rewrite Hl. reflexivity.
Qed.

Lemma protocol_close_passed w hu d W :
  Dialog.open d = false -> Dialog.listeners d "close" = false ->
  Dialog.protocol w hu (d, W)
  = (Some (Dialog.AwaitStopClose w (Dialog.children d)),
     (d, closingWorld w d W)).
Proof.
  intros Ho Hl. unfold Dialog.protocol, Dialog.bind, Dialog.this, Dialog.emit.
  simpl. rewrite Ho. unfold Dialog.bind, Dialog.this. simpl.
  unfold Event.emit. simpl. rewrite Hl. simpl.
  unfold Dialog.onDocument. simpl.
  rewrite stopAnimation_closed. reflexivity.
Qed.

Lemma startOpenRun_closed w hu cs d W :
  Dialog.startOpenRun w hu cs (d, W)
  = (Some (Dialog.AwaitOpenRun w hu (nextRun W)),
     (d, entryRun w (if hu then Dialog.getDuration d "medium4" else 0) d cs W)).
Proof.
  unfold Dialog.startOpenRun, Dialog.bind, Dialog.this, Dialog.newRun,
    Dialog.document, Dialog.bind. simpl.
  rewrite forEach_animate. reflexivity.
Qed.

Lemma startCloseRun_closed w cs d W :
  Dialog.startCloseRun w cs (d, W)
  = (Some (Dialog.AwaitCloseRun w (nextRun W)), (d, exitRun w d cs W)).
Proof.
  unfold Dialog.startCloseRun, Dialog.bind, Dialog.this, Dialog.newRun,
    Dialog.document, Dialog.bind. simpl.
  rewrite forEach_animate. reflexivity.
Qed.

Lemma finishOpen_closed w hu d W :
  Dialog.finishOpen w hu (d, W)
  = (None, (d, if hu then record (Dispatched w (completed "opened")) W else W)).
Proof. destruct hu; reflexivity. Qed.

Lemma finishClose_closed w d W :
  Dialog.finishClose w (d, W)
  = (None, (Dialog.set_display "none" d, closedWorld w d W)).
Proof.
  unfold Dialog.finishClose, closedWorld, focusTimers, Dialog.bind, Dialog.this,
    Dialog.onThis, Dialog.onDocument, Dialog.emit. simpl.
  destruct W as [lc ae ef nr fr tm lg].
  destruct (Dialog.originalTrigger d) as [n|]; simpl;
    [destruct n as [| | | | |i []]|];
    unfold record, recordAll, setTimeout, set_timers, unlockScreen,
      set_lockCount, Dialog.ret; simpl;
    rewrite <- ?app_assoc, ?app_nil_r; reflexivity.
Qed.

(** ** Runs, effects and logs *)

Lemma settled_finishRun run W : settled run (finishRun run W) = true.
Proof.
  unfold settled, finishRun. simpl. apply forallb_forall.
  intros e He. apply in_map_iff in He. destruct He as [e0 [<- _]].
  unfold finishOf. destruct (Nat.eqb (owner e0) run) eqn:Eo; simpl.
  - destruct (isRunning e0) eqn:R; simpl.
    + rewrite andb_false_r. reflexivity.
    + rewrite R, andb_false_r. reflexivity.
  - rewrite Eo. reflexivity.
Qed.

Lemma forallb_map_true {A B} (p : B -> bool) (f : A -> B) l :
  (forall x, p (f x) = true) -> forallb p (map f l) = true.
Proof.
  intros H. apply forallb_forall. intros y Hy.
  apply in_map_iff in Hy. destruct Hy as [x [<- _]]. apply H.
Qed.

Lemma dispatchedOn_app w l1 l2 :
  dispatchedOn w (l1 ++ l2) = dispatchedOn w l1 ++ dispatchedOn w l2.
Proof. unfold dispatchedOn. apply flat_map_app. Qed.

Lemma dispatchedOn_stopped w ns : dispatchedOn w (map AnimationsStopped ns) = [].
Proof. induction ns; simpl; auto. Qed.

Lemma dispatchedOn_started w run d ns :
  dispatchedOn w (map (fun n => AnimationStarted n run d) ns) = [].
Proof. induction ns; simpl; auto. Qed.

(** ** Steps of the event loop *)

Lemma run_step st rest s s1 :
  exec st s = Some s1 -> run (st :: rest) s = run rest s1.
Proof. intros H. simpl. rewrite H. reflexivity. Qed.

Lemma invoke_closed w m s d k d' W' :
  dialogs s !! w = Some d ->
  m (d, world s) = (k, (d', W')) ->
  invoke w m s
  = Some {| dialogs := <[w := d']> (dialogs s); world := W';
            pending := pending s ++ option_list k |}.
Proof.
  intros Hd Hm. unfold invoke, runOn. rewrite Hd, Hm. reflexivity.
Qed.

Lemma exec_setOpen w v d s :
  dialogs s !! w = Some d ->
  Dialog.open d = negb v -> Dialog.hasUpdated d = true ->
  exec (SetOpen w v) s
  = Some {| dialogs := <[w := Dialog.set_open v d]> (dialogs s);
            world := world s;
            pending := pending s ++ [Dialog.AwaitDefined w true] |}.
Proof.
  intros Hd Ho Hu. unfold exec. rewrite Hd, Ho, Hu.
  replace (eqb (negb v) v) with false by (destruct v; reflexivity).
  rewrite (invoke_closed w _ _ (Dialog.set_open v d)
             (Some (Dialog.AwaitDefined w true)) (Dialog.set_open v d) (world s)).
  - simpl. rewrite list_insert_insert_eq. reflexivity.
  - simpl. apply list_lookup_insert_eq. eapply lookup_lt_Some; eassumption.
  - simpl. unfold Dialog.onOpenChange, Dialog.bind, Dialog.this. simpl.
    rewrite Hu. rewrite andb_false_r. reflexivity.
Qed.

Lemma exec_resume i k d r d' W' s :
  pending s !! i = Some k ->
  dialogs s !! Dialog.instanceOf k = Some d ->
  Dialog.ready k d (world s) = true ->
  Dialog.resume k (d, world s) = (r, (d', W')) ->
  exec (Resume i) s
  = Some {| dialogs := <[Dialog.instanceOf k := d']> (dialogs s); world := W';
            pending := delete i (pending s) ++ option_list r |}.
Proof.
  intros Hp Hd Hr Hm. unfold exec. rewrite Hp, Hd, Hr.
  erewrite invoke_closed; [reflexivity | exact Hd | exact Hm].
Qed.

Lemma exec_finishRun run s :
  exec (FinishRun run) s
  = Some {| dialogs := dialogs s; world := finishRun run (world s);
            pending := pending s |}.
Proof. reflexivity. Qed.

Lemma exec_frame_initial w d s :
  frames (world s) = [FocusInitial w] ->
  dialogs s !! w = Some d ->
  exec Frame s
  = Some {| dialogs := dialogs s;
            world := focus (initialFocus w d) (set_frames [] (world s));
            pending := pending s |}.
Proof.
  intros Hf Hd. unfold exec. rewrite Hf.
  unfold callbacks, callback, runOn. cbn [dialogs world pending].
  rewrite Hd. unfold Dialog.focusInitial, Dialog.bind, Dialog.this, initialFocus.
  cbn [fst snd].
  destruct (Dialog.autofocus d); unfold Dialog.onDocument; cbn [fst snd];
    rewrite (list_insert_id _ _ _ Hd); reflexivity.
Qed.

Lemma exec_timeout_focus n rest s :
  timers (world s) = FocusNode n :: rest ->
  exec RunTimer s
  = Some {| dialogs := dialogs s; world := focus n (set_timers rest (world s));
            pending := pending s |}.
Proof. intros Ht. unfold exec. rewrite Ht. reflexivity. Qed.


Lemma focusTimers_focusable n :
  hasFocusFunction (Some n) = true -> focusTimers (Some n) = [FocusNode n].
Proof. intros H. unfold focusTimers. rewrite H. reflexivity. Qed.

Lemma dispatchedOn_timeouts w cbs : dispatchedOn w (map TimeoutSet cbs) = [].
Proof. induction cbs; simpl; auto. Qed.

Lemma entryRun_unsettled w used d cs W run :
  nextRun W = run -> settled run (entryRun w used d cs W) = false.
Proof.
  intros <-. unfold settled, entryRun, started. simpl. rewrite <- !app_assoc.
  rewrite forallb_app. simpl. rewrite Nat.eqb_refl. simpl.
  apply andb_false_r.
Qed.

Lemma exitRun_unsettled w d cs W run :
  nextRun W = run -> settled run (exitRun w d cs W) = false.
Proof.
  intros <-. unfold settled, exitRun, started. simpl. rewrite <- !app_assoc.
  rewrite forallb_app. simpl. rewrite Nat.eqb_refl. simpl.
  apply andb_false_r.
Qed.

Lemma exec_resume_blocked i k d s :
  pending s !! i = Some k ->
  dialogs s !! Dialog.instanceOf k = Some d ->
  Dialog.ready k d (world s) = false ->
  exec (Resume i) s = None.
Proof. intros Hp Hd Hr. unfold exec. rewrite Hp, Hd, Hr. reflexivity. Qed.

(** ** Proof steps for schedules *)

Ltac normalise :=
  match goal with
  | |- context [run ?l ?s] =>
      let s' := eval cbn in s in change (run l s) with (run l s')
  end.

Ltac advance tac := erewrite run_step; [ | tac]; normalise.

Ltac resumed ready_tac body_tac :=
  advance ltac:(eapply exec_resume;
    [reflexivity | reflexivity | ready_tac
    | cbn [Dialog.resume Dialog.afterDefined negb world]; body_tac]).

Lemma dispatchedOn_cons w a l :
  dispatchedOn w (a :: l) = eventsOf w a ++ dispatchedOn w l.
Proof. reflexivity. Qed.

Lemma dispatchedOn_nil w : dispatchedOn w [] = [].
Proof. reflexivity. Qed.

Ltac observe_log :=
  match goal with
  | |- context [log ?W] =>
      let l := eval cbn in (log W) in change (log W) with l
  end.

Ltac dispatched :=
  observe_log;
  repeat first
    [ rewrite dispatchedOn_app | rewrite dispatchedOn_cons
    | rewrite dispatchedOn_stopped | rewrite dispatchedOn_started
    | rewrite dispatchedOn_timeouts | rewrite dispatchedOn_nil ];
  cbn [eventsOf Nat.eqb app Event.type intent completed].

Lemma exec_firstUpdate_open w d s :
  dialogs s !! w = Some d ->
  Dialog.hasUpdated d = false -> Dialog.open d = true ->
  exec (FirstUpdate w) s
  = Some {| dialogs := <[w := Dialog.set_hasUpdated true d]> (dialogs s);
            world := world s;
            pending := pending s ++ [Dialog.AwaitDefined w false] |}.
Proof.
  intros Hd Hu Ho. unfold exec. rewrite Hd, Hu.
  rewrite (invoke_closed w _ _ d (Some (Dialog.AwaitDefined w false)) d (world s));
    [ | exact Hd
      | unfold Dialog.onOpenChange, Dialog.bind, Dialog.this; cbn [fst snd];
        rewrite Hu, Ho; reflexivity ].
  unfold runOn. cbn [dialogs world pending].
  rewrite list_lookup_insert_eq by (eapply lookup_lt_Some; eassumption).
  unfold Dialog.onThis. cbn [fst snd].
  rewrite list_insert_insert_eq. reflexivity.
Qed.

Lemma Forall_map_all {A B} (P : B -> Prop) (f : A -> B) l :
  (forall x, P (f x)) -> Forall P (map f l).
Proof. intros H. apply Forall_map. apply Forall_forall. intros x _. apply H. Qed.

Lemma fab_first_render (f : Fab.t) (measured : N) :
  Fab.extended f = true -> Fab.hasUpdated f = false ->
  Fab.runToEnd measured f
  = Some (Fab.set_transitionProperty "box-shadow, width, bottom, transform"
            (Fab.set_width (Some measured)
               (Fab.rendered measured
                  (Fab.rendered measured
                     (Fab.set_width (Some (Fab.scrollWidth f)) f)))),
          [Fab.WriteWidth (Some (Fab.scrollWidth f));
           Fab.WriteWidth (Some measured);
           Fab.WriteTransitionProperty "box-shadow, width, bottom, transform"]).
Proof.
  intros He Hu. destruct f as [e u sw wd tp]. simpl in *. subst e u.
  reflexivity.
Qed.

Ltac opening :=
  advance ltac:(eapply exec_setOpen; reflexivity);
  resumed ltac:(reflexivity)
    ltac:(apply protocol_open_passed; [reflexivity | assumption]);
  resumed ltac:(reflexivity) ltac:(apply startOpenRun_closed).

Ltac closing :=
  advance ltac:(eapply exec_setOpen; reflexivity);
  resumed ltac:(reflexivity)
    ltac:(apply protocol_close_passed; [reflexivity | assumption]);
  resumed ltac:(reflexivity) ltac:(apply startCloseRun_closed).

Ltac settle_open :=
  erewrite run_step by (apply exec_finishRun);
  resumed ltac:(apply settled_finishRun) ltac:(apply finishOpen_closed).

Ltac settle_close_focus :=
  erewrite run_step by (apply exec_finishRun);
  resumed ltac:(apply settled_finishRun)
    ltac:(rewrite finishClose_closed; unfold closedWorld;
          cbn [Dialog.originalTrigger Dialog.set_open openedDialog
               Dialog.set_originalTrigger activeElement quiet];
          rewrite focusTimers_focusable by assumption; reflexivity).

Ltac settle_close :=
  erewrite run_step by (apply exec_finishRun);
  resumed ltac:(apply settled_finishRun) ltac:(apply finishClose_closed).

Ltac arrived := cbn [run]; reflexivity.

Ltac blocked lem :=
  eapply exec_resume_blocked; [reflexivity | reflexivity | ];
  cbn [Dialog.ready world]; apply lem; reflexivity.

Lemma halted_children w cs run kfs d ease :
  map (haltOn (animated w cs)) (map (effectOn run kfs d ease) cs)
  = map (fun n => set_status Canceled (effectOn run kfs d ease n)) cs.
Proof.
  rewrite map_map. apply map_ext_in. intros n Hn.
  unfold haltOn, animated. cbn [target effectOn existsb].
  rewrite (existsb_node_In n cs Hn), !orb_true_r. reflexivity.
Qed.

Ltac effects_now :=
  match goal with
  | |- context [effects ?W] =>
      let l := eval cbn in (effects W) in change (effects W) with l
  end;
  rewrite ?halted_children.

Ltac all_effects :=
  repeat first
    [ rewrite forallb_app
    | rewrite forallb_map_true by (intros; reflexivity)
    | rewrite map_app
    | rewrite map_map
    | progress cbn ];
  try reflexivity.

Ltac canceled_run :=
  cbn [Dialog.ready world]; unfold settled; effects_now; all_effects.

Ltac each_effect :=
  effects_now;
  repeat first [ rewrite map_app | rewrite map_map | progress cbn ];
  repeat first
    [ apply Forall_app; split
    | apply Forall_cons; split; [reflexivity|]
    | apply Forall_nil; exact I
    | apply Forall_map_all; intros; reflexivity ].

Lemma exec_resume_inv i k s s' :
  pending s !! i = Some k -> exec (Resume i) s = Some s' ->
  exists d r d',
    dialogs s !! Dialog.instanceOf k = Some d
    /\ Dialog.ready k d (world s) = true
    /\ Dialog.resume k (d, world s) = (r, (d', world s')).
Proof.
  intros Hp He. unfold exec in He. rewrite Hp in He.
  destruct (dialogs s !! Dialog.instanceOf k) as [d|] eqn:Hd; [|discriminate].
  destruct (Dialog.ready k d (world s)) eqn:Hr; [|discriminate].
  unfold invoke, runOn in He. cbn [dialogs world pending] in He.
  rewrite Hd in He.
  destruct (Dialog.resume k (d, world s)) as [r [d' W']] eqn:Hm.
  injection He as <-. exists d, r, d'.
  split; [reflexivity|]. split; [exact Hr|]. exact Hm.
Qed.

Lemma protocol_intent_first w d W :
  exists k d' W' rest,
    Dialog.protocol w true (d, W) = (k, (d', W'))
    /\ log W' = log W
         ++ Dispatched w
              (intent (if Dialog.open d then "open" else "close")
                 (Dialog.listeners d (if Dialog.open d then "open" else "close")))
         :: rest.
Proof.
  destruct (Dialog.open d) eqn:Ho;
    [destruct (Dialog.listeners d "open") eqn:Hl
    |destruct (Dialog.listeners d "close") eqn:Hl].
  - do 4 eexists. split; [apply protocol_vetoed; assumption|]. reflexivity.
  - do 4 eexists. split; [apply protocol_open_passed; assumption|].
    unfold openedWorld. cbn. rewrite <- !app_assoc. reflexivity.
  - do 4 eexists. split; [apply protocol_close_vetoed; assumption|]. reflexivity.
  - do 4 eexists. split; [apply protocol_close_passed; assumption|].
    unfold closingWorld. cbn. rewrite <- !app_assoc. reflexivity.
Qed.

(** ** Idle nodes *)

Lemma idle_stopped ns W : idle ns (stopped ns W) = true.
Proof.
  unfold idle, stopped. cbn [effects recordAll set_effects].
  apply forallb_map_true. intros e. unfold haltOn.
  destruct (existsb (node_eqb (target e)) ns) eqn:Hn; cbn [andb].
  - destruct (isRunning e) eqn:Hr.
    + cbn [target set_status]. rewrite Hn. reflexivity.
    + rewrite Hn, Hr. reflexivity.
  - rewrite Hn. reflexivity.
Qed.

Lemma onlyRun_grown run ns W new :
  idle ns W = true ->
  forallb (fun e => Nat.eqb (owner e) run) new = true ->
  forallb (fun e =>
    negb (existsb (node_eqb (target e)) ns && isRunning e)
    || Nat.eqb (owner e) run) (effects W ++ new) = true.
Proof.
  intros Hi Hn. rewrite forallb_app. apply andb_true_iff. split.
  - unfold idle in Hi. rewrite forallb_forall in Hi.
    apply forallb_forall. intros e He. rewrite (Hi e He). reflexivity.
  - rewrite forallb_forall in Hn. apply forallb_forall. intros e He.
    rewrite (Hn e He). apply orb_true_r.
Qed.

Lemma onlyRun_entryRun w used d cs ns W :
  idle ns W = true -> onlyRun (nextRun W) ns (entryRun w used d cs W) = true.
Proof.
  intros Hi. unfold onlyRun, entryRun, started.
  cbn [effects recordAll set_effects animateTo record set_nextRun
       requestAnimationFrame set_frames nextRun].
  rewrite <- !app_assoc. apply onlyRun_grown; [exact Hi|].
  cbn [app forallb owner]. rewrite !Nat.eqb_refl. cbn [andb].
  apply forallb_map_true. intros n. cbn [owner effectOn]. apply Nat.eqb_refl.
Qed.

Lemma onlyRun_exitRun w d cs ns W :
  idle ns W = true -> onlyRun (nextRun W) ns (exitRun w d cs W) = true.
Proof.
  intros Hi. unfold onlyRun, exitRun, started.
  cbn [effects recordAll set_effects animateTo record set_nextRun nextRun].
  rewrite <- !app_assoc. apply onlyRun_grown; [exact Hi|].
  cbn [app forallb owner]. rewrite !Nat.eqb_refl. cbn [andb].
  apply forallb_map_true. intros n. cbn [owner effectOn]. apply Nat.eqb_refl.
Qed.

Lemma protocol_suspends w hu d W k d1 W1 :
  Dialog.protocol w hu (d, W) = (Some k, (d1, W1)) ->
  (k = Dialog.AwaitStopOpen w hu (Dialog.children d)
   \/ k = Dialog.AwaitStopClose w (Dialog.children d))
  /\ exists W0, W1 = stopped (animated w (Dialog.children d)) W0.
Proof.
  intros H.
  destruct (Dialog.open d) eqn:Ho.
  - destruct hu.
    + destruct (Dialog.listeners d "open") eqn:Hl.
      * rewrite protocol_vetoed in H by assumption. discriminate.
      * rewrite protocol_open_passed in H by assumption.
        injection H as <- _ <-. split; [left; reflexivity|].
        eexists. reflexivity.
    + rewrite protocol_open_first in H by assumption.
      injection H as <- _ <-. split; [left; reflexivity|].
      eexists. reflexivity.
  - destruct (Dialog.listeners d "close") eqn:Hl.
    + rewrite protocol_close_vetoed in H by assumption. discriminate.
    + rewrite protocol_close_passed in H by assumption.
      injection H as <- _ <-. split; [right; reflexivity|].
      eexists. reflexivity.
Qed.

Lemma idle_stopped_other ns ns' W :
  idle ns W = true -> idle ns (stopped ns' W) = true.
Proof.
  intros Hi. unfold idle in *. cbn [stopped recordAll set_effects effects].
  rewrite forallb_forall in Hi. apply forallb_forall. intros e He.
  apply in_map_iff in He. destruct He as [e0 [<- He0]].
  specialize (Hi e0 He0). unfold haltOn.
  destruct (existsb (node_eqb (target e0)) ns' && isRunning e0); [|exact Hi].
  cbn [target set_status]. unfold isRunning. cbn [status set_status].
  apply negb_true_iff, andb_false_r.
Qed.

Lemma idle_finishRun ns run W :
  idle ns W = true -> idle ns (finishRun run W) = true.
Proof.
  intros Hi. unfold idle in *. cbn [finishRun set_effects effects].
  rewrite forallb_forall in Hi. apply forallb_forall. intros e He.
  apply in_map_iff in He. destruct He as [e0 [<- He0]].
  specialize (Hi e0 He0). unfold finishOf.
  destruct (Nat.eqb (owner e0) run && isRunning e0); [|exact Hi].
  cbn [target set_status]. unfold isRunning. cbn [status set_status].
  apply negb_true_iff, andb_false_r.
Qed.

Lemma idle_protocol ns w hu d W k d' W' :
  Dialog.protocol w hu (d, W) = (k, (d', W')) ->
  idle ns W = true -> idle ns W' = true.
Proof.
  intros H Hi.
  destruct (Dialog.open d) eqn:Ho.
  - destruct hu.
    + destruct (Dialog.listeners d "open") eqn:Hl.
      * rewrite protocol_vetoed in H by assumption.
        injection H as _ _ <-. exact Hi.
      * rewrite protocol_open_passed in H by assumption.
        injection H as _ _ <-. apply idle_stopped_other. exact Hi.
    + rewrite protocol_open_first in H by assumption.
      injection H as _ _ <-. apply idle_stopped_other. exact Hi.
  - destruct (Dialog.listeners d "close") eqn:Hl.
    + rewrite protocol_close_vetoed in H by assumption.
      injection H as _ _ <-. exact Hi.
    + rewrite protocol_close_passed in H by assumption.
      injection H as _ _ <-. apply idle_stopped_other. exact Hi.
Qed.

Lemma idle_callback ns cb s s' :
  callback cb s = Some s' -> idle ns (world s) = true ->
  idle ns (world s') = true.
Proof.
  intros H Hi. destruct cb as [w|n]; cbn [callback] in H.
  - unfold runOn in H. destruct (dialogs s !! w) as [d|]; [|discriminate].
    unfold Dialog.focusInitial, Dialog.bind, Dialog.this in H.
    cbn [fst snd] in H.
    destruct (Dialog.autofocus d); unfold Dialog.onDocument in H;
      cbn [fst snd] in H; injection H as <-; exact Hi.
  - injection H as <-. exact Hi.
Qed.

Lemma idle_callbacks ns cbs s s' :
  callbacks cbs s = Some s' -> idle ns (world s) = true ->
  idle ns (world s') = true.
Proof.
  revert s. induction cbs as [|cb cbs IH]; intros s H Hi; cbn [callbacks] in H.
  - injection H as <-. exact Hi.
  - destruct (callback cb s) as [s1|] eqn:Hc; [|discriminate].
    apply (IH s1 H). exact (idle_callback ns cb s s1 Hc Hi).
Qed.

Lemma world_onOpenChange w s s' :
  invoke w (Dialog.onOpenChange w) s = Some s' -> world s' = world s.
Proof.
  unfold invoke, runOn. destruct (dialogs s !! w) as [d|]; [|discriminate].
  unfold Dialog.onOpenChange, Dialog.bind, Dialog.this. cbn [fst snd].
  destruct (negb (Dialog.open d) && negb (Dialog.hasUpdated d));
    unfold Dialog.ret; intros H; injection H as <-; reflexivity.
Qed.

Lemma idle_step ns st s s' :
  exec st s = Some s' -> startsRun st s = false ->
  idle ns (world s) = true -> idle ns (world s') = true.
Proof.
  intros He Hs Hi. destruct st as [w|w v|i|run| | |w].
  - cbn [exec] in He. destruct (dialogs s !! w) as [d|]; [|discriminate].
    destruct (Dialog.hasUpdated d); [discriminate|].
    destruct (invoke w (Dialog.onOpenChange w) s) as [s1|] eqn:Hv; [|discriminate].
    unfold runOn in He. destruct (dialogs s1 !! w) as [d1|]; [|discriminate].
    unfold Dialog.onThis in He. cbn [fst snd] in He. injection He as <-.
    cbn [world]. rewrite (world_onOpenChange w s s1 Hv). exact Hi.
  - cbn [exec] in He. destruct (dialogs s !! w) as [d|]; [|discriminate].
    destruct (eqb (Dialog.open d) v).
    + injection He as <-. exact Hi.
    + destruct (Dialog.hasUpdated d).
      * rewrite (world_onOpenChange w _ s' He). exact Hi.
      * injection He as <-. exact Hi.
  - destruct (pending s !! i) as [k|] eqn:Hp;
      [|cbn [exec] in He; rewrite Hp in He; discriminate].
    destruct (exec_resume_inv i k s s' Hp He) as (d & r & d' & _ & _ & Hm).
    cbn [startsRun] in Hs. rewrite Hp in Hs.
    destruct k as [w hu|w hu|w hu cs|w hu run|w cs|w run];
      try discriminate; cbn [Dialog.resume] in Hm.
    + unfold Dialog.afterDefined in Hm. destruct hu; cbn [negb] in Hm.
      * exact (idle_protocol ns _ _ _ _ _ _ _ Hm Hi).
      * injection Hm as _ _ <-. exact Hi.
    + exact (idle_protocol ns _ _ _ _ _ _ _ Hm Hi).
    + rewrite finishOpen_closed in Hm. injection Hm as _ _ <-.
      destruct hu; exact Hi.
    + rewrite finishClose_closed in Hm. injection Hm as _ _ <-. exact Hi.
  - injection He as <-. apply idle_finishRun. exact Hi.
  - cbn [exec] in He. exact (idle_callbacks ns _ _ s' He Hi).
  - cbn [exec] in He. destruct (timers (world s)) as [|cb rest]; [discriminate|].
    exact (idle_callback ns cb _ s' He Hi).
  - cbn [exec] in He. unfold runOn in He.
    destruct (dialogs s !! w) as [d|]; [|discriminate].
    unfold Dialog.disconnectedCallback, Dialog.onDocument in He.
    cbn [fst snd] in He. injection He as <-. exact Hi.
Qed.

(** ** The phases of a superseded opening *)

Lemma exec_resume_full i k s s' :
  pending s !! i = Some k -> exec (Resume i) s = Some s' ->
  exists d r d' W',
    dialogs s !! Dialog.instanceOf k = Some d
    /\ Dialog.ready k d (world s) = true
    /\ Dialog.resume k (d, world s) = (r, (d', W'))
    /\ s' = {| dialogs := <[Dialog.instanceOf k := d']> (dialogs s);
               world := W';
               pending := delete i (pending s) ++ option_list r |}.
Proof.
  intros Hp He. unfold exec in He. rewrite Hp in He.
  destruct (dialogs s !! Dialog.instanceOf k) as [d|] eqn:Hd; [|discriminate].
  destruct (Dialog.ready k d (world s)) eqn:Hr; [|discriminate].
  unfold invoke, runOn in He. cbn [dialogs world pending] in He.
  rewrite Hd in He.
  destruct (Dialog.resume k (d, world s)) as [r [d' W']] eqn:Hm.
  injection He as <-. exists d, r, d', W'. repeat split; assumption.
Qed.

Lemma runOf_finish r run st plan d :
  map (finishOf r) (Toggle.runOf run st plan d)
  = Toggle.runOf run (Toggle.finishedBy run r st) plan d.
Proof.
  unfold Toggle.runOf. rewrite map_map. apply map_ext.
  intros [[n kfs] ease]. unfold finishOf, isRunning. cbn [owner status].
  destruct st; cbn [Toggle.finishedBy]; rewrite ?andb_false_r; try reflexivity.
  rewrite andb_true_r. destruct (Nat.eqb run r); reflexivity.
Qed.

Lemma runOf_halt ns run st plan d :
  forallb (fun x => existsb (node_eqb (fst (fst x))) ns) plan = true ->
  map (haltOn ns) (Toggle.runOf run st plan d)
  = Toggle.runOf run (Toggle.halted st) plan d.
Proof.
  intros H. unfold Toggle.runOf. rewrite map_map. apply map_ext_in.
  intros [[n kfs] ease] Hin. rewrite forallb_forall in H.
  specialize (H _ Hin). cbn [fst] in H.
  unfold haltOn, isRunning. cbn [target status]. rewrite H.
  destruct st; reflexivity.
Qed.

Lemma entryPlan_targets d :
  forallb (fun x => existsb (node_eqb (fst (fst x)))
                      (animated 0 (Dialog.children d)))
    (Toggle.entryPlan d) = true.
Proof.
  apply forallb_forall. intros x Hx. unfold Toggle.entryPlan in Hx.
  destruct Hx as [<-|[<-|[<-|Hx]]]; try reflexivity.
  apply in_map_iff in Hx. destruct Hx as [n [<- Hn]]. cbn [fst].
  apply existsb_node_In. right. right. exact Hn.
Qed.

Lemma effects_entryRun w used d cs W :
  w = 0%nat -> used = Dialog.getDuration d "medium4" -> cs = Dialog.children d ->
  effects (entryRun w used d cs W)
  = effects W ++ Toggle.runOf (nextRun W) Running (Toggle.entryPlan d) used.
Proof.
  intros -> -> ->. unfold entryRun, started, Toggle.runOf, Toggle.entryPlan.
  cbn [effects recordAll set_effects animateTo record set_nextRun
       requestAnimationFrame set_frames nextRun map].
  rewrite <- !app_assoc. cbn [app]. rewrite map_map. reflexivity.
Qed.

Lemma effects_exitRun w d cs W :
  w = 0%nat -> cs = Dialog.children d ->
  effects (exitRun w d cs W)
  = effects W
    ++ Toggle.runOf (nextRun W) Running (Toggle.exitPlan d)
         (Dialog.getDuration d "short4").
Proof.
  intros -> ->. unfold exitRun, started, Toggle.runOf, Toggle.exitPlan.
  cbn [effects recordAll set_effects animateTo record set_nextRun nextRun map].
  rewrite <- !app_assoc. cbn [app]. rewrite map_map. reflexivity.
Qed.

Lemma events_record w e W :
  dispatchedOn w (log (record (Dispatched w e) W))
  = dispatchedOn w (log W) ++ [e].
Proof.
  cbn [record log]. rewrite dispatchedOn_app.
  cbn [dispatchedOn flat_map eventsOf]. rewrite Nat.eqb_refl. reflexivity.
Qed.

Lemma events_closingWorld w d W :
  dispatchedOn w (log (closingWorld w d W))
  = dispatchedOn w (log W) ++ [intent "close" false].
Proof.
  unfold closingWorld, stopped. cbn [recordAll record log set_effects].
  rewrite !dispatchedOn_app, dispatchedOn_stopped.
  cbn [dispatchedOn flat_map eventsOf]. rewrite Nat.eqb_refl.
  rewrite !app_nil_r. reflexivity.
Qed.

Lemma events_exitRun w d cs W :
  dispatchedOn w (log (exitRun w d cs W)) = dispatchedOn w (log W).
Proof.
  unfold exitRun, started.
  cbn [recordAll record log set_effects animateTo set_nextRun].
  rewrite !dispatchedOn_app, dispatchedOn_started.
  cbn [dispatchedOn flat_map eventsOf]. rewrite !app_nil_r. reflexivity.
Qed.

Lemma events_closedWorld w d W :
  dispatchedOn w (log (closedWorld w d W))
  = dispatchedOn w (log W) ++ [completed "closed"].
Proof.
  unfold closedWorld, unlockScreen.
  cbn [recordAll record log set_timers set_lockCount].
  rewrite !dispatchedOn_app, dispatchedOn_timeouts.
  cbn [dispatchedOn flat_map eventsOf]. rewrite Nat.eqb_refl.
  rewrite !app_nil_r. reflexivity.
Qed.

Lemma callback_observed cb s s' :
  callback cb s = Some s' ->
  dialogs s' = dialogs s /\ pending s' = pending s
  /\ effects (world s') = effects (world s)
  /\ nextRun (world s') = nextRun (world s)
  /\ lockCount (world s') = lockCount (world s)
  /\ forall w, dispatchedOn w (log (world s'))
               = dispatchedOn w (log (world s)).
Proof.
  assert (Hf : forall n W w,
             dispatchedOn w (log (focus n W)) = dispatchedOn w (log W)).
  { intros n W w. unfold focus. cbn [record log set_activeElement].
    rewrite dispatchedOn_app. cbn [dispatchedOn flat_map eventsOf].
    rewrite !app_nil_r. reflexivity. }
  intros H. destruct cb as [w0|n]; cbn [callback] in H.
  - unfold runOn in H. destruct (dialogs s !! w0) as [d|] eqn:Hd; [|discriminate].
    unfold Dialog.focusInitial, Dialog.bind, Dialog.this in H.
    cbn [fst snd] in H.
    destruct (Dialog.autofocus d); unfold Dialog.onDocument in H;
      cbn [fst snd] in H; injection H as <-; cbn [dialogs world pending];
      rewrite (list_insert_id _ _ _ Hd); repeat split; apply Hf.
  - injection H as <-. cbn [dialogs world pending]. repeat split. apply Hf.
Qed.

Lemma callbacks_observed cbs s s' :
  callbacks cbs s = Some s' ->
  dialogs s' = dialogs s /\ pending s' = pending s
  /\ effects (world s') = effects (world s)
  /\ nextRun (world s') = nextRun (world s)
  /\ lockCount (world s') = lockCount (world s)
  /\ forall w, dispatchedOn w (log (world s'))
               = dispatchedOn w (log (world s)).
Proof.
  revert s. induction cbs as [|cb cbs IH]; intros s H; cbn [callbacks] in H.
  - injection H as <-. repeat split.
  - destruct (callback cb s) as [s1|] eqn:Hc; [|discriminate].
    destruct (callback_observed cb s s1 Hc) as (E1 & E2 & E3 & E4 & E5 & E6).
    destruct (IH s1 H) as (F1 & F2 & F3 & F4 & F5 & F6).
    rewrite F1, F2, F3, F4, F5, E1, E2, E3, E4, E5.
    repeat split. intros w. rewrite F6. apply E6.
Qed.

Lemma inPhase_observed c d p s s' :
  Toggle.inPhase c d p s ->
  dialogs s' = dialogs s -> pending s' = pending s ->
  effects (world s') = effects (world s) ->
  nextRun (world s') = nextRun (world s) ->
  lockCount (world s') = lockCount (world s) ->
  dispatchedOn 0 (log (world s')) = dispatchedOn 0 (log (world s)) ->
  Toggle.inPhase c d p s'.
Proof.
  intros (Hc & Hd & Hp & He & Hn & Hl & Hv) E1 E2 E3 E4 E5 E6.
  unfold Toggle.inPhase. rewrite E1, E2, E3, E4, E5, E6.
  repeat split; assumption.
Qed.

Lemma phase_finishOpen c d en cl s s' :
  Toggle.inPhase c d
    {| Toggle.entry := en; Toggle.opened := Toggle.NotYet;
       Toggle.closing := cl |} s ->
  exec (Resume 0) s = Some s' ->
  en <> Running
  /\ Toggle.inPhase c d
       {| Toggle.entry := en; Toggle.opened := Toggle.openedNow cl;
          Toggle.closing := cl |} s'.
Proof.
  intros (Hc & Hd & Hp & He & Hn & Hl & Hv) Hex.
  assert (Hk : pending s !! 0%nat = Some (Dialog.AwaitOpenRun 0 true 0))
    by (rewrite Hp; reflexivity).
  destruct (exec_resume_full 0 _ s s' Hk Hex)
    as (d0 & r & d' & W' & Hd0 & Hr & Hm & ->).
  cbn [Dialog.instanceOf] in Hd0. rewrite Hd in Hd0. cbn in Hd0.
  injection Hd0 as <-.
  cbn [Dialog.resume] in Hm. rewrite finishOpen_closed in Hm.
  injection Hm as <- <- <-.
  cbn [Dialog.ready] in Hr. unfold settled in Hr. rewrite He in Hr.
  assert (Hen : en <> Running).
  { intros ->. cbn in Hr. discriminate Hr. }
  split; [exact Hen|].
  unfold Toggle.inPhase. cbn [dialogs world pending].
  split; [|split; [|split; [|split; [|split; [|split]]]]].
  - destruct en, cl as [| |[]|]; cbn in Hc |- *;
      first [reflexivity | discriminate | contradiction].
  - rewrite Hd. reflexivity.
  - rewrite Hp. destruct cl; reflexivity.
  - exact He.
  - exact Hn.
  - exact Hl.
  - rewrite events_record, Hv. destruct cl; reflexivity.
Qed.

Lemma phase_closeIntent c d en op s s' :
  Dialog.open d = false -> Dialog.listeners d "close" = false ->
  Toggle.inPhase c d
    {| Toggle.entry := en; Toggle.opened := op;
       Toggle.closing := Toggle.CloseDefined |} s ->
  exec (Resume (Toggle.closeIndex op)) s = Some s' ->
  Toggle.inPhase c d
    {| Toggle.entry := Toggle.halted en; Toggle.opened := op;
       Toggle.closing := Toggle.CloseStop |} s'.
Proof.
  intros Hopen Hlc (Hc & Hd & Hp & He & Hn & Hl & Hv) Hex.
  assert (Hk : pending s !! Toggle.closeIndex op
               = Some (Dialog.AwaitDefined 0 true))
    by (rewrite Hp; destruct op; reflexivity).
  destruct (exec_resume_full _ _ s s' Hk Hex)
    as (d0 & r & d' & W' & Hd0 & Hr & Hm & ->).
  cbn [Dialog.instanceOf] in Hd0. rewrite Hd in Hd0. cbn in Hd0.
  injection Hd0 as <-.
  cbn [Dialog.resume Dialog.afterDefined negb] in Hm.
  rewrite protocol_close_passed in Hm by assumption.
  injection Hm as <- <- <-.
  unfold Toggle.inPhase. cbn [dialogs world pending].
  split; [|split; [|split; [|split; [|split; [|split]]]]].
  - destruct en, op; cbn in Hc |- *; first [reflexivity | discriminate].
  - rewrite Hd. reflexivity.
  - rewrite Hp. destruct op; reflexivity.
  - unfold closingWorld, stopped.
    cbn [effects recordAll set_effects record]. rewrite He.
    unfold Toggle.effectsOf. cbn [Toggle.entry Toggle.closing].
    rewrite !app_nil_r. apply runOf_halt, entryPlan_targets.
  - exact Hn.
  - exact Hl.
  - rewrite events_closingWorld, Hv. destruct op; try reflexivity;
      cbn in Hc; destruct en; discriminate.
Qed.

Lemma phase_closeStart c d en op s s' :
  Toggle.inPhase c d
    {| Toggle.entry := en; Toggle.opened := op;
       Toggle.closing := Toggle.CloseStop |} s ->
  exec (Resume (Toggle.closeIndex op)) s = Some s' ->
  Toggle.inPhase c d
    {| Toggle.entry := en; Toggle.opened := op;
       Toggle.closing := Toggle.CloseRun Running |} s'.
Proof.
  intros (Hc & Hd & Hp & He & Hn & Hl & Hv) Hex.
  assert (Hk : pending s !! Toggle.closeIndex op
               = Some (Dialog.AwaitStopClose 0 (Dialog.children d)))
    by (rewrite Hp; destruct op; reflexivity).
  destruct (exec_resume_full _ _ s s' Hk Hex)
    as (d0 & r & d' & W' & Hd0 & Hr & Hm & ->).
  cbn [Dialog.instanceOf] in Hd0. rewrite Hd in Hd0. cbn in Hd0.
  injection Hd0 as <-.
  cbn [Dialog.resume] in Hm. rewrite startCloseRun_closed in Hm.
  injection Hm as <- <- <-.
  cbn [Toggle.exitStarted Toggle.closing] in Hn.
  unfold Toggle.inPhase. cbn [dialogs world pending].
  split; [|split; [|split; [|split; [|split; [|split]]]]].
  - destruct en, op; cbn in Hc |- *; first [reflexivity | discriminate].
  - rewrite Hd. reflexivity.
  - rewrite Hp, Hn. destruct op; reflexivity.
  - rewrite effects_exitRun by reflexivity. rewrite He, Hn.
    unfold Toggle.effectsOf. cbn [Toggle.entry Toggle.closing].
    rewrite app_nil_r. reflexivity.
  - unfold exitRun, started. cbn. rewrite Hn. reflexivity.
  - exact Hl.
  - rewrite events_exitRun, Hv. destruct op; reflexivity.
Qed.

Lemma phase_closeEnd c d en op st s s' :
  Toggle.inPhase c d
    {| Toggle.entry := en; Toggle.opened := op;
       Toggle.closing := Toggle.CloseRun st |} s ->
  exec (Resume (Toggle.closeIndex op)) s = Some s' ->
  st = Finished
  /\ Toggle.inPhase c d
       {| Toggle.entry := en; Toggle.opened := op;
          Toggle.closing := Toggle.CloseDone |} s'.
Proof.
  intros (Hc & Hd & Hp & He & Hn & Hl & Hv) Hex.
  assert (Hk : pending s !! Toggle.closeIndex op
               = Some (Dialog.AwaitCloseRun 0 1))
    by (rewrite Hp; destruct op; reflexivity).
  destruct (exec_resume_full _ _ s s' Hk Hex)
    as (d0 & r & d' & W' & Hd0 & Hr & Hm & ->).
  cbn [Dialog.instanceOf] in Hd0. rewrite Hd in Hd0. cbn in Hd0.
  injection Hd0 as <-.
  cbn [Dialog.resume] in Hm. rewrite finishClose_closed in Hm.
  injection Hm as <- <- <-.
  cbn [Dialog.ready] in Hr. unfold settled in Hr. rewrite He in Hr.
  unfold Toggle.effectsOf in Hr. cbn [Toggle.entry Toggle.closing] in Hr.
  rewrite forallb_app in Hr. apply andb_true_iff in Hr. destruct Hr as [_ Hr].
  assert (Hst : st = Finished).
  { destruct st; [cbn in Hr; discriminate Hr | reflexivity|].
    destruct en, op; cbn in Hc; discriminate Hc. }
  subst st. split; [reflexivity|].
  unfold Toggle.inPhase. cbn [dialogs world pending].
  split; [|split; [|split; [|split; [|split; [|split]]]]].
  - destruct en, op; cbn in Hc |- *; first [reflexivity | discriminate].
  - rewrite Hd. reflexivity.
  - rewrite Hp. destruct op; reflexivity.
  - unfold closedWorld. cbn. exact He.
  - unfold closedWorld. cbn. exact Hn.
  - unfold closedWorld. cbn. cbn in Hl. rewrite Hl. lia.
  - rewrite events_closedWorld, Hv. destruct op; try reflexivity.
    cbn in Hc. destruct en; discriminate.
Qed.

Lemma phase_finishRun c d p r s s' :
  Toggle.inPhase c d p s ->
  exec (FinishRun r) s = Some s' ->
  Toggle.inPhase c d (Toggle.afterFinishRun r p) s'.
Proof.
  intros (Hc & Hd & Hp & He & Hn & Hl & Hv) Hex.
  cbn [exec] in Hex. injection Hex as <-.
  destruct p as [en op cl].
  unfold Toggle.inPhase. cbn [dialogs world pending].
  split; [|split; [|split; [|split; [|split; [|split]]]]].
  - unfold Toggle.afterFinishRun, Toggle.finishedBy.
    cbn [Toggle.entry Toggle.opened Toggle.closing].
    destruct en, op, cl as [| |[]|]; cbn in Hc |- *;
      try discriminate; destruct r as [|[|r]]; reflexivity.
  - rewrite Hd. destruct cl; reflexivity.
  - rewrite Hp. destruct cl; reflexivity.
  - cbn [finishRun effects set_effects]. rewrite He.
    unfold Toggle.effectsOf, Toggle.afterFinishRun.
    cbn [Toggle.entry Toggle.closing].
    rewrite map_app, runOf_finish.
    destruct cl; cbn [map]; rewrite ?runOf_finish; reflexivity.
  - cbn. rewrite Hn. destruct cl; reflexivity.
  - cbn. rewrite Hl. destruct cl; reflexivity.
  - cbn [finishRun log set_effects]. rewrite Hv. destruct cl; reflexivity.
Qed.

Lemma phase_step c d p st s s' :
  Dialog.open d = false -> Dialog.listeners d "close" = false ->
  Toggle.inPhase c d p s ->
  Toggle.internal st = true -> exec st s = Some s' ->
  exists p',
    Toggle.inPhase c d p' s'
    /\ (Toggle.entry p' = Finished ->
        Toggle.entry p = Finished \/ st = FinishRun 0).
Proof.
  intros Hopen Hlc H Hint Hex.
  destruct st as [w|w v|i|r| | |w]; try discriminate Hint.
  - destruct p as [en op cl].
    assert (Hp : pending s
                 = Toggle.suspended d
                     {| Toggle.entry := en; Toggle.opened := op;
                        Toggle.closing := cl |}) by apply H.
    destruct op, cl as [| |st|], i as [|[|i]];
      try (exfalso; unfold exec in Hex; rewrite Hp in Hex; cbn in Hex;
           discriminate Hex).
    all: try (destruct (phase_finishOpen c d _ _ s s' H Hex) as [_ H'];
              eexists; split; [exact H'|]; cbn; intros ->; left; reflexivity).
    all: try (pose proof (phase_closeIntent c d _ _ s s' Hopen Hlc H Hex) as H';
              eexists; split; [exact H'|]; cbn; destruct en; intros E;
              first [discriminate E | left; reflexivity]).
    all: try (pose proof (phase_closeStart c d _ _ s s' H Hex) as H';
              eexists; split; [exact H'|]; cbn; intros ->; left; reflexivity).
    all: try (destruct (phase_closeEnd c d _ _ _ s s' H Hex) as [_ H'];
              eexists; split; [exact H'|]; cbn; intros ->; left; reflexivity).
  - exists (Toggle.afterFinishRun r p).
    split; [exact (phase_finishRun c d p r s s' H Hex)|].
    destruct p as [en op cl]. cbn. destruct en; cbn; try discriminate.
    + destruct r; [right; reflexivity | discriminate].
    + left. reflexivity.
  - exists p. split; [|intros E; left; exact E].
    cbn [exec] in Hex.
    destruct (callbacks_observed _ _ s' Hex) as (E1 & E2 & E3 & E4 & E5 & E6).
    apply (inPhase_observed c d p s); try assumption. apply E6.
  - exists p. split; [|intros E; left; exact E].
    cbn [exec] in Hex. destruct (timers (world s)) as [|cb rest]; [discriminate|].
    destruct (callback_observed _ _ s' Hex) as (E1 & E2 & E3 & E4 & E5 & E6).
    apply (inPhase_observed c d p s); try assumption. apply E6.
Qed.

Lemma run_app l1 l2 s :
  run (l1 ++ l2) s
  = match run l1 s with
    | Some s1 => run l2 s1
    | None => None
    end.
Proof.
  revert s. induction l1 as [|st l1 IH]; intros s; cbn [app run];
    [reflexivity|].
  destruct (exec st s); [apply IH | reflexivity].
Qed.

Lemma phase_run c d sched :
  Dialog.open d = false -> Dialog.listeners d "close" = false ->
  forall p s s',
    Toggle.inPhase c d p s ->
    forallb Toggle.internal sched = true ->
    run sched s = Some s' ->
    exists p',
      Toggle.inPhase c d p' s'
      /\ (Toggle.entry p' = Finished ->
          Toggle.entry p = Finished \/ In (FinishRun 0) sched).
Proof.
  intros Hopen Hlc.
  induction sched as [|st rest IH]; intros p s s' H Hint Hr; cbn [run] in Hr.
  - injection Hr as <-. exists p. split; [exact H|]. intros E. left. exact E.
  - cbn [forallb] in Hint. apply andb_true_iff in Hint.
    destruct Hint as [Hst Hrest].
    destruct (exec st s) as [s1|] eqn:He; [|discriminate].
    destruct (phase_step c d p st s s1 Hopen Hlc H Hst He) as (p1 & H1 & T1).
    destruct (IH p1 s1 s' H1 Hrest Hr) as (p' & H' & T').
    exists p'. split; [exact H'|]. intros E.
    destruct (T' E) as [E1|Hin]; [|right; right; exact Hin].
    destruct (T1 E1) as [E0 | ->]; [left; exact E0 | right; left; reflexivity].
Qed.

Lemma phase_in_flight (d : Dialog.t) (c : Z) (a : option Node) :
  Dialog.open d = false -> Dialog.hasUpdated d = true ->
  Dialog.listeners d "open" = false ->
  exists s0,
    run (toOpening 0 ++ [SetOpen 0 false]) (page [d] (quiet c a)) = Some s0
    /\ Toggle.inPhase c
         (Dialog.set_open false
            (openedDialog 0 (Dialog.set_open true d) (quiet c a)))
         Toggle.inFlight s0.
Proof.
  intros Ho Hu Hlo.
  destruct d as [o u disp mt ot cs af tabs ls gd ge].
  cbn in Ho, Hu, Hlo. subst o u.
  unfold toOpening, page. cbn [app].
  destruct tabs as [|[n|] tabs].
  all: eexists.
  all: split;
    [opening; advance ltac:(eapply exec_setOpen; reflexivity); arrived|].
  all: unfold Toggle.inPhase; cbn [dialogs world pending].
  all: split; [reflexivity|].
  all: split; [reflexivity|].
  all: split; [reflexivity|].
  all: split;
    [unfold Toggle.effectsOf, Toggle.runOf, Toggle.entryPlan; cbn;
     rewrite ?map_map, ?app_nil_r; reflexivity|].
  all: split; [reflexivity|].
  all: split; [cbn; lia|].
  all: dispatched; reflexivity.
Qed.

Lemma phase_end c d p s :
  Toggle.inPhase c d p s -> pending s = [] ->
  Toggle.closing p = Toggle.CloseDone
  /\ Toggle.opened p <> Toggle.NotYet
  /\ Toggle.entry p <> Running.
Proof.
  intros (Hc & _ & Hp & _) He. rewrite Hp in He.
  destruct p as [en op cl].
  destruct op, cl; cbn in He; try discriminate He.
  all: split; [reflexivity|]; split; [discriminate|].
  all: cbn; intros ->; cbn in Hc; discriminate Hc.
Qed.

Lemma runOf_statuses run st other plan d (P : nat -> bool) :
  P run = true \/ st = other ->
  Forall (fun e => status e = if P (owner e) then st else other)
    (Toggle.runOf run st plan d).
Proof.
  intros H. unfold Toggle.runOf. apply Forall_map_all.
  intros [[n kfs] ease]. cbn [status owner].
  destruct H as [-> | ->]; [reflexivity|]. destruct (P run); reflexivity.
Qed.
(** * The claims *)

(** ** First render *)

(** C1: a dialog (and a fab) whose flag is already [true] at its first
    update.  The dialog's handler runs to its end without dispatching any
    event on the dialog: neither [open] nor [opened].  It puts the dialog in
    its open state ([display: flex]) and every effect it starts, on overlay,
    panel and children, has duration [0].  The fab's handler only writes
    styles: the width twice, and the transition property after both, so that
    the width was applied while no transition on it had been set. *)
Theorem C1_first_render_is_silent_and_instant
    (d : Dialog.t) (c : Z) (a : option Node) (f : Fab.t) (measured : N) :
  Dialog.open d = true -> Dialog.hasUpdated d = false ->
  Fab.extended f = true -> Fab.hasUpdated f = false ->
  (exists s',
     run firstRender (page [d] (quiet c a)) = Some s'
     /\ dispatchedOn 0 (log (world s')) = []
     /\ Forall (fun e => duration e = 0) (effects (world s'))
     /\ length (effects (world s')) = (3 + length (Dialog.children d))%nat
     /\ map Dialog.display (dialogs s') = ["flex"]
     /\ pending s' = [])
  /\ (exists f',
        Fab.runToEnd measured f
        = Some (f', [Fab.WriteWidth (Some (Fab.scrollWidth f));
                     Fab.WriteWidth (Some measured);
                     Fab.WriteTransitionProperty
                       "box-shadow, width, bottom, transform"])
        /\ Fab.width f' = Some measured).
Proof.
  intros Ho Hu He Hfu. split.
  - destruct d as [o u disp mt ot cs af tabs ls gd ge].
    cbn in Ho, Hu. subst o u. unfold firstRender, page.
    destruct tabs as [|[n|] tabs].
    all: advance ltac:(eapply exec_firstUpdate_open; reflexivity).
    all: resumed ltac:(reflexivity) ltac:(reflexivity).
    all: resumed ltac:(reflexivity) ltac:(apply protocol_open_first; reflexivity).
    all: resumed ltac:(reflexivity) ltac:(apply startOpenRun_closed).
    all: erewrite run_step by (apply exec_finishRun).
    all: resumed ltac:(apply settled_finishRun) ltac:(apply finishOpen_closed).
    all: cbn [run]; eexists; split; [reflexivity|].
    all: split; [dispatched; reflexivity|].
    all: cbn [world effects Dialog.children];
      match goal with
      | |- context [effects ?W] =>
          let l := eval cbn in (effects W) in change (effects W) with l
      end.
    all: split;
      [ repeat (constructor; [reflexivity|]);
        rewrite map_map; apply Forall_map_all; intros x; reflexivity |].
    all: split; [cbn [length]; rewrite !length_map; reflexivity|].
    all: split; reflexivity.
  - eexists. split; [apply fab_first_render; assumption|]. reflexivity.
Qed.

Lemma C1_witness :
  (Dialog.open (fresh everybody) = true
   /\ Dialog.hasUpdated (fresh everybody) = false
   /\ Fab.extended extendedFab = true
   /\ Fab.hasUpdated extendedFab = false)
  /\ (exists s',
        run firstRender (page [fresh everybody] (quiet 0 (Some button)))
        = Some s'
        /\ dispatchedOn 0 (log (world s')) = []
        /\ Forall (fun e => duration e = 0) (effects (world s'))
        /\ length (effects (world s'))
           = (3 + length (Dialog.children (fresh everybody)))%nat
        /\ map Dialog.display (dialogs s') = ["flex"]
        /\ pending s' = [])
  /\ (exists f',
        Fab.runToEnd 120 extendedFab
        = Some (f', [Fab.WriteWidth (Some (Fab.scrollWidth extendedFab));
                     Fab.WriteWidth (Some 120%N);
                     Fab.WriteTransitionProperty
                       "box-shadow, width, bottom, transform"])
        /\ Fab.width f' = Some 120%N).
Proof.
  split; [repeat split|].
  apply (C1_first_render_is_silent_and_instant (fresh everybody) 0
           (Some button) extendedFab 120); reflexivity.
Defined.

(** ** Veto of the open intent *)

(** C2: after the first render, when a listener cancels [open], the handler
    stops there.  The instance is as it was but for the flag, which stays
    [true]; the document is as it was but for the dispatched event: no style
    written, no lock taken, no effect started or stopped; and no handler is
    left suspended. *)
Theorem C2_vetoed_open_changes_nothing (d : Dialog.t) (W : World) :
  Dialog.hasUpdated d = true -> Dialog.open d = false ->
  Dialog.listeners d "open" = true ->
  run [SetOpen 0 true; Resume 0] (page [d] W)
  = Some {| dialogs := [Dialog.set_open true d];
            world := record (Dispatched 0 (intent "open" true)) W;
            pending := [] |}.
Proof.
  intros Hu Ho Hl. unfold page.
  erewrite run_step by (eapply exec_setOpen; [reflexivity | exact Ho | exact Hu]).
  erewrite run_step.
  2:{ eapply exec_resume; [reflexivity | reflexivity | reflexivity | ].
      cbn [Dialog.resume Dialog.afterDefined negb world].
      apply protocol_vetoed; [reflexivity | exact Hl]. }
  reflexivity.
Qed.

Lemma C2_witness :
  Dialog.hasUpdated (rendered everybody) = true
  /\ Dialog.open (rendered everybody) = false
  /\ Dialog.listeners (rendered everybody) "open" = true
  /\ run [SetOpen 0 true; Resume 0] (page [rendered everybody] (quiet 0 (Some button)))
     = Some {| dialogs := [Dialog.set_open true (rendered everybody)];
               world := record (Dispatched 0 (intent "open" true))
                          (quiet 0 (Some button));
               pending := [] |}.
Proof.
  do 3 (split; [reflexivity|]).
  apply (C2_vetoed_open_changes_nothing (rendered everybody) (quiet 0 (Some button)));
    reflexivity.
Defined.

(** ** Open, then closed before the entry run settles *)

(** C3 as stated fails: [opened] is dispatched although the dialog was
    closed again before its entry run settled. *)
Lemma C3_counterexample :
  option_map (fun s => dispatchedOn 0 (log (world s)))
    (run (rapidToggle true) (page [rendered nobody] (quiet 0 (Some button))))
  = Some [intent "open" false; intent "close" false; completed "opened";
          completed "closed"].
Proof. vm_compute. reflexivity. Qed.

(** C3, amended: the flag is set to [true] and back to [false] while the
    entry run is in flight, and nothing else is written afterwards.  The
    superseded open handler is not stopped: when the close handler passes its
    intent it cancels what is still running of the entry run, without
    awaiting it; a canceled run has settled, so the open handler goes on and
    dispatches [opened].

    First part: when the close handler passes its intent at once and the
    open handler is resumed before or after the exit run is started, all
    steps succeed and the events are [open], [close], [opened], [closed];
    every effect of the entry run ends canceled, every effect of the exit run
    finished, and the dialog is closed.

    Second part: whatever the order in which the platform finishes runs and
    runs frames, timers and the two handlers, once both handlers have run to
    their end four events have been dispatched, [open] first, [close] before
    [closed], and [opened] once, anywhere after [open]; no effect of the
    entry run is still running, every effect of the exit run is finished;
    [display] is [none], the scroll lock is released and the flag is
    [false].  If the platform never finishes the entry run itself, every
    effect of the entry run ends canceled and [opened] comes after
    [close]. *)
Theorem C3_rapid_toggle (d : Dialog.t) (c : Z) (a : option Node) :
  Dialog.open d = false -> Dialog.hasUpdated d = true ->
  Dialog.listeners d "open" = false -> Dialog.listeners d "close" = false ->
  (forall openFirst : bool,
     exists s',
       run (rapidToggle openFirst) (page [d] (quiet c a)) = Some s'
       /\ dispatchedOn 0 (log (world s'))
          = [intent "open" false; intent "close" false; completed "opened";
             completed "closed"]
       /\ Forall (fun e => status e
                           = if Nat.eqb (owner e) 0 then Canceled else Finished)
            (effects (world s'))
       /\ map Dialog.display (dialogs s') = ["none"]
       /\ map Dialog.open (dialogs s') = [false]
       /\ lockCount (world s') = c
       /\ pending s' = [])
  /\ (forall (sched : list Step) (s' : Sys),
        forallb Toggle.internal sched = true ->
        run (toOpening 0 ++ SetOpen 0 false :: sched) (page [d] (quiet c a))
        = Some s' ->
        pending s' = [] ->
        let seen := dispatchedOn 0 (log (world s')) in
        (seen = [intent "open" false; completed "opened"; intent "close" false;
                 completed "closed"]
         \/ seen = [intent "open" false; intent "close" false;
                    completed "opened"; completed "closed"]
         \/ seen = [intent "open" false; intent "close" false;
                    completed "closed"; completed "opened"])
        /\ (exists st,
              st <> Running
              /\ Forall (fun e => status e
                                  = if Nat.eqb (owner e) 0 then st else Finished)
                   (effects (world s')))
        /\ map Dialog.display (dialogs s') = ["none"]
        /\ map Dialog.open (dialogs s') = [false]
        /\ lockCount (world s') = c
        /\ (~ In (FinishRun 0) sched ->
            seen <> [intent "open" false; completed "opened";
                     intent "close" false; completed "closed"]
            /\ Forall (fun e => status e
                                = if Nat.eqb (owner e) 0 then Canceled
                                  else Finished)
                 (effects (world s')))).
Proof.
  intros Ho Hu Hlo Hlc. split.
  - intros openFirst.
    destruct d as [o u disp mt ot cs af tabs ls gd ge].
    cbn in Ho, Hu, Hlo, Hlc. subst o u.
    unfold rapidToggle, page.
    destruct tabs as [|[n|] tabs]; destruct openFirst; cbn [app].
    all: opening.
    all: advance ltac:(eapply exec_setOpen; reflexivity).
    all: resumed ltac:(reflexivity)
      ltac:(apply protocol_close_passed; [reflexivity | assumption]).
    all: first
      [ resumed ltac:(canceled_run) ltac:(apply finishOpen_closed);
        resumed ltac:(reflexivity) ltac:(apply startCloseRun_closed)
      | resumed ltac:(reflexivity) ltac:(apply startCloseRun_closed);
        resumed ltac:(canceled_run) ltac:(apply finishOpen_closed) ].
    all: settle_close.
    all: cbn [run]; eexists; split; [reflexivity|].
    all: split; [dispatched; reflexivity|].
    all: split; [each_effect|].
    all: split; [reflexivity|].
    all: split; [reflexivity|].
    all: split; [cbn; lia|].
    all: reflexivity.
  - intros sched s' Hint Hrun Hend seen.
    destruct (phase_in_flight d c a Ho Hu Hlo) as (s0 & Hs0 & H0).
    change (toOpening 0 ++ SetOpen 0 false :: sched)
      with (toOpening 0 ++ [SetOpen 0 false] ++ sched) in Hrun.
    rewrite app_assoc, run_app, Hs0 in Hrun.
    set (dref := Dialog.set_open false
                   (openedDialog 0 (Dialog.set_open true d) (quiet c a))) in *.
    assert (Hlc' : Dialog.listeners dref "close" = false).
    { subst dref. unfold openedDialog, adopted.
      destruct d as [o u disp mt ot cs af tabs ls gd ge].
      destruct tabs as [|[n|] tabs]; exact Hlc. }
    destruct (phase_run c dref sched eq_refl Hlc' _ _ _ H0 Hint Hrun)
      as (p & Hp & Htrack).
    destruct (phase_end c dref p s' Hp Hend) as (Hcl & Hop & Hen).
    destruct Hp as (Hc & Hd & _ & He & _ & Hl & Hv).
    destruct p as [en op cl]. cbn in Hcl, Hop, Hen, Htrack. subst cl.
    assert (Hall : forall st, st = en ->
              Forall (fun e => status e
                               = if Nat.eqb (owner e) 0 then st else Finished)
                (effects (world s'))).
    { intros st ->. rewrite He. unfold Toggle.effectsOf.
      cbn [Toggle.entry Toggle.closing]. apply Forall_app. split.
      - apply (runOf_statuses 0 en Finished _ _ (fun r => Nat.eqb r 0)).
        left. reflexivity.
      - unfold Toggle.runOf. apply Forall_map_all.
        intros [[n kfs] ease]. reflexivity. }
    split; [|split; [|split; [|split; [|split]]]].
    + subst seen. rewrite Hv.
      destruct op; [contradiction | left | right; left | right; right];
        reflexivity.
    + exists en. split; [exact Hen | apply Hall; reflexivity].
    + rewrite Hd. reflexivity.
    + rewrite Hd. reflexivity.
    + exact Hl.
    + intros Hno.
      assert (Hcan : en = Canceled).
      { destruct en; [contradiction | | reflexivity].
        destruct (Htrack eq_refl) as [E|Hin]; [discriminate E | contradiction]. }
      split; [|apply Hall; symmetry; exact Hcan].
      subst seen en. rewrite Hv.
      destruct op; cbn in Hc |- *; try discriminate Hc; try contradiction;
        discriminate.
Qed.

Lemma C3_witness :
  let d := rendered nobody in
  let W := quiet 0 (Some button) in
  let sched := [Resume 1; Resume 1; FinishRun 1; Resume 1; Frame; Resume 0] in
  (Dialog.open d = false /\ Dialog.hasUpdated d = true
   /\ Dialog.listeners d "open" = false
   /\ Dialog.listeners d "close" = false)
  /\ (forall openFirst : bool,
        exists s',
          run (rapidToggle openFirst) (page [d] W) = Some s'
          /\ dispatchedOn 0 (log (world s'))
             = [intent "open" false; intent "close" false; completed "opened";
                completed "closed"]
          /\ Forall (fun e => status e
                              = if Nat.eqb (owner e) 0 then Canceled
                                else Finished)
               (effects (world s'))
          /\ map Dialog.display (dialogs s') = ["none"]
          /\ map Dialog.open (dialogs s') = [false]
          /\ lockCount (world s') = 0
          /\ pending s' = [])
  /\ exists s',
       forallb Toggle.internal sched = true
       /\ run (toOpening 0 ++ SetOpen 0 false :: sched) (page [d] W) = Some s'
       /\ pending s' = []
       /\ dispatchedOn 0 (log (world s'))
          = [intent "open" false; intent "close" false; completed "closed";
             completed "opened"]
       /\ (exists st,
             st <> Running
             /\ Forall (fun e => status e
                                 = if Nat.eqb (owner e) 0 then st else Finished)
                  (effects (world s')))
       /\ map Dialog.display (dialogs s') = ["none"]
       /\ map Dialog.open (dialogs s') = [false]
       /\ lockCount (world s') = 0.
Proof.
  intros d W sched.
  pose proof (C3_rapid_toggle d 0 (Some button) eq_refl eq_refl eq_refl eq_refl)
    as [Hfirst Hall].
  split; [repeat split|]. split; [exact Hfirst|].
  destruct (run (toOpening 0 ++ SetOpen 0 false :: sched) (page [d] W))
    as [s'|] eqn:Hr; [|vm_compute in Hr; discriminate].
  assert (Hp : pending s' = []).
  { vm_compute in Hr. injection Hr as <-. reflexivity. }
  assert (Hv : dispatchedOn 0 (log (world s'))
               = [intent "open" false; intent "close" false;
                  completed "closed"; completed "opened"]).
  { vm_compute in Hr. injection Hr as <-. reflexivity. }
  destruct (Hall sched s' eq_refl Hr Hp) as (_ & Hst & Hdis & Hop & Hlk & _).
  exists s'. repeat split; assumption.
Defined.

(** ** Order of notifications *)

(** C4 as stated fails for [closed]: when it is dispatched the focus is
    still on the panel and the restoring callback is only waiting in the
    timer queue; the trigger is focused by the next timeout, after
    [closed]. *)
Lemma C4_counterexample :
  option_map
    (fun s => (latest 1 (log (world s)), activeElement (world s),
               timers (world s)))
    (run (toOpening 0 ++ toOpen 0 ++ toClosing 0 ++ toClosed 1)
       (page [rendered nobody] (quiet 0 (Some button))))
  = Some ([Dispatched 0 (completed "closed")], Some (Panel 0),
          [FocusNode button])
  /\ option_map
       (fun s => (latest 2 (log (world s)), activeElement (world s)))
       (run (toOpening 0 ++ toOpen 0 ++ toClosing 0 ++ toClosed 1 ++ [RunTimer])
          (page [rendered nobody] (quiet 0 (Some button))))
     = Some ([Dispatched 0 (completed "closed"); Focused button], Some button).
Proof. split; vm_compute; reflexivity. Qed.

(** C4, amended: whenever a suspended handler is resumed.  After
    [whenDefined], a handler invoked after the first render dispatches its
    cancelable intent, [open] or [close], before anything else it does.
    [opened] is dispatched only once the entry run has settled.  [closed] is
    dispatched only once the exit run has settled, after [display] is set to
    [none], after the scroll lock is released and after the focus restore
    has been handed to [setTimeout]; the focus itself has not moved when
    [closed] is dispatched. *)
Theorem C4_order_of_notifications (s s' : Sys) (i : nat) (k : Dialog.Cont) :
  pending s !! i = Some k -> exec (Resume i) s = Some s' ->
  match k with
  | Dialog.AwaitDefined w true =>
      exists e rest,
        log (world s') = log (world s) ++ Dispatched w e :: rest
        /\ Event.cancelable e = true
        /\ (Event.type e = "open" \/ Event.type e = "close")
  | Dialog.AwaitOpenRun w true run =>
      settled run (world s) = true
      /\ log (world s')
         = log (world s) ++ [Dispatched w (completed "opened")]
  | Dialog.AwaitCloseRun w run =>
      settled run (world s) = true
      /\ exists cbs,
           log (world s')
           = log (world s)
               ++ [StyleDisplay w "none"; ScreenUnlocked w]
               ++ map TimeoutSet cbs
               ++ [Dispatched w (completed "closed")]
           /\ timers (world s') = timers (world s) ++ cbs
           /\ activeElement (world s') = activeElement (world s)
           /\ lockCount (world s') = lockCount (world s) - 1
  | _ => True
  end.
Proof.
  intros Hp He.
  destruct (exec_resume_inv i k s s' Hp He) as (d & r & d' & Hd & Hr & Hm).
  destruct k as [w [|]|w hu|w hu cs|w [|] run|w cs|w run]; try exact I.
  - cbn [Dialog.resume Dialog.afterDefined negb] in Hm.
    destruct (protocol_intent_first w d (world s)) as (k & d1 & W1 & rest & Hq & Hl).
    rewrite Hq in Hm. injection Hm as _ _ HW. rewrite <- HW.
    eexists. exists rest. split; [exact Hl|]. split; [reflexivity|].
    cbn [Event.type intent]. destruct (Dialog.open d); auto.
  - cbn [Dialog.resume] in Hm. rewrite finishOpen_closed in Hm.
    injection Hm as _ _ HW. rewrite <- HW. split; [exact Hr|reflexivity].
  - cbn [Dialog.resume] in Hm. rewrite finishClose_closed in Hm.
    injection Hm as _ _ HW. rewrite <- HW. split; [exact Hr|].
    exists (focusTimers (Dialog.originalTrigger d)).
    unfold closedWorld. cbn.
    rewrite <- !app_assoc. repeat split; reflexivity.
Qed.

Lemma C4_witness :
  let s := {| dialogs := [Dialog.set_open true (rendered nobody)];
              world := quiet 0 (Some button);
              pending := [Dialog.AwaitDefined 0 true] |} in
  exists s',
    exec (Resume 0) s = Some s'
    /\ exists e rest,
         log (world s') = log (world s) ++ Dispatched 0 e :: rest
         /\ Event.cancelable e = true
         /\ (Event.type e = "open" \/ Event.type e = "close").
Proof.
  intros s.
  destruct (exec (Resume 0) s) as [s'|] eqn:He; [|vm_compute in He; discriminate].
  exists s'. split; [reflexivity|].
  exact (C4_order_of_notifications s s' 0 (Dialog.AwaitDefined 0 true)
           eq_refl He).
Defined.

(** ** The life of a dialog *)

(** C5: a rendered, closed dialog whose listeners cancel nothing, with the
    focus on a node [a] that has a [focus] function.  Setting [open = true]
    dispatches the cancelable [open] and starts the entry run; until that run
    has settled the handler cannot go on; then [opened] is dispatched.
    Setting [open = false] dispatches the cancelable [close] and starts the
    exit run; once it has settled, [display] is [none] and [closed] is
    dispatched; the timeout set by the handler then gives the focus back to
    [a]. *)
Theorem C5_dialog_lifecycle (d : Dialog.t) (c : Z) (a : Node) :
  Dialog.open d = false -> Dialog.hasUpdated d = true ->
  Dialog.listeners d "open" = false -> Dialog.listeners d "close" = false ->
  hasFocusFunction (Some a) = true ->
  exists s1 s2 s3 s4 s5,
    run (toOpening 0) (page [d] (quiet c (Some a))) = Some s1
    /\ log (world s1) !! 0%nat = Some (Dispatched 0 (intent "open" false))
    /\ dispatchedOn 0 (log (world s1)) = [intent "open" false]
    /\ exec (Resume 0) s1 = None
    /\ run (toOpen 0) s1 = Some s2
    /\ dispatchedOn 0 (log (world s2))
       = [intent "open" false; completed "opened"]
    /\ run (toClosing 0) s2 = Some s3
    /\ dispatchedOn 0 (log (world s3))
       = [intent "open" false; completed "opened"; intent "close" false]
    /\ exec (Resume 0) s3 = None
    /\ run (toClosed 1) s3 = Some s4
    /\ dispatchedOn 0 (log (world s4))
       = [intent "open" false; completed "opened"; intent "close" false;
          completed "closed"]
    /\ map Dialog.display (dialogs s4) = ["none"]
    /\ run [RunTimer] s4 = Some s5
    /\ activeElement (world s5) = Some a.
Proof.
  intros Ho Hu Hlo Hlc Hf.
  destruct d as [o u disp mt ot cs af tabs ls gd ge].
  cbn in Ho, Hu, Hlo, Hlc. subst o u.
  unfold toOpening, toOpen, toClosing, toClosed, page.
  destruct tabs as [|[n|] tabs].
  all: do 5 eexists.
  all: split; [opening; arrived|].
  all: split; [reflexivity|].
  all: split; [dispatched; reflexivity|].
  all: split; [blocked entryRun_unsettled|].
  all: split;
    [advance ltac:(eapply exec_frame_initial; reflexivity); settle_open; arrived|].
  all: split; [dispatched; reflexivity|].
  all: split; [closing; arrived|].
  all: split; [dispatched; reflexivity|].
  all: split; [blocked exitRun_unsettled|].
  all: split; [settle_close_focus; arrived|].
  all: split; [dispatched; reflexivity|].
  all: split; [reflexivity|].
  all: split;
    [advance ltac:(eapply exec_timeout_focus; reflexivity); arrived|].
  all: reflexivity.
Qed.

Lemma C5_witness :
  (Dialog.open (rendered nobody) = false
   /\ Dialog.hasUpdated (rendered nobody) = true
   /\ Dialog.listeners (rendered nobody) "open" = false
   /\ Dialog.listeners (rendered nobody) "close" = false
   /\ hasFocusFunction (Some button) = true)
  /\ exists s1 s2 s3 s4 s5,
    run (toOpening 0) (page [rendered nobody] (quiet 0 (Some button))) = Some s1
    /\ log (world s1) !! 0%nat = Some (Dispatched 0 (intent "open" false))
    /\ dispatchedOn 0 (log (world s1)) = [intent "open" false]
    /\ exec (Resume 0) s1 = None
    /\ run (toOpen 0) s1 = Some s2
    /\ dispatchedOn 0 (log (world s2))
       = [intent "open" false; completed "opened"]
    /\ run (toClosing 0) s2 = Some s3
    /\ dispatchedOn 0 (log (world s3))
       = [intent "open" false; completed "opened"; intent "close" false]
    /\ exec (Resume 0) s3 = None
    /\ run (toClosed 1) s3 = Some s4
    /\ dispatchedOn 0 (log (world s4))
       = [intent "open" false; completed "opened"; intent "close" false;
          completed "closed"]
    /\ map Dialog.display (dialogs s4) = ["none"]
    /\ run [RunTimer] s4 = Some s5
    /\ activeElement (world s5) = Some button.
Proof.
  split; [repeat split|].
  apply (C5_dialog_lifecycle (rendered nobody) 0 button); reflexivity.
Defined.

(** ** Scroll-driven bottom bar *)

(** C6: what [runScrollThreshold] does.  A downward signal on a shown bar
    dispatches [hide] and sets the flag, an upward signal on a hidden bar
    dispatches [show] and clears it, and a signal in the direction the bar
    already went dispatches nothing.  Both events are dispatched without the
    cancelable option: whatever the listeners do, the event comes back with
    [defaultPrevented = false] and the flag is flipped. *)
Theorem C6_scroll_intents_are_not_cancelable (ls : string -> bool) (fd : bool) :
  let shown := {| BottomAppBar.hide := false; BottomAppBar.fabDetach := fd;
                  BottomAppBar.listeners := ls |} in
  let hidden := {| BottomAppBar.hide := true; BottomAppBar.fabDetach := fd;
                   BottomAppBar.listeners := ls |} in
  BottomAppBar.runScrollThreshold false shown
    = (hidden, [{| Event.type := "hide"; Event.cancelable := false;
                   Event.defaultPrevented := false |}])
  /\ BottomAppBar.runScrollThreshold false hidden = (hidden, [])
  /\ BottomAppBar.runScrollThreshold true hidden
    = (shown, [{| Event.type := "show"; Event.cancelable := false;
                  Event.defaultPrevented := false |}])
  /\ BottomAppBar.runScrollThreshold true shown = (shown, []).
Proof. repeat split. Qed.

(** C6 at the failing input: a listener vetoes [hide], yet the bar hides. *)
Example C6_veto_is_ignored :
  BottomAppBar.hide
    (fst (BottomAppBar.runScrollThreshold false
            {| BottomAppBar.hide := false; BottomAppBar.fabDetach := false;
               BottomAppBar.listeners := everybody |})) = true.
Proof. reflexivity. Qed.

(** ** The scroll lock across dialogs *)

(** C7: two rendered, closed dialogs on a page whose scroll-lock counter is
    zero.  Opening the first brings the counter to one, opening the second
    to two.  Closing either of them while the other stays open leaves the
    counter at one: scrolling is still locked.  Closing the other one too
    brings it back to zero: scrolling is unlocked. *)
Theorem C7_scroll_lock_composes (d0 d1 : Dialog.t) (a : option Node)
    (firstClosed : bool) :
  Dialog.open d0 = false -> Dialog.hasUpdated d0 = true ->
  Dialog.listeners d0 "open" = false -> Dialog.listeners d0 "close" = false ->
  Dialog.open d1 = false -> Dialog.hasUpdated d1 = true ->
  Dialog.listeners d1 "open" = false -> Dialog.listeners d1 "close" = false ->
  let x := if firstClosed then 0%nat else 1%nat in
  exists s1 s2 s3 s4,
    run (toOpening 0 ++ toOpen 0) (page [d0; d1] (quiet 0 a)) = Some s1
    /\ lockCount (world s1) = 1
    /\ run (toOpening 1 ++ toOpen 1) s1 = Some s2
    /\ lockCount (world s2) = 2
    /\ run (toClosing x ++ toClosed 2) s2 = Some s3
    /\ lockCount (world s3) = 1
    /\ scrollLocked (world s3) = true
    /\ run (toClosing (1 - x) ++ toClosed 3) s3 = Some s4
    /\ lockCount (world s4) = 0
    /\ scrollLocked (world s4) = false.
Proof.
  intros Ho0 Hu0 Hlo0 Hlc0 Ho1 Hu1 Hlo1 Hlc1.
  destruct d0 as [o0 u0 disp0 mt0 ot0 cs0 af0 tabs0 ls0 gd0 ge0].
  destruct d1 as [o1 u1 disp1 mt1 ot1 cs1 af1 tabs1 ls1 gd1 ge1].
  cbn in Ho0, Hu0, Hlo0, Hlc0, Ho1, Hu1, Hlo1, Hlc1. subst o0 u0 o1 u1.
  unfold toOpening, toOpen, toClosing, toClosed, page.
  destruct tabs0 as [|[n0|] tabs0]; destruct tabs1 as [|[n1|] tabs1];
    destruct firstClosed; cbn [app Nat.sub].
  all: do 4 eexists.
  all: split;
    [opening; advance ltac:(eapply exec_frame_initial; reflexivity);
     settle_open; arrived|].
  all: split; [reflexivity|].
  all: split;
    [opening; advance ltac:(eapply exec_frame_initial; reflexivity);
     settle_open; arrived|].
  all: split; [reflexivity|].
  all: split; [closing; settle_close; arrived|].
  all: split; [reflexivity|].
  all: split; [reflexivity|].
  all: split; [closing; settle_close; arrived|].
  all: split; reflexivity.
Qed.

Lemma C7_witness :
  exists s1 s2 s3 s4,
    run (toOpening 0 ++ toOpen 0)
      (page [rendered nobody; rendered nobody] (quiet 0 (Some button))) = Some s1
    /\ lockCount (world s1) = 1
    /\ run (toOpening 1 ++ toOpen 1) s1 = Some s2
    /\ lockCount (world s2) = 2
    /\ run (toClosing 0 ++ toClosed 2) s2 = Some s3
    /\ lockCount (world s3) = 1
    /\ scrollLocked (world s3) = true
    /\ run (toClosing (1 - 0) ++ toClosed 3) s3 = Some s4
    /\ lockCount (world s4) = 0
    /\ scrollLocked (world s4) = false.
Proof.
  apply (C7_scroll_lock_composes (rendered nobody) (rendered nobody)
           (Some button) true); reflexivity.
Defined.

(** ** Superseding a transition *)

(** C8 as stated fails.  Two writes of the flag while the entry run is
    in flight leave two handlers that both take the open branch: the first
    cancels the run in flight, the second finds nothing to cancel, and each
    starts its own run, so that two runs are in flight together on the same
    nodes.  The same happens without any run in flight, when the flag is
    written twice while the first handler still awaits [whenDefined]. *)
Lemma C8_counterexample :
  option_map (fun s => overlapping (world s))
    (run flipsInFlight (page [rendered nobody] (quiet 0 (Some button))))
  = Some true
  /\ option_map (fun s => overlapping (world s))
       (run doubleFlip (page [rendered nobody] (quiet 0 (Some button))))
     = Some true.
Proof. split; vm_compute; reflexivity. Qed.

(** C8, amended: a handler that passes its intent halts every effect
    running on overlay, panel and children in the same stretch, without
    awaiting them: when it suspends, these nodes are idle.  No step of the
    event loop other than the start of a run puts a running effect on idle
    nodes.  When the handler is resumed with these nodes still idle it
    starts its run, and every effect then running on them belongs to that
    run: the new run does not overlap the one it superseded. *)
Theorem C8_new_run_starts_on_idle_nodes
    (w : nat) (hu : bool) (d d1 : Dialog.t) (W W1 : World) (k : Dialog.Cont) :
  Dialog.protocol w hu (d, W) = (Some k, (d1, W1)) ->
  let ns := animated w (Dialog.children d) in
  idle ns W1 = true
  /\ (forall st s s',
        exec st s = Some s' -> startsRun st s = false ->
        idle ns (world s) = true -> idle ns (world s') = true)
  /\ forall d2 W2,
       idle ns W2 = true ->
       exists k' d3 W3,
         Dialog.resume k (d2, W2) = (Some k', (d3, W3))
         /\ (k' = Dialog.AwaitOpenRun w hu (nextRun W2)
             \/ k' = Dialog.AwaitCloseRun w (nextRun W2))
         /\ onlyRun (nextRun W2) ns W3 = true.
Proof.
  intros H ns.
  destruct (protocol_suspends w hu d W k d1 W1 H) as [Hk [W0 HW]].
  split; [rewrite HW; apply idle_stopped|].
  split; [intros st s s'; apply idle_step|].
  intros d2 W2 Hi. destruct Hk as [-> | ->]; cbn [Dialog.resume].
  - rewrite startOpenRun_closed. do 3 eexists.
    split; [reflexivity|]. split; [left; reflexivity|].
    apply onlyRun_entryRun. exact Hi.
  - rewrite startCloseRun_closed. do 3 eexists.
    split; [reflexivity|]. split; [right; reflexivity|].
    apply onlyRun_exitRun. exact Hi.
Qed.

Lemma C8_witness :
  let d := Dialog.set_open true (rendered nobody) in
  let W := quiet 0 (Some button) in
  let ns := animated 0 (Dialog.children d) in
  exists k d1 W1,
    Dialog.protocol 0 true (d, W) = (Some k, (d1, W1))
    /\ idle ns W1 = true
    /\ (forall st s s',
          exec st s = Some s' -> startsRun st s = false ->
          idle ns (world s) = true -> idle ns (world s') = true)
    /\ forall d2 W2,
         idle ns W2 = true ->
         exists k' d3 W3,
           Dialog.resume k (d2, W2) = (Some k', (d3, W3))
           /\ (k' = Dialog.AwaitOpenRun 0 true (nextRun W2)
               \/ k' = Dialog.AwaitCloseRun 0 (nextRun W2))
           /\ onlyRun (nextRun W2) ns W3 = true.
Proof.
  intros d W ns.
  destruct (Dialog.protocol 0 true (d, W)) as [[k|] [d1 W1]] eqn:Hp;
    [|vm_compute in Hp; discriminate].
  exists k, d1, W1. split; [reflexivity|].
  exact (C8_new_run_starts_on_idle_nodes 0 true d d1 W W1 k Hp).
Defined.

(** ** Removal from the document *)



(** ** Select *)

(** C10 as stated fails: a single select whose value was set to an array
    before connection keeps the array. *)
Lemma C10_counterexample :
  let s := {| Select.multiple := false; Select.value := Select.VArray ["a"];
              Select.defaultValue := Select.VString EmptyString |} in
  Select.agrees (Select.multiple (Select.connectedCallback s))
                (Select.value (Select.connectedCallback s)) = false.
Proof. reflexivity. Qed.

(** C10, amended: [connectedCallback] keeps [multiple]; with [multiple] a
    string value becomes [[]] when empty and a one-element array otherwise,
    and an array is kept; without [multiple] the value is left as it was.
    [defaultValue] becomes [[]] or [''] and always agrees with [multiple];
    the value agrees with [multiple] exactly when [multiple] is set or the
    value was a string. *)
Theorem C10_connected_value (s : Select.t) :
  let s' := Select.connectedCallback s in
  Select.multiple s' = Select.multiple s
  /\ Select.value s'
     = (if Select.multiple s then
          match Select.value s with
          | Select.VString EmptyString => Select.VArray []
          | Select.VString str => Select.VArray [str]
          | Select.VArray l => Select.VArray l
          end
        else Select.value s)
  /\ Select.defaultValue s'
     = (if Select.multiple s then Select.VArray [] else Select.VString EmptyString)
  /\ Select.agrees (Select.multiple s') (Select.defaultValue s') = true
  /\ Select.agrees (Select.multiple s') (Select.value s')
     = Select.multiple s || Select.isString (Select.value s).
Proof.
  destruct s as [m v dv]. unfold Select.connectedCallback. simpl.
  destruct m, v as [[|ch str]|l]; simpl; repeat split; reflexivity.
Qed.

(** * Beyond the claims *)

(** ** A scroll session on the bottom bar *)

Lemma runScrollThreshold_closed isScrollingUp bar :
  BottomAppBar.runScrollThreshold isScrollingUp bar
  = (BottomAppBar.set_hide (negb isScrollingUp) bar,
     if Bool.eqb (BottomAppBar.hide bar) (negb isScrollingUp) then []
     else [completed (if isScrollingUp then "show" else "hide")]).
Proof. destruct bar as [[] fd ls], isScrollingUp; reflexivity. Qed.

Lemma last_cons {A} (x : A) l d : List.last (x :: l) d = List.last l x.
Proof.
  revert x d. induction l as [|y l IH]; intros x d; [reflexivity|].
  change (List.last (y :: l) d = List.last (y :: l) x).
  rewrite !IH. reflexivity.
Qed.

Lemma alternates_cons a b l :
  Scrolling.alternates (a :: b :: l)
  = negb (String.eqb a b) && Scrolling.alternates (b :: l).
Proof. reflexivity. Qed.

Lemma scrollAll_head signals bar bar' out :
  Scrolling.scrollAll signals bar = (bar', out) ->
  BottomAppBar.listeners bar' = BottomAppBar.listeners bar
  /\ BottomAppBar.fabDetach bar' = BottomAppBar.fabDetach bar
  /\ BottomAppBar.hide bar' = negb (List.last signals (negb (BottomAppBar.hide bar)))
  /\ (length out <= length signals)%nat
  /\ Forall (fun e => e = completed "hide" \/ e = completed "show") out
  /\ Scrolling.alternates (map Event.type out) = true
  /\ (forall e rest, out = e :: rest ->
        Event.type e = if BottomAppBar.hide bar then "show" else "hide").
Proof.
  revert bar bar' out.
  induction signals as [|up rest IH]; intros bar bar' out H; cbn [Scrolling.scrollAll] in H.
  - injection H as <- <-. cbn [List.last length]. rewrite negb_involutive.
    repeat split; try constructor. intros e rest Hout. discriminate.
  - rewrite runScrollThreshold_closed in H.
    destruct (Scrolling.scrollAll rest (BottomAppBar.set_hide (negb up) bar))
      as [bar2 out2] eqn:Hr.
    injection H as <- <-.
    destruct (IH _ _ _ Hr) as (Hl & Hf & Hh & Hn & Ha & Halt & Hfirst).
    cbn [BottomAppBar.set_hide BottomAppBar.listeners BottomAppBar.fabDetach
         BottomAppBar.hide] in Hl, Hf, Hh, Hfirst.
    split; [exact Hl|]. split; [exact Hf|].
    split.
    { rewrite Hh, negb_involutive, last_cons. reflexivity. }
    destruct (Bool.eqb (BottomAppBar.hide bar) (negb up)) eqn:Hsame;
      cbn [app length].
    + split; [lia|]. split; [exact Ha|]. split; [exact Halt|].
      intros e rest' Hout. rewrite (Hfirst e rest' Hout).
      apply eqb_prop in Hsame. rewrite Hsame. reflexivity.
    + split; [lia|].
      split; [constructor; [destruct up; auto|exact Ha]|].
      split.
      * destruct out2 as [|e2 out2']; [reflexivity|].
        cbn [map] in Halt |- *. rewrite alternates_cons, Halt.
        rewrite (Hfirst e2 out2' eq_refl). destruct up; reflexivity.
      * intros e rest' Hout. injection Hout as <- _.
        destruct (BottomAppBar.hide bar), up; try discriminate; reflexivity.
Qed.

(** X1: a whole scroll session.  After any sequence of scroll signals the
    bar is hidden exactly when the last signal was downwards (and is as it
    was when there was no signal).  The session dispatches at most one event
    per signal; every event is [hide] or [show], not cancelable and never
    prevented; [hide] and [show] alternate, and the first event is [show] on
    a bar that was hidden and [hide] on a bar that was shown. *)
Theorem X1_scroll_session (signals : list bool) (bar : BottomAppBar.t) :
  let bar' := fst (Scrolling.scrollAll signals bar) in
  let out := snd (Scrolling.scrollAll signals bar) in
  BottomAppBar.hide bar' = negb (List.last signals (negb (BottomAppBar.hide bar)))
  /\ (length out <= length signals)%nat
  /\ Forall (fun e => e = completed "hide" \/ e = completed "show") out
  /\ Scrolling.alternates (map Event.type out) = true
  /\ match out with
     | [] => True
     | e :: _ => Event.type e = if BottomAppBar.hide bar then "show" else "hide"
     end.
Proof.
  destruct (Scrolling.scrollAll signals bar) as [bar' out] eqn:H.
  destruct (scrollAll_head signals bar bar' out H)
    as (_ & _ & Hh & Hn & Ha & Halt & Hfirst).
  cbn [fst snd]. repeat split; try assumption.
  destruct out as [|e rest]; [exact I|]. exact (Hfirst e rest eq_refl).
Qed.

(** X2: the end of the transition.  When the transition that follows a
    scroll signal ends on the bar itself, exactly one event is dispatched:
    [hidden] after a downward signal, [shown] after an upward one, not
    cancelable, whatever the bar was before and whatever its listeners do.
    A [transitionend] that bubbles up from a descendant dispatches
    nothing. *)
Theorem X2_transition_end_reports_the_last_signal
    (isScrollingUp : bool) (bar : BottomAppBar.t) :
  let bar' := fst (BottomAppBar.runScrollThreshold isScrollingUp bar) in
  Scrolling.onTransitionEnd true bar'
  = [completed (if isScrollingUp then "shown" else "hidden")]
  /\ Scrolling.onTransitionEnd false bar' = [].
Proof.
  rewrite runScrollThreshold_closed. cbn [fst].
  destruct bar as [h fd ls], isScrollingUp; split; reflexivity.
Qed.

(** ** The width handler of the fab *)

(** X3: the width handler after the first render.  Whatever the element
    measures afterwards, the handler ends; it writes the width exactly once,
    the scroll width read when the flag changed for an extended fab and the
    empty width for a collapsed one, and it never touches the transition
    property. *)
Theorem X3_fab_change_after_first_render (f : Fab.t) (measure : N) :
  Fab.hasUpdated f = true ->
  let v := if Fab.extended f then Some (Fab.scrollWidth f) else None in
  exists f',
    Fab.runToEnd measure f = Some (f', [Fab.WriteWidth v])
    /\ Fab.width f' = v
    /\ Fab.transitionProperty f' = Fab.transitionProperty f
    /\ Fab.extended f' = Fab.extended f.
Proof.
  intros Hu. destruct f as [e u sw wd tp]. cbn in Hu. subst u.
  destruct e; eexists; (split; [reflexivity|]); repeat split.
Qed.

Lemma X3_witness :
  Fab.hasUpdated (Fab.rendered 80 extendedFab) = true
  /\ exists f',
       Fab.runToEnd 120 (Fab.rendered 80 extendedFab)
       = Some (f', [Fab.WriteWidth (Some 80%N)])
       /\ Fab.width f' = Some 80%N
       /\ Fab.transitionProperty f'
          = Fab.transitionProperty (Fab.rendered 80 extendedFab)
       /\ Fab.extended f' = Fab.extended (Fab.rendered 80 extendedFab).
Proof.
  split; [reflexivity|].
  apply (X3_fab_change_after_first_render (Fab.rendered 80 extendedFab) 120).
  reflexivity.
Defined.

(** X4: a fab that is collapsed at its first render.  The handler clears
    the width once, never measures the element, and installs the transition
    property as its last write, two suspensions later. *)
Theorem X4_fab_collapsed_first_render (f : Fab.t) (measure : N) :
  Fab.hasUpdated f = false -> Fab.extended f = false ->
  exists f',
    Fab.runToEnd measure f
    = Some (f', [Fab.WriteWidth None;
                 Fab.WriteTransitionProperty
                   "box-shadow, width, bottom, transform"])
    /\ Fab.width f' = None
    /\ Fab.transitionProperty f' = Some "box-shadow, width, bottom, transform".
Proof.
  intros Hu He. destruct f as [e u sw wd tp]. cbn in Hu, He. subst u e.
  eexists. split; [reflexivity|]. split; reflexivity.
Qed.

Lemma X4_witness :
  let f := {| Fab.extended := false; Fab.hasUpdated := false;
              Fab.scrollWidth := 56; Fab.width := Some 56%N;
              Fab.transitionProperty := None |} in
  (Fab.hasUpdated f = false /\ Fab.extended f = false)
  /\ exists f',
    Fab.runToEnd 56 f
    = Some (f', [Fab.WriteWidth None;
                 Fab.WriteTransitionProperty
                   "box-shadow, width, bottom, transform"])
    /\ Fab.width f' = None
    /\ Fab.transitionProperty f' = Some "box-shadow, width, bottom, transform".
Proof.
  split; [split; reflexivity|].
  apply (X4_fab_collapsed_first_render
           {| Fab.extended := false; Fab.hasUpdated := false;
              Fab.scrollWidth := 56; Fab.width := Some 56%N;
              Fab.transitionProperty := None |} 56); reflexivity.
Defined.

(** ** The values of a select *)

Lemma includes_In l x : SelectMore.includes l x = true <-> In x l.
Proof.
  unfold SelectMore.includes. rewrite existsb_exists. split.
  - intros [y [Hy He]]. apply String.eqb_eq in He. subst y. exact Hy.
  - intros H. exists x. split; [exact H | apply String.eqb_refl].
Qed.

Lemma indexOf_absent l x : ~ In x l -> SelectMore.indexOf l x = -1.
Proof.
  induction l as [|y l IH]; intros H; [reflexivity|].
  cbn [SelectMore.indexOf].
  destruct (String.eqb y x) eqn:E.
  - apply String.eqb_eq in E. subst y. exfalso. apply H. left. reflexivity.
  - rewrite IH; [reflexivity|]. intros Hin. apply H. right. exact Hin.
Qed.

Lemma indexOf_first l1 x l2 :
  ~ In x l1 -> SelectMore.indexOf (l1 ++ x :: l2) x = Z.of_nat (length l1).
Proof.
  induction l1 as [|y l1 IH]; intros H; cbn [app SelectMore.indexOf length].
  - rewrite String.eqb_refl. reflexivity.
  - destruct (String.eqb y x) eqn:E.
    + apply String.eqb_eq in E. subst y. exfalso. apply H. left. reflexivity.
    + rewrite IH by (intros Hin; apply H; right; exact Hin).
      destruct (Z.ltb_spec (Z.of_nat (length l1)) 0); lia.
Qed.

Lemma splice1_at l1 (x : string) l2 :
  SelectMore.splice1 (Z.of_nat (length l1)) (l1 ++ x :: l2) = l1 ++ l2.
Proof.
  unfold SelectMore.splice1.
  destruct (Z.ltb_spec (Z.of_nat (length l1)) 0); [lia|].
  rewrite length_app. cbn [length].
  rewrite Z.min_l by lia. rewrite Nat2Z.id. clear.
  induction l1 as [|y l1 IH]; [reflexivity|].
  cbn [app length]. cbn [delete list_delete]. f_equal. exact IH.
Qed.

Lemma removed_first before (valueItem : string) after :
  ~ In valueItem before ->
  SelectMore.includes (before ++ valueItem :: after) valueItem = true
  /\ SelectMore.splice1
       (SelectMore.indexOf (before ++ valueItem :: after) valueItem)
       (before ++ valueItem :: after)
     = before ++ after.
Proof.
  intros Hb. split.
  - apply includes_In, in_or_app. right. left. reflexivity.
  - rewrite indexOf_first by exact Hb. apply splice1_at.
Qed.

(** X5: the delete button of a chip.  When the value holds the item, the
    new value is the old one without the first occurrence of the item:
    everything before it and everything after it, later occurrences
    included, stays in place.  The other fields are not touched. *)
Theorem X5_delete_removes_first_occurrence
    (s : Select.t) (valueItem : string) (before after : list string) :
  SelectMore.spread (Select.value s) = before ++ valueItem :: after ->
  ~ In valueItem before ->
  SelectMore.onDeleteOneValue valueItem s
  = {| Select.multiple := Select.multiple s;
       Select.value := Select.VArray (before ++ after);
       Select.defaultValue := Select.defaultValue s |}.
Proof.
  intros Hv Hb. unfold SelectMore.onDeleteOneValue. rewrite Hv.
  destruct (removed_first before valueItem after Hb) as [Hi Hs].
  rewrite Hi, Hs. reflexivity.
Qed.

Lemma X5_witness :
  let s := {| Select.multiple := true;
              Select.value := Select.VArray ["a"; "b"; "c"; "b"];
              Select.defaultValue := Select.VArray [] |} in
  (SelectMore.spread (Select.value s) = ["a"] ++ "b" :: ["c"; "b"]
   /\ ~ In "b" ["a"])
  /\ SelectMore.onDeleteOneValue "b" s
     = {| Select.multiple := true;
          Select.value := Select.VArray (["a"] ++ ["c"; "b"]);
          Select.defaultValue := Select.VArray [] |}.
Proof.
  split.
  - split; [reflexivity|]. intros [H|[]]. discriminate H.
  - apply (X5_delete_removes_first_occurrence
             {| Select.multiple := true;
                Select.value := Select.VArray ["a"; "b"; "c"; "b"];
                Select.defaultValue := Select.VArray [] |}
             "b" ["a"] ["c"; "b"]).
    + reflexivity.
    + intros [H|[]]. discriminate H.
Defined.

Lemma codePoints_ascii (a b : Ascii.ascii) :
  SelectMore.isContinuation b = false ->
  SelectMore.codePoints (String a (String b EmptyString))
  = [String a EmptyString; String b EmptyString].
Proof. intros H. cbn. rewrite H. reflexivity. Qed.

Lemma codePoints_two_bytes (a b : Ascii.ascii) :
  SelectMore.isContinuation b = true ->
  SelectMore.codePoints (String a (String b EmptyString))
  = [String a (String b EmptyString)].
Proof. intros H. cbn. rewrite H. reflexivity. Qed.

(** X6: the delete button for an item the value does not hold.  Nothing is
    removed, not even the last element (which [splice] would remove at index
    [-1]); the value comes out as an array in any case, so a string value is
    replaced by the array of its code points. *)
Theorem X6_delete_of_absent_item (s : Select.t) (valueItem : string) :
  ~ In valueItem (SelectMore.spread (Select.value s)) ->
  Select.value (SelectMore.onDeleteOneValue valueItem s)
  = Select.VArray (SelectMore.spread (Select.value s))
  /\ Select.isString (Select.value (SelectMore.onDeleteOneValue valueItem s))
     = false.
Proof.
  intros H. unfold SelectMore.onDeleteOneValue.
  destruct (SelectMore.includes (SelectMore.spread (Select.value s)) valueItem)
    eqn:E.
  - apply includes_In in E. contradiction.
  - split; reflexivity.
Qed.

Lemma X6_witness :
  let e_acute := String (Ascii.ascii_of_nat 195)
                   (String (Ascii.ascii_of_nat 169) EmptyString) in
  let s := {| Select.multiple := false;
              Select.value := Select.VString (e_acute ++ "b");
              Select.defaultValue := Select.VString EmptyString |} in
  ~ In "c" (SelectMore.spread (Select.value s))
  /\ Select.value (SelectMore.onDeleteOneValue "c" s)
     = Select.VArray (SelectMore.spread (Select.value s))
  /\ Select.isString (Select.value (SelectMore.onDeleteOneValue "c" s)) = false.
Proof.
  cbv zeta.
  assert (H : ~ In "c"
                (SelectMore.spread
                   (Select.VString
                      (String (Ascii.ascii_of_nat 195)
                         (String (Ascii.ascii_of_nat 169) EmptyString)
                       ++ "b")))).
  { intros [H|[H|[]]]; discriminate H. }
  split; [exact H|].
  apply (X6_delete_of_absent_item
           {| Select.multiple := false;
              Select.value :=
                Select.VString
                  (String (Ascii.ascii_of_nat 195)
                     (String (Ascii.ascii_of_nat 169) EmptyString)
                   ++ "b");
              Select.defaultValue := Select.VString EmptyString |} "c").
  exact H.
Defined.

(** X7: clearing a connected select.  Whatever the select was before it
    was connected, the clear button sets the value to the default value the
    connection installed, a value of the type the [multiple] flag asks for,
    and the field is rendered without a selection. *)
Theorem X7_clear_gives_the_connected_default (s : Select.t) :
  let c := SelectMore.onClear (Select.connectedCallback s) in
  Select.value c = Select.defaultValue (Select.connectedCallback s)
  /\ Select.agrees (Select.multiple c) (Select.value c) = true
  /\ SelectMore.hasSelection c = false
  /\ Select.multiple c = Select.multiple s.
Proof. destruct s as [[] v dv]; repeat split. Qed.

Lemma first_occurrence (x : string) l :
  In x l -> exists l1 l2, l = l1 ++ x :: l2 /\ ~ In x l1.
Proof.
  induction l as [|y l IH]; intros H; [contradiction|].
  destruct (String.eqb y x) eqn:E.
  - apply String.eqb_eq in E. subst y. exists [], l. split; [reflexivity|].
    intros [].
  - apply String.eqb_neq in E. destruct H as [H|H]; [contradiction|].
    destruct (IH H) as (l1 & l2 & -> & Hn). exists (y :: l1), l2.
    split; [reflexivity|]. intros [H1|H1]; [contradiction | exact (Hn H1)].
Qed.

(** X8: when the last chip goes.  With [multiple] set and an array value,
    the field is rendered with a selection exactly when the array is not
    empty; after the delete button of a chip there is no selection left
    exactly when the value was empty or held nothing but that one item. *)
Theorem X8_selection_after_delete
    (s : Select.t) (valueItem : string) (l : list string) :
  Select.multiple s = true ->
  Select.value s = Select.VArray l ->
  (SelectMore.hasSelection s = false <-> l = [])
  /\ (SelectMore.hasSelection (SelectMore.onDeleteOneValue valueItem s) = false
      <-> l = [] \/ l = [valueItem]).
Proof.
  intros Hm Hv. split.
  - unfold SelectMore.hasSelection. rewrite Hm, Hv.
    destruct l; cbn; split; intros H; (reflexivity || discriminate).
  - destruct (SelectMore.includes l valueItem) eqn:Hi.
    + apply includes_In in Hi.
      destruct (first_occurrence valueItem l Hi) as (l1 & l2 & -> & Hn).
      destruct (removed_first l1 valueItem l2 Hn) as [Hi' Hs].
      unfold SelectMore.onDeleteOneValue, SelectMore.hasSelection.
      rewrite Hv. cbn [SelectMore.spread]. rewrite Hi', Hs.
      cbn [Select.multiple Select.value]. rewrite Hm. destruct l1 as [|a l1]; [destruct l2 as [|b l2]|]; cbn;
        split; intros H; try reflexivity; try discriminate.
      * right. reflexivity.
      * destruct H as [H|H]; discriminate.
      * destruct H as [H|H]; [discriminate|].
        injection H as -> H. destruct l1; discriminate.
    + assert (Hn : ~ In valueItem l).
      { intros H. apply includes_In in H. rewrite H in Hi. discriminate. }
      unfold SelectMore.onDeleteOneValue, SelectMore.hasSelection.
      rewrite Hv. cbn [SelectMore.spread]. rewrite Hi.
      cbn [Select.multiple Select.value]. rewrite Hm.
      destruct l as [|a l]; cbn; split; intros H;
        try reflexivity; try discriminate.
      * left. reflexivity.
      * destruct H as [H|H]; [discriminate|].
        injection H as -> _. exfalso. apply Hn. left. reflexivity.
Qed.

Lemma X8_witness :
  let s := {| Select.multiple := true; Select.value := Select.VArray ["a"];
              Select.defaultValue := Select.VArray [] |} in
  (Select.multiple s = true /\ Select.value s = Select.VArray ["a"])
  /\ (SelectMore.hasSelection s = false <-> ["a"] = [])
  /\ (SelectMore.hasSelection (SelectMore.onDeleteOneValue "a" s) = false
      <-> ["a"] = [] \/ ["a"] = ["a"]).
Proof.
  split; [split; reflexivity|].
  apply (X8_selection_after_delete
           {| Select.multiple := true; Select.value := Select.VArray ["a"];
              Select.defaultValue := Select.VArray [] |} "a" ["a"]);
    reflexivity.
Defined.

Lemma find_first_carrier (menuItems before after : list SelectMore.MenuItem)
    (item : SelectMore.MenuItem) (valueItem : string) :
  menuItems = before ++ item :: after ->
  Forall (fun i => SelectMore.itemValue i <> Some valueItem) before ->
  SelectMore.itemValue item = Some valueItem ->
  find (SelectMore.hasValue valueItem) menuItems = Some item.
Proof.
  intros -> Hb Hi. induction before as [|i before IH]; cbn [app find].
  - unfold SelectMore.hasValue. rewrite Hi, String.eqb_refl. reflexivity.
  - inversion Hb as [|? ? Hn Hb']; subst.
    replace (SelectMore.hasValue valueItem i) with false; [exact (IH Hb')|].
    unfold SelectMore.hasValue.
    destruct (SelectMore.itemValue i) as [v|]; [|reflexivity].
    destruct (String.eqb v valueItem) eqn:E; [|reflexivity].
    apply String.eqb_eq in E. subst v. contradiction.
Qed.

Lemma find_no_carrier (menuItems : list SelectMore.MenuItem) (valueItem : string) :
  Forall (fun i => SelectMore.itemValue i <> Some valueItem) menuItems ->
  find (SelectMore.hasValue valueItem) menuItems = None.
Proof.
  induction 1 as [|i l Hn _ IH]; [reflexivity|]. cbn [find].
  replace (SelectMore.hasValue valueItem i) with false; [exact IH|].
  unfold SelectMore.hasValue.
  destruct (SelectMore.itemValue i) as [v|]; [|reflexivity].
  destruct (String.eqb v valueItem) eqn:E; [|reflexivity].
  apply String.eqb_eq in E. subst v. contradiction.
Qed.

(** X9: the label of a chip.  The label of a non-empty value is never
    empty.  When no menu item carries the value, and in particular when
    there is no menu item, the label is the value itself.  Otherwise the
    first item that carries the value decides alone: the label is its text
    when it has a non-empty one and the value itself when it has none, even
    if a later item with the same value has a text. *)
Theorem X9_label_is_never_empty
    (menuItems : list SelectMore.MenuItem) (valueItem : string) :
  valueItem <> EmptyString ->
  SelectMore.getMenuItemLabelByValue menuItems valueItem <> EmptyString
  /\ (Forall (fun i => SelectMore.itemValue i <> Some valueItem) menuItems ->
      SelectMore.getMenuItemLabelByValue menuItems valueItem = valueItem)
  /\ (forall before item after,
        menuItems = before ++ item :: after ->
        Forall (fun i => SelectMore.itemValue i <> Some valueItem) before ->
        SelectMore.itemValue item = Some valueItem ->
        SelectMore.getMenuItemLabelByValue menuItems valueItem
        = match SelectMore.textContent item with
          | Some text => if String.eqb text EmptyString then valueItem else text
          | None => valueItem
          end).
Proof.
  intros Hv. split; [|split].
  - unfold SelectMore.getMenuItemLabelByValue.
    destruct (Nat.eqb (length menuItems) 0); [exact Hv|].
    destruct (find (SelectMore.hasValue valueItem) menuItems) as [item|];
      [|exact Hv].
    destruct (SelectMore.textContent item) as [text|]; [|exact Hv].
    destruct (String.eqb text EmptyString) eqn:He; [exact Hv|].
    intros ->. discriminate He.
  - intros Hn. unfold SelectMore.getMenuItemLabelByValue.
    rewrite (find_no_carrier menuItems valueItem Hn).
    destruct (Nat.eqb (length menuItems) 0); reflexivity.
  - intros before item after Hm Hb Hi.
    unfold SelectMore.getMenuItemLabelByValue.
    rewrite (find_first_carrier menuItems before after item valueItem Hm Hb Hi).
    subst menuItems. rewrite List.length_app. cbn [length].
    rewrite Nat.add_succ_r. reflexivity.
Qed.

Lemma X9_witness :
  let items := [{| SelectMore.itemValue := Some "en";
                   SelectMore.textContent := Some "English" |};
                {| SelectMore.itemValue := Some "de";
                   SelectMore.textContent := Some "Deutsch" |};
                {| SelectMore.itemValue := Some "de";
                   SelectMore.textContent := Some "German" |}] in
  "de" <> EmptyString
  /\ SelectMore.getMenuItemLabelByValue items "de" <> EmptyString
  /\ (Forall (fun i => SelectMore.itemValue i <> Some "de") items ->
      SelectMore.getMenuItemLabelByValue items "de" = "de")
  /\ (forall before item after,
        items = before ++ item :: after ->
        Forall (fun i => SelectMore.itemValue i <> Some "de") before ->
        SelectMore.itemValue item = Some "de" ->
        SelectMore.getMenuItemLabelByValue items "de"
        = match SelectMore.textContent item with
          | Some text => if String.eqb text EmptyString then "de" else text
          | None => "de"
          end).
Proof.
  split; [discriminate|].
  apply (X9_label_is_never_empty
           [{| SelectMore.itemValue := Some "en";
               SelectMore.textContent := Some "English" |};
            {| SelectMore.itemValue := Some "de";
               SelectMore.textContent := Some "Deutsch" |};
            {| SelectMore.itemValue := Some "de";
               SelectMore.textContent := Some "German" |}] "de").
  discriminate.
Defined.

(** ** A checkbox whose form is reset *)

Lemma resetPending_consumed this f marked (resets : gmap nat (gset nat)) :
  Checkbox.resetPending this (Some f) (<[f := marked ∖ {[this]}]> resets)
  = false.
Proof.
  unfold Checkbox.resetPending. rewrite lookup_insert_eq.
  apply bool_decide_eq_false. rewrite elem_of_difference, elem_of_singleton.
  intros [_ H]. apply H. reflexivity.
Qed.

Lemma resetPending_other this other f f' marked (resets : gmap nat (gset nat)) :
  other <> this -> resets !! f = Some marked ->
  Checkbox.resetPending other (Some f') (<[f := marked ∖ {[this]}]> resets)
  = Checkbox.resetPending other (Some f') resets.
Proof.
  intros Hne Hm. unfold Checkbox.resetPending.
  destruct (decide (f = f')) as [<-|Hf].
  - rewrite lookup_insert_eq, Hm. apply bool_decide_ext.
    rewrite elem_of_difference, elem_of_singleton.
    split; [intros [H _]; exact H | intros H; split; [exact H | exact Hne]].
  - rewrite lookup_insert_ne by exact Hf. reflexivity.
Qed.

(** X10: a change of [checked] that comes from a reset of the form.  The
    first handler run after the reset clears [invalid] whatever the native
    input reports, and takes the control off the form's list; the next
    change of the same control is validated again, and no other control of
    any form loses or gains its mark. *)
Theorem X10_reset_skips_validation_once
    (this form : nat) (valid1 valid2 : bool) (c : Checkbox.t)
    (resets : gmap nat (gset nat)) :
  Checkbox.resetPending this (Some form) resets = true ->
  let r1 := Checkbox.onCheckedChange this (Some form) valid1 c resets in
  let r2 := Checkbox.onCheckedChange this (Some form) valid2 (fst r1) (snd r1) in
  Checkbox.invalid (fst r1) = false
  /\ Checkbox.resetPending this (Some form) (snd r1) = false
  /\ Checkbox.invalid (fst r2) = negb valid2
  /\ snd r2 = snd r1
  /\ Checkbox.checked (fst r2) = Checkbox.checked c
  /\ forall other form', other <> this ->
       Checkbox.resetPending other (Some form') (snd r2)
       = Checkbox.resetPending other (Some form') resets.
Proof.
  intros Hp. cbn zeta.
  assert (Hm : exists marked, resets !! form = Some marked).
  { unfold Checkbox.resetPending in Hp.
    destruct (resets !! form) as [m|]; [eauto | discriminate]. }
  destruct Hm as [marked Hm].
  assert (H1 : Checkbox.onCheckedChange this (Some form) valid1 c resets
               = (Checkbox.set_invalid false c,
                  <[form := marked ∖ {[this]}]> resets)).
  { unfold Checkbox.onCheckedChange. rewrite Hp, Hm. reflexivity. }
  rewrite H1. cbn [fst snd].
  assert (H2 : Checkbox.onCheckedChange this (Some form) valid2
                 (Checkbox.set_invalid false c)
                 (<[form := marked ∖ {[this]}]> resets)
               = (Checkbox.set_invalid (negb valid2)
                    (Checkbox.set_invalid false c),
                  <[form := marked ∖ {[this]}]> resets)).
  { unfold Checkbox.onCheckedChange. rewrite resetPending_consumed.
    reflexivity. }
  rewrite H2. cbn [fst snd].
  split; [reflexivity|]. split; [apply resetPending_consumed|].
  split; [reflexivity|]. split; [reflexivity|]. split; [reflexivity|].
  intros other form' Hne. apply resetPending_other; assumption.
Qed.

Lemma X10_witness :
  let c := {| Checkbox.disabled := false; Checkbox.checked := false;
              Checkbox.defaultChecked := false;
              Checkbox.indeterminate := false; Checkbox.required := true;
              Checkbox.invalid := true; Checkbox.listeners := nobody |} in
  let resets : gmap nat (gset nat) := {[ 0%nat := {[ 1%nat; 2%nat ]} ]} in
  Checkbox.resetPending 1 (Some 0%nat) resets = true
  /\ let r1 := Checkbox.onCheckedChange 1 (Some 0%nat) false c resets in
     let r2 := Checkbox.onCheckedChange 1 (Some 0%nat) false (fst r1) (snd r1) in
     Checkbox.invalid (fst r1) = false
     /\ Checkbox.resetPending 1 (Some 0%nat) (snd r1) = false
     /\ Checkbox.invalid (fst r2) = negb false
     /\ snd r2 = snd r1
     /\ Checkbox.checked (fst r2) = Checkbox.checked c
     /\ forall other form', other <> 1%nat ->
          Checkbox.resetPending other (Some form') (snd r2)
          = Checkbox.resetPending other (Some form') resets.
Proof.
  cbv zeta. split; [vm_compute; reflexivity|].
  apply (X10_reset_skips_validation_once 1 0 false false
           {| Checkbox.disabled := false; Checkbox.checked := false;
              Checkbox.defaultChecked := false;
              Checkbox.indeterminate := false; Checkbox.required := true;
              Checkbox.invalid := true; Checkbox.listeners := nobody |}
           {[ 0%nat := {[ 1%nat; 2%nat ]} ]}).
  vm_compute. reflexivity.
Defined.

(** X11: the two validity methods.  [checkValidity] and [reportValidity]
    give the same answer, the one of the native input, and dispatch the same
    event: a cancelable [invalid], exactly when the input is not valid.
    They differ in what they leave behind: [checkValidity] changes nothing on
    the control, [reportValidity] sets [invalid] to the negation of the
    answer, and when a listener has prevented the event it blurs and focuses
    the control again. *)
Theorem X11_validity_methods_agree (inputValid : bool) (c : Checkbox.t) :
  let checked := Checkbox.checkValidity inputValid c in
  let reported := Checkbox.reportValidity inputValid c in
  fst (fst checked) = inputValid
  /\ fst (fst (fst reported)) = inputValid
  /\ snd checked = snd (fst reported)
  /\ snd checked
     = (if inputValid then []
        else [intent "invalid" (Checkbox.listeners c "invalid")])
  /\ snd (fst checked) = c
  /\ snd (fst (fst reported)) = Checkbox.set_invalid (negb inputValid) c
  /\ snd reported
     = (if negb inputValid && Checkbox.listeners c "invalid"
        then [Checkbox.Blur; Checkbox.Focus] else []).
Proof.
  unfold Checkbox.checkValidity, Checkbox.reportValidity, Event.emit, intent.
  cbn. destruct inputValid, (Checkbox.listeners c "invalid"); cbn;
    repeat split.
Qed.

(** ** What the dialog renders and what it animates *)

Lemma children_closed (p : DialogView.Props) :
  DialogView.children p
  = DialogView.when (DialogView.hasHeader p) (DialogView.header p)
    ++ DialogView.when (DialogView.hasBody p) (DialogView.body p).
Proof.
  unfold DialogView.children, DialogView.querySelectorAll, DialogView.panel,
    DialogView.header, DialogView.body, DialogView.hasHeader,
    DialogView.hasBody, DialogView.hasIcon, DialogView.hasHeadline,
    DialogView.hasDescription, DialogView.renderIcon.
  destruct (DialogView.given (DialogView.icon p)),
    (DialogView.given (DialogView.headline p)),
    (DialogView.given (DialogView.description p)),
    (DialogView.slotted p "icon"), (DialogView.slotted p "headline"),
    (DialogView.slotted p "description"), (DialogView.slotted p "header"),
    (DialogView.slotted p "[default]"), (DialogView.slotted p "action");
    reflexivity.
Qed.

(** X12: the children the open and close runs animate.  The query
    [.header, .body, .actions] on the rendered panel finds the header slot
    when the dialog has a header and the body when it has one, in this order,
    and nothing else: the slot of the action buttons is rendered with the
    class [action], so it is never among the animated children, whether or
    not the dialog has action buttons. *)
Theorem X12_animated_children (p : DialogView.Props) :
  DialogView.children p
  = DialogView.when (DialogView.hasHeader p) (DialogView.header p)
    ++ DialogView.when (DialogView.hasBody p) (DialogView.body p)
  /\ ~ In DialogView.action (DialogView.children p)
  /\ (DialogView.slotted p "action" = true ->
      In DialogView.action (DialogView.descendants (DialogView.panel p))).
Proof.
  split; [apply children_closed|]. split.
  - rewrite children_closed. intros H. apply in_app_or in H.
    destruct H as [H|H];
      [destruct (DialogView.hasHeader p) | destruct (DialogView.hasBody p)];
      cbn [DialogView.when In] in H;
      try (destruct H as [H|[]]; discriminate H); try contradiction.
  - intros Ha. unfold DialogView.panel. rewrite Ha.
    cbn [DialogView.descendants DialogView.when].
    rewrite !flat_map_app. apply in_or_app. right. apply in_or_app. right.
    left. reflexivity.
Qed.

(** ** More of the dialog's life *)

Ltac opening_vetoed_close :=
  advance ltac:(eapply exec_setOpen; reflexivity);
  resumed ltac:(reflexivity)
    ltac:(apply protocol_close_vetoed; [reflexivity | assumption]).

(** X13: a vetoed close.  A rendered, closed dialog is opened, its entry run
    settles, and the flag is set back to [false] while a listener of [close]
    calls [preventDefault].  The handler returns right after the event: the
    flag stays [false], but the dialog is still displayed ([display: flex]),
    the scroll lock is still held, no exit run was started and no handler is
    left suspended.  Writing [false] again changes nothing at all. *)
Theorem X13_vetoed_close_leaves_the_dialog_displayed
    (d : Dialog.t) (c : Z) (a : option Node) :
  Dialog.open d = false -> Dialog.hasUpdated d = true ->
  Dialog.listeners d "open" = false -> Dialog.listeners d "close" = true ->
  exists s1 s2,
    run (toOpening 0 ++ toOpen 0) (page [d] (quiet c a)) = Some s1
    /\ run [SetOpen 0 false; Resume 0] s1 = Some s2
    /\ dispatchedOn 0 (log (world s2))
       = [intent "open" false; completed "opened"; intent "close" true]
    /\ map Dialog.open (dialogs s2) = [false]
    /\ map Dialog.display (dialogs s2) = ["flex"]
    /\ lockCount (world s2) = c + 1
    /\ effects (world s2) = effects (world s1)
    /\ pending s2 = []
    /\ exec (SetOpen 0 false) s2 = Some s2.
Proof.
  intros Ho Hu Hlo Hlc.
  destruct d as [o u disp mt ot cs af tabs ls gd ge].
  cbn in Ho, Hu, Hlo, Hlc. subst o u.
  unfold toOpening, toOpen, page. cbn [app].
  destruct tabs as [|[n|] tabs].
  all: do 2 eexists.
  all: split;
    [opening; advance ltac:(eapply exec_frame_initial; reflexivity);
     settle_open; arrived|].
  all: split; [opening_vetoed_close; arrived|].
  all: split; [dispatched; reflexivity|].
  all: split; [reflexivity|].
  all: split; [reflexivity|].
  all: split; [reflexivity|].
  all: split; [cbn; reflexivity|].
  all: split; [reflexivity|].
  all: cbn; reflexivity.
Qed.

Lemma X13_witness :
  let d := rendered (fun name => String.eqb name "close") in
  (Dialog.open d = false /\ Dialog.hasUpdated d = true
   /\ Dialog.listeners d "open" = false /\ Dialog.listeners d "close" = true)
  /\ exists s1 s2,
    run (toOpening 0 ++ toOpen 0) (page [d] (quiet 0 (Some button))) = Some s1
    /\ run [SetOpen 0 false; Resume 0] s1 = Some s2
    /\ dispatchedOn 0 (log (world s2))
       = [intent "open" false; completed "opened"; intent "close" true]
    /\ map Dialog.open (dialogs s2) = [false]
    /\ map Dialog.display (dialogs s2) = ["flex"]
    /\ lockCount (world s2) = 0 + 1
    /\ effects (world s2) = effects (world s1)
    /\ pending s2 = []
    /\ exec (SetOpen 0 false) s2 = Some s2.
Proof.
  split; [repeat split|].
  apply (X13_vetoed_close_leaves_the_dialog_displayed
           (rendered (fun name => String.eqb name "close")) 0 (Some button));
    reflexivity.
Defined.








(** ** The Escape key and the overlay *)

Lemma onKeydown_hit o w d s :
  dialogs s !! w = Some d -> Dialog.open d = true ->
  DialogInput.closeOnEsc o = true ->
  DialogInput.onKeydown o w "Escape" s
  = option_map (pair true) (exec (SetOpen w false) s).
Proof.
  intros Hd Ho Hc. unfold DialogInput.onKeydown. rewrite Hd, Ho, Hc.
  cbn [andb String.eqb Ascii.eqb Bool.eqb].
  destruct (exec (SetOpen w false) s); reflexivity.
Qed.

Lemma onKeydown_miss o w d key s :
  dialogs s !! w = Some d ->
  Dialog.open d && DialogInput.closeOnEsc o && String.eqb key "Escape" = false ->
  DialogInput.onKeydown o w key s = Some (false, s).
Proof.
  intros Hd Hc. unfold DialogInput.onKeydown. rewrite Hd, Hc. reflexivity.
Qed.

Ltac closing_from_resume :=
  resumed ltac:(reflexivity)
    ltac:(apply protocol_close_passed; [reflexivity | assumption]);
  resumed ltac:(reflexivity) ltac:(apply startCloseRun_closed).

(** X15: the Escape key on an open dialog.  With [closeOnEsc] set, the
    key is taken (its propagation is stopped) and the flag is cleared
    through the ordinary close transition: the cancelable [close] is
    dispatched, the exit run is started, and once it has settled the dialog
    is hidden, one scroll lock is released and [closed] is dispatched.  Any
    other key, or Escape without [closeOnEsc], is not taken and changes
    nothing. *)
Theorem X15_escape_key (o : DialogInput.Options) (key : string)
    (d : Dialog.t) (W : World) :
  Dialog.open d = true -> Dialog.hasUpdated d = true ->
  Dialog.listeners d "close" = false ->
  let taken := DialogInput.closeOnEsc o && String.eqb key "Escape" in
  exists s1,
    DialogInput.onKeydown o 0 key (page [d] W) = Some (taken, s1)
    /\ if taken then
         exists s2,
           run ([Resume 0; Resume 0] ++ toClosed (nextRun W)) s1 = Some s2
           /\ dispatchedOn 0 (log (world s2))
              = dispatchedOn 0 (log W)
                ++ [intent "close" false; completed "closed"]
           /\ map Dialog.open (dialogs s2) = [false]
           /\ map Dialog.display (dialogs s2) = ["none"]
           /\ lockCount (world s2) = lockCount W - 1
           /\ pending s2 = []
       else s1 = page [d] W.
Proof.
  intros Ho Hu Hlc taken. subst taken.
  destruct (DialogInput.closeOnEsc o) eqn:Hc;
    [destruct (String.eqb key "Escape") eqn:Hk|]; cbn [andb].
  - apply String.eqb_eq in Hk. subst key.
    rewrite (onKeydown_hit o 0 d) by (reflexivity || assumption).
    destruct d as [op u disp mt ot cs af tabs ls gd ge].
    cbn in Ho, Hu, Hlc. subst op u.
    unfold page. erewrite exec_setOpen by reflexivity.
    cbn [option_map]. eexists. split; [reflexivity|].
    unfold toClosed. cbn [app dialogs world pending].
    eexists. split; [closing_from_resume; settle_close; arrived|].
    split; [dispatched; rewrite <- ?app_assoc; reflexivity|].
    split; [reflexivity|]. split; [reflexivity|].
    split; [cbn; lia|]. reflexivity.
  - eexists. split; [|reflexivity].
    apply (onKeydown_miss o 0 d); [reflexivity|].
    rewrite Hk. apply andb_false_r.
  - eexists. split; [|reflexivity].
    apply (onKeydown_miss o 0 d); [reflexivity|].
    rewrite Hc. rewrite andb_false_r. reflexivity.
Qed.

Lemma X15_witness :
  let o := {| DialogInput.closeOnEsc := true;
              DialogInput.closeOnOverlayClick := false |} in
  let d := Dialog.set_open true (rendered nobody) in
  let W := quiet 1 (Some button) in
  (Dialog.open d = true /\ Dialog.hasUpdated d = true
   /\ Dialog.listeners d "close" = false)
  /\ exists s1,
    DialogInput.onKeydown o 0 "Escape" (page [d] W) = Some (true, s1)
    /\ exists s2,
         run ([Resume 0; Resume 0] ++ toClosed (nextRun W)) s1 = Some s2
         /\ dispatchedOn 0 (log (world s2))
            = dispatchedOn 0 (log W)
              ++ [intent "close" false; completed "closed"]
         /\ map Dialog.open (dialogs s2) = [false]
         /\ map Dialog.display (dialogs s2) = ["none"]
         /\ lockCount (world s2) = lockCount W - 1
         /\ pending s2 = [].
Proof.
  split; [repeat split|].
  apply (X15_escape_key
           {| DialogInput.closeOnEsc := true;
              DialogInput.closeOnOverlayClick := false |}
           "Escape" (Dialog.set_open true (rendered nobody))
           (quiet 1 (Some button))); reflexivity.
Defined.

Lemma onOverlayClick_closed o d W :
  DialogInput.onOverlayClick o 0 (page [d] W)
  = let s1 := page [d] (record (Dispatched 0
                                  (Event.emit (Dialog.listeners d)
                                     "overlay-click" Event.noInit)) W) in
    if negb (DialogInput.closeOnOverlayClick o) then Some s1
    else exec (SetOpen 0 false) s1.
Proof. reflexivity. Qed.

(** X16: a click on the overlay of an open dialog.  [overlay-click] is
    always dispatched, and it is not cancelable: whatever its listeners do,
    with [closeOnOverlayClick] set the flag is cleared and the ordinary close
    transition follows ([close], exit run, [closed]); without it the event
    is the only thing that happens. *)
Theorem X16_overlay_click (o : DialogInput.Options) (d : Dialog.t) (W : World) :
  Dialog.open d = true -> Dialog.hasUpdated d = true ->
  Dialog.listeners d "close" = false ->
  exists s1,
    DialogInput.onOverlayClick o 0 (page [d] W) = Some s1
    /\ dispatchedOn 0 (log (world s1))
       = dispatchedOn 0 (log W) ++ [completed "overlay-click"]
    /\ if DialogInput.closeOnOverlayClick o then
         exists s2,
           run ([Resume 0; Resume 0] ++ toClosed (nextRun W)) s1 = Some s2
           /\ dispatchedOn 0 (log (world s2))
              = dispatchedOn 0 (log W)
                ++ [completed "overlay-click"; intent "close" false;
                    completed "closed"]
           /\ map Dialog.open (dialogs s2) = [false]
           /\ map Dialog.display (dialogs s2) = ["none"]
           /\ pending s2 = []
       else s1 = page [d] (record (Dispatched 0 (completed "overlay-click")) W).
Proof.
  intros Ho Hu Hlc. rewrite onOverlayClick_closed. cbv zeta.
  destruct d as [op u disp mt ot cs af tabs ls gd ge].
  cbn in Ho, Hu, Hlc. subst op u.
  destruct (DialogInput.closeOnOverlayClick o); cbn [negb].
  - unfold page. erewrite exec_setOpen by reflexivity.
    eexists. split; [reflexivity|].
    split; [dispatched; reflexivity|].
    unfold toClosed. cbn [app dialogs world pending].
    eexists. split; [closing_from_resume; settle_close; arrived|].
    split; [dispatched; rewrite <- ?app_assoc; reflexivity|].
    split; [reflexivity|]. split; reflexivity.
  - eexists. split; [reflexivity|].
    split; [dispatched; reflexivity|]. reflexivity.
Qed.

Lemma X16_witness :
  let o := {| DialogInput.closeOnEsc := false;
              DialogInput.closeOnOverlayClick := true |} in
  let d := Dialog.set_open true
             (rendered (fun name => String.eqb name "overlay-click")) in
  let W := quiet 1 (Some button) in
  (Dialog.open d = true /\ Dialog.hasUpdated d = true
   /\ Dialog.listeners d "close" = false)
  /\ exists s1,
    DialogInput.onOverlayClick o 0 (page [d] W) = Some s1
    /\ dispatchedOn 0 (log (world s1))
       = dispatchedOn 0 (log W) ++ [completed "overlay-click"]
    /\ exists s2,
         run ([Resume 0; Resume 0] ++ toClosed (nextRun W)) s1 = Some s2
         /\ dispatchedOn 0 (log (world s2))
            = dispatchedOn 0 (log W)
              ++ [completed "overlay-click"; intent "close" false;
                  completed "closed"]
         /\ map Dialog.open (dialogs s2) = [false]
         /\ map Dialog.display (dialogs s2) = ["none"]
         /\ pending s2 = [].
Proof.
  split; [repeat split|].
  apply (X16_overlay_click
           {| DialogInput.closeOnEsc := false;
              DialogInput.closeOnOverlayClick := true |}
           (Dialog.set_open true
              (rendered (fun name => String.eqb name "overlay-click")))
           (quiet 1 (Some button))); reflexivity.
Defined.

(** ** What a dialog dispatches, whatever the schedule *)

Lemma extends_log W0 W W' :
  log W' = log W -> ScenarioMore.extends W0 W -> ScenarioMore.extends W0 W'.
Proof. intros E [l [Hl Hf]]. exists l. rewrite E. split; assumption. Qed.

Lemma extends_refl W : ScenarioMore.extends W W.
Proof. exists []. split; [symmetry; apply app_nil_r | reflexivity]. Qed.

Lemma extends_recordAll W0 W l :
  forallb ScenarioMore.lifecycleAction l = true ->
  ScenarioMore.extends W0 W -> ScenarioMore.extends W0 (recordAll l W).
Proof.
  intros Hl [l0 [E Hf]]. exists (l0 ++ l). cbn [recordAll log].
  rewrite E, <- app_assoc. split; [reflexivity|].
  rewrite forallb_app, Hf, Hl. reflexivity.
Qed.

Lemma extends_record W0 W a :
  ScenarioMore.lifecycleAction a = true ->
  ScenarioMore.extends W0 W -> ScenarioMore.extends W0 (record a W).
Proof.
  intros Ha H. apply (extends_recordAll W0 W [a]) in H; [exact H|].
  cbn [forallb]. rewrite Ha. reflexivity.
Qed.

Lemma extends_trans W0 W1 W2 :
  ScenarioMore.extends W0 W1 -> ScenarioMore.extends W1 W2 ->
  ScenarioMore.extends W0 W2.
Proof.
  intros [l1 [E1 H1]] [l2 [E2 H2]]. exists (l1 ++ l2).
  rewrite E2, E1, <- app_assoc. split; [reflexivity|].
  rewrite forallb_app, H1, H2. reflexivity.
Qed.

Lemma extends_stopped W0 W ns :
  ScenarioMore.extends W0 W -> ScenarioMore.extends W0 (stopped ns W).
Proof.
  intros H. unfold stopped. apply extends_recordAll.
  - apply forallb_map_true. reflexivity.
  - exact (extends_log W0 W _ eq_refl H).
Qed.

Lemma extends_started W0 W run kfs d ease ns :
  ScenarioMore.extends W0 W ->
  ScenarioMore.extends W0 (started run kfs d ease ns W).
Proof.
  intros H. unfold started. apply extends_recordAll.
  - apply forallb_map_true. reflexivity.
  - exact (extends_log W0 W _ eq_refl H).
Qed.

Lemma extends_animateTo W0 W run n kfs d ease :
  ScenarioMore.extends W0 W ->
  ScenarioMore.extends W0 (animateTo run n kfs d ease W).
Proof.
  intros H. unfold animateTo. apply extends_record; [reflexivity|].
  exact (extends_log W0 W _ eq_refl H).
Qed.

Lemma extends_openedWorld W0 W w d :
  ScenarioMore.extends W0 W -> ScenarioMore.extends W0 (openedWorld w d W).
Proof.
  intros H. unfold openedWorld, lockScreen.
  apply extends_stopped. apply extends_record; [reflexivity|].
  apply (extends_log W0 (record (ModalActivated w)
                           (recordAll (adoptedLog w d)
                              (record (StyleDisplay w "flex") W))));
    [reflexivity|].
  apply extends_record; [reflexivity|]. apply extends_recordAll.
  - unfold adoptedLog. destruct (Dialog.topAppBarElements d) as [|[n|] ?];
      reflexivity.
  - apply extends_record; [reflexivity | exact H].
Qed.

Lemma extends_closingWorld W0 W w d :
  ScenarioMore.extends W0 W -> ScenarioMore.extends W0 (closingWorld w d W).
Proof.
  intros H. unfold closingWorld. apply extends_stopped.
  apply extends_record; [reflexivity|].
  apply extends_record; [reflexivity | exact H].
Qed.

Lemma extends_entryRun W0 W w used d cs :
  ScenarioMore.extends W0 W -> ScenarioMore.extends W0 (entryRun w used d cs W).
Proof.
  intros H. unfold entryRun. cbv zeta. apply extends_started.
  do 3 apply extends_animateTo.
  apply (extends_log W0 (requestAnimationFrame (FocusInitial w) W));
    [reflexivity|].
  unfold requestAnimationFrame. apply extends_record; [reflexivity|].
  exact (extends_log W0 W _ eq_refl H).
Qed.

Lemma extends_exitRun W0 W w d cs :
  ScenarioMore.extends W0 W -> ScenarioMore.extends W0 (exitRun w d cs W).
Proof.
  intros H. unfold exitRun. cbv zeta. apply extends_started.
  do 3 apply extends_animateTo.
  exact (extends_log W0 W _ eq_refl H).
Qed.

Lemma extends_closedWorld W0 W w d :
  ScenarioMore.extends W0 W -> ScenarioMore.extends W0 (closedWorld w d W).
Proof.
  intros H. unfold closedWorld. cbv zeta.
  apply extends_record; [reflexivity|]. apply extends_recordAll.
  - apply forallb_map_true. reflexivity.
  - apply (extends_log W0 (unlockScreen w (record (StyleDisplay w "none") W)));
      [reflexivity|].
    unfold unlockScreen. apply extends_record; [reflexivity|].
    apply (extends_log W0 (record (StyleDisplay w "none") W)); [reflexivity|].
    apply extends_record; [reflexivity | exact H].
Qed.

Lemma extends_protocol w hu d W k d' W' :
  Dialog.protocol w hu (d, W) = (k, (d', W')) -> ScenarioMore.extends W W'.
Proof.
  intros H.
  destruct (Dialog.open d) eqn:Ho.
  - destruct hu.
    + destruct (Dialog.listeners d "open") eqn:Hl.
      * rewrite protocol_vetoed in H by assumption.
        injection H as _ _ <-.
        apply extends_record; [reflexivity | apply extends_refl].
      * rewrite protocol_open_passed in H by assumption.
        injection H as _ _ <-. apply extends_openedWorld.
        apply extends_record; [reflexivity | apply extends_refl].
    + rewrite protocol_open_first in H by assumption.
      injection H as _ _ <-. apply extends_openedWorld, extends_refl.
  - destruct (Dialog.listeners d "close") eqn:Hl.
    + rewrite protocol_close_vetoed in H by assumption.
      injection H as _ _ <-.
      apply extends_record; [reflexivity | apply extends_refl].
    + rewrite protocol_close_passed in H by assumption.
      injection H as _ _ <-. apply extends_closingWorld, extends_refl.
Qed.

Lemma extends_callback cb s s' :
  callback cb s = Some s' -> ScenarioMore.extends (world s) (world s').
Proof.
  intros H. destruct cb as [w|n]; cbn [callback] in H.
  - unfold runOn in H. destruct (dialogs s !! w) as [d|]; [|discriminate].
    unfold Dialog.focusInitial, Dialog.bind, Dialog.this in H.
    cbn [fst snd] in H.
    destruct (Dialog.autofocus d); unfold Dialog.onDocument in H;
      cbn [fst snd] in H; injection H as <-; cbn [world]; unfold focus;
      (apply extends_record; [reflexivity|]);
      exact (extends_log _ (world s) _ eq_refl (extends_refl _)).
  - injection H as <-. cbn [world]. unfold focus.
    apply extends_record; [reflexivity|].
    exact (extends_log _ (world s) _ eq_refl (extends_refl _)).
Qed.

Lemma extends_callbacks cbs s s' :
  callbacks cbs s = Some s' -> ScenarioMore.extends (world s) (world s').
Proof.
  revert s. induction cbs as [|cb cbs IH]; intros s H; cbn [callbacks] in H.
  - injection H as <-. apply extends_refl.
  - destruct (callback cb s) as [s1|] eqn:Hc; [|discriminate].
    eapply extends_trans; [exact (extends_callback cb s s1 Hc)|].
    exact (IH s1 H).
Qed.

Lemma extends_step st s s' :
  exec st s = Some s' -> ScenarioMore.extends (world s) (world s').
Proof.
  intros He. destruct st as [w|w v|i|run| | |w].
  - cbn [exec] in He. destruct (dialogs s !! w) as [d|]; [|discriminate].
    destruct (Dialog.hasUpdated d); [discriminate|].
    destruct (invoke w (Dialog.onOpenChange w) s) as [s1|] eqn:Hv; [|discriminate].
    unfold runOn in He. destruct (dialogs s1 !! w) as [d1|]; [|discriminate].
    unfold Dialog.onThis in He. cbn [fst snd] in He. injection He as <-.
    cbn [world]. rewrite (world_onOpenChange w s s1 Hv). apply extends_refl.
  - cbn [exec] in He. destruct (dialogs s !! w) as [d|]; [|discriminate].
    destruct (eqb (Dialog.open d) v).
    + injection He as <-. apply extends_refl.
    + destruct (Dialog.hasUpdated d).
      * rewrite (world_onOpenChange w _ s' He). apply extends_refl.
      * injection He as <-. apply extends_refl.
  - destruct (pending s !! i) as [k|] eqn:Hp;
      [|cbn [exec] in He; rewrite Hp in He; discriminate].
    destruct (exec_resume_inv i k s s' Hp He) as (d & r & d' & _ & _ & Hm).
    destruct k as [w hu|w hu|w hu cs|w hu run|w cs|w run];
      cbn [Dialog.resume] in Hm.
    + unfold Dialog.afterDefined in Hm. destruct hu; cbn [negb] in Hm.
      * exact (extends_protocol _ _ _ _ _ _ _ Hm).
      * injection Hm as _ _ <-. apply extends_refl.
    + exact (extends_protocol _ _ _ _ _ _ _ Hm).
    + rewrite startOpenRun_closed in Hm. injection Hm as _ _ <-.
      apply extends_entryRun, extends_refl.
    + rewrite finishOpen_closed in Hm. injection Hm as _ _ <-.
      destruct hu; [|apply extends_refl].
      apply extends_record; [reflexivity | apply extends_refl].
    + rewrite startCloseRun_closed in Hm. injection Hm as _ _ <-.
      apply extends_exitRun, extends_refl.
    + rewrite finishClose_closed in Hm. injection Hm as _ _ <-.
      apply extends_closedWorld, extends_refl.
  - injection He as <-. cbn [world].
    exact (extends_log _ (world s) _ eq_refl (extends_refl _)).
  - cbn [exec] in He.
    eapply extends_trans; [|exact (extends_callbacks _ _ s' He)].
    cbn [world]. exact (extends_log _ (world s) _ eq_refl (extends_refl _)).
  - cbn [exec] in He. destruct (timers (world s)) as [|cb rest]; [discriminate|].
    eapply extends_trans; [|exact (extends_callback cb _ s' He)].
    cbn [world]. exact (extends_log _ (world s) _ eq_refl (extends_refl _)).
  - cbn [exec] in He. unfold runOn in He.
    destruct (dialogs s !! w) as [d|]; [|discriminate].
    unfold Dialog.disconnectedCallback, Dialog.onDocument in He.
    cbn [fst snd] in He. injection He as <-. cbn [world]. unfold unlockScreen.
    apply extends_record; [reflexivity|].
    exact (extends_log _ (world s) _ eq_refl (extends_refl _)).
Qed.

(** X17: what the open handler dispatches.  Along any schedule of the
    event loop (first updates, writes of the flag, resumptions of
    [onOpenChange], finished runs, frames, timers, removals), with any number
    of dialogs, any listeners and any interleaving of handlers, the log of
    the document only grows, and every event dispatched is one of the four
    lifecycle events: [open] and [close] are cancelable, [opened] and
    [closed] are not cancelable and are never prevented. *)
Theorem X17_only_lifecycle_events (sched : list Step) (s s' : Sys) :
  run sched s = Some s' ->
  exists l,
    log (world s') = log (world s) ++ l
    /\ forallb ScenarioMore.lifecycleAction l = true.
Proof.
  revert s. induction sched as [|st rest IH]; intros s H; cbn [run] in H.
  - injection H as <-. apply extends_refl.
  - destruct (exec st s) as [s1|] eqn:He; [|discriminate].
    exact (extends_trans _ _ _ (extends_step st s s1 He) (IH s1 H)).
Qed.

Lemma X17_witness :
  let s := page [rendered nobody; rendered (fun name => String.eqb name "close")]
             (quiet 0 (Some button)) in
  let sched := rapidToggle true ++ toOpening 1 ++ toOpen 2
               ++ [SetOpen 1 false; Resume 0; Disconnect 1] in
  exists s',
    run sched s = Some s'
    /\ exists l,
         log (world s') = log (world s) ++ l
         /\ forallb ScenarioMore.lifecycleAction l = true.
Proof.
  intros s sched.
  destruct (run sched s) as [s'|] eqn:Hr; [|vm_compute in Hr; discriminate].
  exists s'. split; [reflexivity|].
  exact (X17_only_lifecycle_events sched s s' Hr).
Defined.

(** ** The top app bar in the header *)

(** X18: the adoption of a top app bar by the open branch.  Only the first
    bar of the header is looked at: it keeps a scroll target it already has
    and gets the dialog's body otherwise; the other bars are left as they
    are; the margin above the body is removed exactly when there is a bar.
    Adopting again, as every later opening does, changes nothing more on the
    instance. *)
Theorem X18_top_app_bar_adoption (w : nat) (d : Dialog.t) (W : World) :
  let r := Dialog.adoptTopAppBar w (d, W) in
  let d1 := fst (snd r) in
  Dialog.topAppBarElements d1
  = match Dialog.topAppBarElements d with
    | [] => []
    | first :: others => Some (default (Body w) first) :: others
    end
  /\ Dialog.bodyMarginTop d1
     = (if Nat.eqb (length (Dialog.topAppBarElements d)) 0
        then Dialog.bodyMarginTop d else "0")
  /\ Dialog.display d1 = Dialog.display d
  /\ Dialog.open d1 = Dialog.open d
  /\ fst (snd (Dialog.adoptTopAppBar w (d1, snd (snd r)))) = d1
  /\ lockCount (snd (snd r)) = lockCount W
  /\ effects (snd (snd r)) = effects W.
Proof.
  cbv zeta. rewrite adoptTopAppBar_closed. cbn [fst snd].
  rewrite adoptTopAppBar_closed. cbn [fst snd].
  destruct d as [o u disp mt ot cs af tabs ls gd ge].
  destruct tabs as [|[n|] tabs]; repeat split.
Qed.

(** ** Every completed notification has its intent *)

Lemma filter_delete_length {A} (p : A -> bool) l i k :
  l !! i = Some k ->
  length (List.filter p l)
  = (length (List.filter p (delete i l)) + (if p k then 1 else 0))%nat.
Proof.
  revert i. induction l as [|x l IH]; intros [|i] H; try discriminate.
  - injection H as ->. cbn.
    destruct (p k); [rewrite Nat.add_1_r | rewrite Nat.add_0_r]; reflexivity.
  - cbn in H. specialize (IH i H). cbn. fold (delete i l).
    destruct (p x); cbn [length]; rewrite IH; reflexivity.
Qed.

Lemma exec_resume_pending i k s s' :
  pending s !! i = Some k -> exec (Resume i) s = Some s' ->
  exists d r d',
    Dialog.resume k (d, world s) = (r, (d', world s'))
    /\ pending s' = delete i (pending s) ++ option_list r.
Proof.
  intros Hp He. unfold exec in He. rewrite Hp in He.
  destruct (dialogs s !! Dialog.instanceOf k) as [d|] eqn:Hd; [|discriminate].
  destruct (Dialog.ready k d (world s)); [|discriminate].
  unfold invoke, runOn in He. cbn [dialogs world pending] in He.
  rewrite Hd in He.
  destruct (Dialog.resume k (d, world s)) as [r [d' W']] eqn:Hm.
  injection He as <-. exists d, r, d'. split; [exact Hm | reflexivity].
Qed.

Lemma pending_onOpenChange w s s' :
  invoke w (Dialog.onOpenChange w) s = Some s' ->
  pending s' = pending s
  \/ exists hu, pending s' = pending s ++ [Dialog.AwaitDefined w hu].
Proof.
  unfold invoke, runOn. destruct (dialogs s !! w) as [d|]; [|discriminate].
  unfold Dialog.onOpenChange, Dialog.bind, Dialog.this. cbn [fst snd].
  destruct (negb (Dialog.open d) && negb (Dialog.hasUpdated d));
    unfold Dialog.ret; intros H; injection H as <-; cbn [suspend pending].
  - left. apply app_nil_r.
  - right. eexists. reflexivity.
Qed.

Lemma inFlight_onOpenChange p w s s' :
  (forall w' hu, p (Dialog.AwaitDefined w' hu) = false) ->
  invoke w (Dialog.onOpenChange w) s = Some s' ->
  ScenarioMore.inFlight p s' = ScenarioMore.inFlight p s.
Proof.
  intros Hp H. unfold ScenarioMore.inFlight.
  destruct (pending_onOpenChange w s s' H) as [-> | [hu ->]]; [reflexivity|].
  rewrite List.filter_app. cbn [List.filter]. rewrite Hp, app_nil_r. reflexivity.
Qed.

Lemma occurrences_record_other name w a W :
  eventsOf w a = [] ->
  ScenarioMore.occurrences name w (record a W)
  = ScenarioMore.occurrences name w W.
Proof.
  intros H. unfold ScenarioMore.occurrences. cbn [record log].
  rewrite dispatchedOn_app. cbn [dispatchedOn flat_map]. rewrite H.
  rewrite !app_nil_r. reflexivity.
Qed.

Lemma occurrences_record name w w' e W :
  ScenarioMore.occurrences name w (record (Dispatched w' e) W)
  = (ScenarioMore.occurrences name w W
     + (if Nat.eqb w' w && ScenarioMore.passed name e then 1 else 0))%nat.
Proof.
  unfold ScenarioMore.occurrences. cbn [record log].
  rewrite dispatchedOn_app. cbn [dispatchedOn flat_map eventsOf].
  rewrite List.filter_app, List.length_app.
  destruct (Nat.eqb w' w); cbn [app List.filter andb length]; [|lia].
  destruct (ScenarioMore.passed name e); cbn [length]; lia.
Qed.

Lemma occurrences_recordAll name w l W :
  dispatchedOn w l = [] ->
  ScenarioMore.occurrences name w (recordAll l W)
  = ScenarioMore.occurrences name w W.
Proof.
  intros H. unfold ScenarioMore.occurrences. cbn [recordAll log].
  rewrite dispatchedOn_app, H, app_nil_r. reflexivity.
Qed.

Lemma occurrences_log name w W W' :
  log W' = log W ->
  ScenarioMore.occurrences name w W' = ScenarioMore.occurrences name w W.
Proof. intros H. unfold ScenarioMore.occurrences. rewrite H. reflexivity. Qed.

Lemma occurrences_stopped name w ns W :
  ScenarioMore.occurrences name w (stopped ns W)
  = ScenarioMore.occurrences name w W.
Proof.
  unfold stopped. rewrite occurrences_recordAll by apply dispatchedOn_stopped.
  apply occurrences_log. reflexivity.
Qed.

Lemma occurrences_started name w run kfs d ease ns W :
  ScenarioMore.occurrences name w (started run kfs d ease ns W)
  = ScenarioMore.occurrences name w W.
Proof.
  unfold started. rewrite occurrences_recordAll by apply dispatchedOn_started.
  apply occurrences_log. reflexivity.
Qed.

Lemma occurrences_animateTo name w run n kfs d ease W :
  ScenarioMore.occurrences name w (animateTo run n kfs d ease W)
  = ScenarioMore.occurrences name w W.
Proof.
  unfold animateTo. rewrite occurrences_record_other by reflexivity.
  apply occurrences_log. reflexivity.
Qed.

Lemma occurrences_openedWorld name w w' d W :
  ScenarioMore.occurrences name w (openedWorld w' d W)
  = ScenarioMore.occurrences name w W.
Proof.
  unfold openedWorld, lockScreen. rewrite occurrences_stopped.
  rewrite occurrences_record_other by reflexivity.
  rewrite (occurrences_log name w
             (record (ModalActivated w')
                (recordAll (adoptedLog w' d)
                   (record (StyleDisplay w' "flex") W)))) by reflexivity.
  rewrite occurrences_record_other by reflexivity.
  rewrite occurrences_recordAll
    by (unfold adoptedLog;
        destruct (Dialog.topAppBarElements d) as [|[n|] ?]; reflexivity).
  apply occurrences_record_other. reflexivity.
Qed.

Lemma occurrences_closingWorld name w w' d W :
  ScenarioMore.occurrences name w (closingWorld w' d W)
  = (ScenarioMore.occurrences name w W
     + (if Nat.eqb w' w && String.eqb "close" name then 1 else 0))%nat.
Proof.
  unfold closingWorld. rewrite occurrences_stopped.
  rewrite occurrences_record_other by reflexivity.
  rewrite occurrences_record. unfold ScenarioMore.passed.
  cbn [Event.type Event.defaultPrevented intent negb].
  rewrite andb_true_r. reflexivity.
Qed.

Lemma occurrences_entryRun name w w' used d cs W :
  ScenarioMore.occurrences name w (entryRun w' used d cs W)
  = ScenarioMore.occurrences name w W.
Proof.
  unfold entryRun. cbv zeta. rewrite occurrences_started.
  rewrite !occurrences_animateTo.
  rewrite (occurrences_log name w (requestAnimationFrame (FocusInitial w') W))
    by reflexivity.
  unfold requestAnimationFrame.
  rewrite occurrences_record_other by reflexivity.
  apply occurrences_log. reflexivity.
Qed.

Lemma occurrences_exitRun name w w' d cs W :
  ScenarioMore.occurrences name w (exitRun w' d cs W)
  = ScenarioMore.occurrences name w W.
Proof.
  unfold exitRun. cbv zeta. rewrite occurrences_started.
  rewrite !occurrences_animateTo. apply occurrences_log. reflexivity.
Qed.

Lemma occurrences_closedWorld name w w' d W :
  ScenarioMore.occurrences name w (closedWorld w' d W)
  = (ScenarioMore.occurrences name w W
     + (if Nat.eqb w' w && String.eqb "closed" name then 1 else 0))%nat.
Proof.
  unfold closedWorld. cbv zeta. rewrite occurrences_record.
  unfold ScenarioMore.passed.
  cbn [Event.type Event.defaultPrevented completed negb].
  rewrite andb_true_r. f_equal.
  rewrite occurrences_recordAll by apply dispatchedOn_timeouts.
  rewrite (occurrences_log name w
             (unlockScreen w' (record (StyleDisplay w' "none") W)))
    by reflexivity.
  unfold unlockScreen. rewrite occurrences_record_other by reflexivity.
  rewrite (occurrences_log name w (record (StyleDisplay w' "none") W))
    by reflexivity.
  apply occurrences_record_other. reflexivity.
Qed.

Lemma occurrences_focus name w n W :
  ScenarioMore.occurrences name w (focus n W)
  = ScenarioMore.occurrences name w W.
Proof.
  unfold focus. rewrite occurrences_record_other by reflexivity.
  apply occurrences_log. reflexivity.
Qed.

Lemma occurrences_callback name w cb s s' :
  callback cb s = Some s' ->
  ScenarioMore.occurrences name w (world s')
  = ScenarioMore.occurrences name w (world s)
  /\ pending s' = pending s.
Proof.
  intros H. destruct cb as [w'|n]; cbn [callback] in H.
  - unfold runOn in H. destruct (dialogs s !! w') as [d|]; [|discriminate].
    unfold Dialog.focusInitial, Dialog.bind, Dialog.this in H.
    cbn [fst snd] in H.
    destruct (Dialog.autofocus d); unfold Dialog.onDocument in H;
      cbn [fst snd] in H; injection H as <-; cbn [world pending];
      (split; [apply occurrences_focus | reflexivity]).
  - injection H as <-. cbn [world pending].
    split; [apply occurrences_focus | reflexivity].
Qed.

Lemma occurrences_callbacks name w cbs s s' :
  callbacks cbs s = Some s' ->
  ScenarioMore.occurrences name w (world s')
  = ScenarioMore.occurrences name w (world s)
  /\ pending s' = pending s.
Proof.
  revert s. induction cbs as [|cb cbs IH]; intros s H; cbn [callbacks] in H.
  - injection H as <-. split; reflexivity.
  - destruct (callback cb s) as [s1|] eqn:Hc; [|discriminate].
    destruct (occurrences_callback name w cb s s1 Hc) as [E1 P1].
    destruct (IH s1 H) as [E2 P2]. rewrite E2, E1, P2, P1. split; reflexivity.
Qed.

Lemma balanced_same w s s' :
  (forall name, ScenarioMore.occurrences name w (world s')
                = ScenarioMore.occurrences name w (world s)) ->
  (forall p, (forall w' hu, p (Dialog.AwaitDefined w' hu) = false) ->
             ScenarioMore.inFlight p s' = ScenarioMore.inFlight p s) ->
  ScenarioMore.balanced w s -> ScenarioMore.balanced w s'.
Proof.
  intros Ho Hp [B1 B2]. unfold ScenarioMore.balanced.
  rewrite !Ho, !Hp by reflexivity. split; assumption.
Qed.

Lemma balanced_resumed w i k r s s' (o1 o2 c1 c2 : nat) :
  pending s !! i = Some k ->
  pending s' = delete i (pending s) ++ option_list r ->
  ScenarioMore.occurrences "open" w (world s')
  = (ScenarioMore.occurrences "open" w (world s) + o1)%nat ->
  ScenarioMore.occurrences "opened" w (world s')
  = (ScenarioMore.occurrences "opened" w (world s) + o2)%nat ->
  ScenarioMore.occurrences "close" w (world s')
  = (ScenarioMore.occurrences "close" w (world s) + c1)%nat ->
  ScenarioMore.occurrences "closed" w (world s')
  = (ScenarioMore.occurrences "closed" w (world s) + c2)%nat ->
  (o1 + (if ScenarioMore.opensInFlight w k then 1 else 0)
   = o2 + length (List.filter (ScenarioMore.opensInFlight w) (option_list r)))%nat ->
  (c1 + (if ScenarioMore.closesInFlight w k then 1 else 0)
   = c2 + length (List.filter (ScenarioMore.closesInFlight w) (option_list r)))%nat ->
  ScenarioMore.balanced w s -> ScenarioMore.balanced w s'.
Proof.
  intros Hk Hp Ho1 Ho2 Hc1 Hc2 HO HC [B1 B2].
  unfold ScenarioMore.balanced, ScenarioMore.inFlight in *.
  rewrite Ho1, Ho2, Hc1, Hc2, Hp, !List.filter_app, !List.length_app.
  rewrite (filter_delete_length (ScenarioMore.opensInFlight w) _ i k Hk) in B1.
  rewrite (filter_delete_length (ScenarioMore.closesInFlight w) _ i k Hk) in B2.
  split; lia.
Qed.

Ltac accounted HW :=
  rewrite <- HW;
  rewrite ?occurrences_openedWorld, ?occurrences_entryRun,
    ?occurrences_exitRun;
  lazymatch goal with
  | |- context [closingWorld] => apply occurrences_closingWorld
  | |- context [closedWorld] => apply occurrences_closedWorld
  | |- context [record] => apply occurrences_record
  | |- _ => symmetry; apply Nat.add_0_r
  end.

Ltac settled_account :=
  unfold ScenarioMore.passed; cbn;
  repeat match goal with
         | |- context [Nat.eqb ?a ?b] => destruct (Nat.eqb a b)
         end;
  reflexivity.

Ltac resumed_balance Hp Hq HW :=
  eapply balanced_resumed;
    [ exact Hp | exact Hq | accounted HW | accounted HW | accounted HW
    | accounted HW | settled_account | settled_account | assumption ].

Lemma balanced_protocol w i k s s' w' hu d r d' :
  pending s !! i = Some k ->
  pending s' = delete i (pending s) ++ option_list r ->
  ScenarioMore.opensInFlight w k = false ->
  ScenarioMore.closesInFlight w k = false ->
  Dialog.protocol w' hu (d, world s) = (r, (d', world s')) ->
  ScenarioMore.balanced w s -> ScenarioMore.balanced w s'.
Proof.
  intros Hp Hq Hko Hkc Hm B.
  destruct (Dialog.open d) eqn:Ho.
  - destruct hu.
    + destruct (Dialog.listeners d "open") eqn:Hl.
      * rewrite protocol_vetoed in Hm by assumption.
        injection Hm as <- _ HW.
        eapply balanced_resumed;
          [ exact Hp | exact Hq | accounted HW | accounted HW | accounted HW
          | accounted HW | rewrite Hko; settled_account
          | rewrite Hkc; settled_account | assumption ].
      * rewrite protocol_open_passed in Hm by assumption.
        injection Hm as <- _ HW.
        eapply balanced_resumed;
          [ exact Hp | exact Hq | accounted HW | accounted HW | accounted HW
          | accounted HW | rewrite Hko; settled_account
          | rewrite Hkc; settled_account | assumption ].
    + rewrite protocol_open_first in Hm by assumption.
      injection Hm as <- _ HW.
      eapply balanced_resumed;
        [ exact Hp | exact Hq | accounted HW | accounted HW | accounted HW
        | accounted HW | rewrite Hko; settled_account
        | rewrite Hkc; settled_account | assumption ].
  - destruct (Dialog.listeners d "close") eqn:Hl.
    + rewrite protocol_close_vetoed in Hm by assumption.
      injection Hm as <- _ HW.
      eapply balanced_resumed;
        [ exact Hp | exact Hq | accounted HW | accounted HW | accounted HW
        | accounted HW | rewrite Hko; settled_account
        | rewrite Hkc; settled_account | assumption ].
    + rewrite protocol_close_passed in Hm by assumption.
      injection Hm as <- _ HW.
      eapply balanced_resumed;
        [ exact Hp | exact Hq | accounted HW | accounted HW | accounted HW
        | accounted HW | rewrite Hko; settled_account
        | rewrite Hkc; settled_account | assumption ].
Qed.

Lemma balanced_step w st s s' :
  exec st s = Some s' ->
  ScenarioMore.balanced w s -> ScenarioMore.balanced w s'.
Proof.
  intros He B. destruct st as [w0|w0 v|i|run| | |w0].
  - cbn [exec] in He. destruct (dialogs s !! w0) as [d|]; [|discriminate].
    destruct (Dialog.hasUpdated d); [discriminate|].
    destruct (invoke w0 (Dialog.onOpenChange w0) s) as [s1|] eqn:Hv;
      [|discriminate].
    unfold runOn in He. destruct (dialogs s1 !! w0) as [d1|]; [|discriminate].
    unfold Dialog.onThis in He. cbn [fst snd] in He. injection He as <-.
    apply (balanced_same w s); [| |exact B].
    + intros name. cbn [world]. rewrite (world_onOpenChange w0 s s1 Hv).
      reflexivity.
    + intros p Hpd. unfold ScenarioMore.inFlight at 1. cbn [pending].
      exact (inFlight_onOpenChange p w0 s s1 Hpd Hv).
  - cbn [exec] in He. destruct (dialogs s !! w0) as [d|]; [|discriminate].
    destruct (eqb (Dialog.open d) v); [injection He as <-; exact B|].
    destruct (Dialog.hasUpdated d); [|injection He as <-; exact B].
    apply (balanced_same w s); [| |exact B].
    + intros name. rewrite (world_onOpenChange w0 _ s' He). reflexivity.
    + intros p Hpd. rewrite (inFlight_onOpenChange p w0 _ s' Hpd He).
      reflexivity.
  - destruct (pending s !! i) as [k|] eqn:Hp;
      [|cbn [exec] in He; rewrite Hp in He; discriminate].
    destruct (exec_resume_pending i k s s' Hp He) as (d & r & d' & Hm & Hq).
    destruct k as [w' hu|w' hu|w' hu cs|w' hu run|w' cs|w' run];
      cbn [Dialog.resume] in Hm.
    + unfold Dialog.afterDefined in Hm. destruct hu; cbn [negb] in Hm.
      * exact (balanced_protocol w i _ s s' w' true d r d' Hp Hq
                 eq_refl eq_refl Hm B).
      * injection Hm as <- _ HW. resumed_balance Hp Hq HW.
    + exact (balanced_protocol w i _ s s' w' hu d r d' Hp Hq
               eq_refl eq_refl Hm B).
    + rewrite startOpenRun_closed in Hm. injection Hm as <- _ HW.
      destruct hu; resumed_balance Hp Hq HW.
    + rewrite finishOpen_closed in Hm. injection Hm as <- _ HW.
      destruct hu; resumed_balance Hp Hq HW.
    + rewrite startCloseRun_closed in Hm. injection Hm as <- _ HW.
      resumed_balance Hp Hq HW.
    + rewrite finishClose_closed in Hm. injection Hm as <- _ HW.
      resumed_balance Hp Hq HW.
  - injection He as <-. apply (balanced_same w s); [| |exact B].
    + intros name. apply occurrences_log. reflexivity.
    + intros p _. reflexivity.
  - cbn [exec] in He.
    destruct (occurrences_callbacks "open" w _ _ s' He) as [_ Hq].
    apply (balanced_same w s); [| |exact B].
    + intros name.
      destruct (occurrences_callbacks name w _ _ s' He) as [E _].
      rewrite E. apply occurrences_log. reflexivity.
    + intros p _. unfold ScenarioMore.inFlight. rewrite Hq. reflexivity.
  - cbn [exec] in He. destruct (timers (world s)) as [|cb rest]; [discriminate|].
    destruct (occurrences_callback "open" w cb _ s' He) as [_ Hq].
    apply (balanced_same w s); [| |exact B].
    + intros name.
      destruct (occurrences_callback name w cb _ s' He) as [E _].
      rewrite E. apply occurrences_log. reflexivity.
    + intros p _. unfold ScenarioMore.inFlight. rewrite Hq. reflexivity.
  - cbn [exec] in He. unfold runOn in He.
    destruct (dialogs s !! w0) as [d|]; [|discriminate].
    unfold Dialog.disconnectedCallback, Dialog.onDocument in He.
    cbn [fst snd] in He. injection He as <-.
    apply (balanced_same w s); [| |exact B].
    + intros name. cbn [world]. unfold unlockScreen.
      rewrite occurrences_record_other by reflexivity.
      apply occurrences_log. reflexivity.
    + intros p _. reflexivity.
Qed.

(** X19: no completed notification without its intent.  On a page that
    starts with an empty log and no handler in flight, along any schedule and
    for every dialog: the number of [open] events that were not prevented
    equals the number of [opened] events plus the number of open handlers of
    that dialog still in flight, and the same for [close] and [closed].  So
    a dialog never dispatches more [opened] than unprevented [open], nor more
    [closed] than unprevented [close], however its handlers interleave; and a
    first render, which dispatches no [open], never leads to [opened]. *)
Theorem X19_completed_follows_intent
    (sched : list Step) (ds : list Dialog.t) (W : World) (w : nat) (s' : Sys) :
  log W = [] ->
  run sched (page ds W) = Some s' ->
  ScenarioMore.occurrences "open" w (world s')
  = (ScenarioMore.occurrences "opened" w (world s')
     + ScenarioMore.inFlight (ScenarioMore.opensInFlight w) s')%nat
  /\ ScenarioMore.occurrences "close" w (world s')
     = (ScenarioMore.occurrences "closed" w (world s')
        + ScenarioMore.inFlight (ScenarioMore.closesInFlight w) s')%nat.
Proof.
  intros Hl Hr.
  assert (B : ScenarioMore.balanced w (page ds W)).
  { unfold ScenarioMore.balanced, ScenarioMore.occurrences, page.
    cbn [world pending]. rewrite Hl. split; reflexivity. }
  revert Hr B. generalize (page ds W). clear Hl.
  induction sched as [|st rest IH]; intros s Hr B; cbn [run] in Hr.
  - injection Hr as <-. exact B.
  - destruct (exec st s) as [s1|] eqn:He; [|discriminate].
    exact (IH s1 Hr (balanced_step w st s s1 He B)).
Qed.

Lemma X19_witness :
  let ds := [rendered nobody] in
  let W := quiet 0 (Some button) in
  let sched := ScenarioMore.reopenWhileClosing false in
  log W = []
  /\ exists s',
       run sched (page ds W) = Some s'
       /\ ScenarioMore.occurrences "open" 0 (world s')
          = (ScenarioMore.occurrences "opened" 0 (world s')
             + ScenarioMore.inFlight (ScenarioMore.opensInFlight 0) s')%nat
       /\ ScenarioMore.occurrences "close" 0 (world s')
          = (ScenarioMore.occurrences "closed" 0 (world s')
             + ScenarioMore.inFlight (ScenarioMore.closesInFlight 0) s')%nat.
Proof.
  intros ds W sched. split; [reflexivity|].
  destruct (run sched (page ds W)) as [s'|] eqn:Hr;
    [|vm_compute in Hr; discriminate].
  exists s'. split; [reflexivity|].
  exact (X19_completed_follows_intent sched ds W 0 s' eq_refl Hr).
Defined.
